(** * A shallow embedding of the PRUDP server core of nex-go

    The development follows the Go sources: [stream_in.go] (typed reads on
    a byte stream), [byte_stream_out.go] (typed writes), the [QBuffer] type
    of package [types] and [prudp_server.go] (packet dispatch,
    acknowledgment, Kerberos ticket validation, fragmentation on send).

    Conventions.
    - A Go [[]byte] is a [list byte]; an unsigned w-bit integer is a [Z] in
      [0, 2^w) with the wrap-around written out; a signed one is a [Z] in
      [-2^(w-1), 2^(w-1)).
    - A Go float is represented by its IEEE-754 bit pattern (the argument of
      [math.Float32frombits] / [math.Float64frombits]); the zero value [0.0]
      is the pattern [0].
    - A Go [(value, error)] result is a pair [(value, option error)]: the
      callers in [prudp_server.go] often drop the error and go on with the
      value, so both components are kept.
    - Methods that mutate their receiver return the new receiver. *)

From Stdlib Require Import ZArith List Lia Bool.
From Stdlib.Strings Require Import Byte.
From stdpp Require Import base option list gmap strings pretty.

Local Open Scope Z_scope.

Abbreviation byte := Byte.byte.
Abbreviation bytes := (list Byte.byte).
Abbreviation error := string.

(** Go's [uintN(x)] and [intN(x)] conversions on integers. *)
Definition wrap (w : Z) (x : Z) : Z := x mod 2 ^ w.
Definition to_signed (w : Z) (x : Z) : Z :=
  if x <? 2 ^ (w - 1) then x else x - 2 ^ w.

Definition u8 (b : byte) : Z := Z.of_N (Byte.to_N b).
Definition byte_of_Z (x : Z) : byte :=
  match Byte.of_N (Z.to_N (wrap 8 x)) with
  | Some b => b
  | None => Byte.x00
  end.

(** Value of a byte string read as a little-endian (resp. big-endian)
    unsigned number; used to state what the typed reads decode. *)
Fixpoint le_value (l : bytes) : Z :=
  match l with
  | [] => 0
  | b :: l' => u8 b + 256 * le_value l'
  end.
Definition be_value (l : bytes) : Z := le_value (rev l).

(** ** The byte buffer of github.com/superwhiskers/crunch

    [StreamIn] and [ByteStreamOut] embed a [*crunch.Buffer]: a byte slice
    [buf] and a byte offset [boff].  The [Read...Next] methods decode at the
    offset and then advance it; the [Write...Next] methods (after [Grow])
    store at the offset and advance it. *)
Module crunch.

Record Buffer := mkBuffer { buf : bytes; boff : nat }.

Definition NewBuffer (data : bytes) : Buffer := mkBuffer data 0.

Definition Bytes (b : Buffer) : bytes := buf b.
Definition ByteOffset (b : Buffer) : nat := boff b.

(** [b.buf[i]] as an integer *)
Definition at_ (b : Buffer) (i : nat) : Z := u8 (nth i (buf b) Byte.x00).

Definition SeekByte (n : nat) (b : Buffer) : Buffer :=
  mkBuffer (buf b) (boff b + n).

Definition ReadByteNext (b : Buffer) : byte * Buffer :=
  (nth (boff b) (buf b) Byte.x00, SeekByte 1 b).

Definition ReadBytesNext (n : nat) (b : Buffer) : bytes * Buffer :=
  (take n (drop (boff b) (buf b)), SeekByte n b).

Definition ReadU16LE (off : nat) (b : Buffer) : Z :=
  Z.lor (at_ b off) (Z.shiftl (at_ b (off + 1)) 8).
Definition ReadU16BE (off : nat) (b : Buffer) : Z :=
  Z.lor (at_ b (off + 1)) (Z.shiftl (at_ b off) 8).

Definition ReadU32LE (off : nat) (b : Buffer) : Z :=
  Z.lor (Z.lor (Z.lor (at_ b off) (Z.shiftl (at_ b (off + 1)) 8))
               (Z.shiftl (at_ b (off + 2)) 16))
        (Z.shiftl (at_ b (off + 3)) 24).
Definition ReadU32BE (off : nat) (b : Buffer) : Z :=
  Z.lor (Z.lor (Z.lor (at_ b (off + 3)) (Z.shiftl (at_ b (off + 2)) 8))
               (Z.shiftl (at_ b (off + 1)) 16))
        (Z.shiftl (at_ b off) 24).

Definition ReadU64LE (off : nat) (b : Buffer) : Z :=
  Z.lor (Z.lor (Z.lor (Z.lor (Z.lor (Z.lor (Z.lor
    (at_ b off)
    (Z.shiftl (at_ b (off + 1)) 8))
    (Z.shiftl (at_ b (off + 2)) 16))
    (Z.shiftl (at_ b (off + 3)) 24))
    (Z.shiftl (at_ b (off + 4)) 32))
    (Z.shiftl (at_ b (off + 5)) 40))
    (Z.shiftl (at_ b (off + 6)) 48))
    (Z.shiftl (at_ b (off + 7)) 56).
Definition ReadU64BE (off : nat) (b : Buffer) : Z :=
  Z.lor (Z.lor (Z.lor (Z.lor (Z.lor (Z.lor (Z.lor
    (at_ b (off + 7))
    (Z.shiftl (at_ b (off + 6)) 8))
    (Z.shiftl (at_ b (off + 5)) 16))
    (Z.shiftl (at_ b (off + 4)) 24))
    (Z.shiftl (at_ b (off + 3)) 32))
    (Z.shiftl (at_ b (off + 2)) 40))
    (Z.shiftl (at_ b (off + 1)) 48))
    (Z.shiftl (at_ b off) 56).

(** [Read...Next(1)[0]]: one element at the offset, then seek. *)
Definition ReadU16LENext (b : Buffer) : Z * Buffer :=
  (ReadU16LE (boff b) b, SeekByte 2 b).
Definition ReadU16BENext (b : Buffer) : Z * Buffer :=
  (ReadU16BE (boff b) b, SeekByte 2 b).
Definition ReadU32LENext (b : Buffer) : Z * Buffer :=
  (ReadU32LE (boff b) b, SeekByte 4 b).
Definition ReadU32BENext (b : Buffer) : Z * Buffer :=
  (ReadU32BE (boff b) b, SeekByte 4 b).
Definition ReadU64LENext (b : Buffer) : Z * Buffer :=
  (ReadU64LE (boff b) b, SeekByte 8 b).
Definition ReadU64BENext (b : Buffer) : Z * Buffer :=
  (ReadU64BE (boff b) b, SeekByte 8 b).
(** floats are kept as their bit patterns *)
Definition ReadF32LENext := ReadU32LENext.
Definition ReadF32BENext := ReadU32BENext.
Definition ReadF64LENext := ReadU64LENext.
Definition ReadF64BENext := ReadU64BENext.

(** Writing at the end of a growing buffer: [Grow(n)] then
    [Write...Next].  The output streams of this program only ever append,
    so the offset stays at the end of [buf]. *)
Definition WriteBytesNext (data : bytes) (b : Buffer) : Buffer :=
  mkBuffer (take (boff b) (buf b) ++ data ++ drop (boff b + length data) (buf b))
           (boff b + length data).
Definition Grow (n : nat) (b : Buffer) : Buffer :=
  mkBuffer (buf b ++ replicate n Byte.x00) (boff b).

Definition WriteU32LENext (x : Z) (b : Buffer) : Buffer :=
  WriteBytesNext [byte_of_Z x; byte_of_Z (Z.shiftr x 8);
                  byte_of_Z (Z.shiftr x 16); byte_of_Z (Z.shiftr x 24)] b.

(** The other [Write...Next] methods that [byte_stream_out.go] calls, each
    with a one-element slice. *)
Definition WriteByteNext (x : Z) (b : Buffer) : Buffer :=
  WriteBytesNext [byte_of_Z x] b.
Definition WriteU16LENext (x : Z) (b : Buffer) : Buffer :=
  WriteBytesNext [byte_of_Z x; byte_of_Z (Z.shiftr x 8)] b.
Definition WriteU64LENext (x : Z) (b : Buffer) : Buffer :=
  WriteBytesNext [byte_of_Z x; byte_of_Z (Z.shiftr x 8);
                  byte_of_Z (Z.shiftr x 16); byte_of_Z (Z.shiftr x 24);
                  byte_of_Z (Z.shiftr x 32); byte_of_Z (Z.shiftr x 40);
                  byte_of_Z (Z.shiftr x 48); byte_of_Z (Z.shiftr x 56)] b.
(** floats are kept as their bit patterns *)
Definition WriteF32LENext := WriteU32LENext.
Definition WriteF64LENext := WriteU64LENext.

End crunch.

(** ** stream_in.go *)
Module StreamIn.
Import crunch.

Abbreviation StreamIn := Buffer.

Definition NewStreamIn (data : bytes) : StreamIn := NewBuffer data.

(** [len(stream.Bytes()[stream.ByteOffset():])]; the slice expression
    panics when the offset is past the end, which [wf] excludes. *)
Definition Remaining (stream : StreamIn) : nat :=
  length (drop (ByteOffset stream) (Bytes stream)).

Definition wf (stream : StreamIn) : Prop :=
  (boff stream <= length (buf stream))%nat.

Definition ReadRemaining (stream : StreamIn) : bytes * StreamIn :=
  ReadBytesNext (Remaining stream) stream.

Definition ReadUInt8 (stream : StreamIn) : (Z * option error) * StreamIn :=
  if (Remaining stream <? 1)%nat
  then ((0, Some "Not enough data to read uint8"), stream)
  else let '(b, s') := ReadByteNext stream in ((u8 b, None), s').

Definition ReadInt8 (stream : StreamIn) : (Z * option error) * StreamIn :=
  if (Remaining stream <? 1)%nat
  then ((0, Some "Not enough data to read int8"), stream)
  else let '(b, s') := ReadByteNext stream in ((to_signed 8 (u8 b), None), s').

Definition ReadUInt16LE (stream : StreamIn) : (Z * option error) * StreamIn :=
  if (Remaining stream <? 2)%nat
  then ((0, Some "Not enough data to read uint16"), stream)
  else let '(v, s') := ReadU16LENext stream in ((v, None), s').

Definition ReadUInt16BE (stream : StreamIn) : (Z * option error) * StreamIn :=
  if (Remaining stream <? 2)%nat
  then ((0, Some "Not enough data to read uint16"), stream)
  else let '(v, s') := ReadU16BENext stream in ((v, None), s').

Definition ReadInt16LE (stream : StreamIn) : (Z * option error) * StreamIn :=
  if (Remaining stream <? 2)%nat
  then ((0, Some "Not enough data to read int16"), stream)
  else let '(v, s') := ReadU16LENext stream in ((to_signed 16 v, None), s').

Definition ReadInt16BE (stream : StreamIn) : (Z * option error) * StreamIn :=
  if (Remaining stream <? 2)%nat
  then ((0, Some "Not enough data to read int16"), stream)
  else let '(v, s') := ReadU16BENext stream in ((to_signed 16 v, None), s').

Definition ReadUInt32LE (stream : StreamIn) : (Z * option error) * StreamIn :=
  if (Remaining stream <? 4)%nat
  then ((0, Some "Not enough data to read uint32"), stream)
  else let '(v, s') := ReadU32LENext stream in ((v, None), s').

Definition ReadUInt32BE (stream : StreamIn) : (Z * option error) * StreamIn :=
  if (Remaining stream <? 4)%nat
  then ((0, Some "Not enough data to read uint32"), stream)
  else let '(v, s') := ReadU32BENext stream in ((v, None), s').

Definition ReadInt32LE (stream : StreamIn) : (Z * option error) * StreamIn :=
  if (Remaining stream <? 4)%nat
  then ((0, Some "Not enough data to read int32"), stream)
  else let '(v, s') := ReadU32LENext stream in ((to_signed 32 v, None), s').

Definition ReadInt32BE (stream : StreamIn) : (Z * option error) * StreamIn :=
  if (Remaining stream <? 4)%nat
  then ((0, Some "Not enough data to read int32"), stream)
  else let '(v, s') := ReadU32BENext stream in ((to_signed 32 v, None), s').

Definition ReadUInt64LE (stream : StreamIn) : (Z * option error) * StreamIn :=
  if (Remaining stream <? 8)%nat
  then ((0, Some "Not enough data to read uint64"), stream)
  else let '(v, s') := ReadU64LENext stream in ((v, None), s').

Definition ReadUInt64BE (stream : StreamIn) : (Z * option error) * StreamIn :=
  if (Remaining stream <? 8)%nat
  then ((0, Some "Not enough data to read uint64"), stream)
  else let '(v, s') := ReadU64BENext stream in ((v, None), s').

Definition ReadInt64LE (stream : StreamIn) : (Z * option error) * StreamIn :=
  if (Remaining stream <? 8)%nat
  then ((0, Some "Not enough data to read int64"), stream)
  else let '(v, s') := ReadU64LENext stream in ((to_signed 64 v, None), s').

Definition ReadInt64BE (stream : StreamIn) : (Z * option error) * StreamIn :=
  if (Remaining stream <? 8)%nat
  then ((0, Some "Not enough data to read int64"), stream)
  else let '(v, s') := ReadU64BENext stream in ((to_signed 64 v, None), s').

Definition ReadFloat32LE (stream : StreamIn) : (Z * option error) * StreamIn :=
  if (Remaining stream <? 4)%nat
  then ((0, Some "Not enough data to read float32"), stream)
  else let '(v, s') := ReadF32LENext stream in ((v, None), s').

Definition ReadFloat32BE (stream : StreamIn) : (Z * option error) * StreamIn :=
  if (Remaining stream <? 4)%nat
  then ((0, Some "Not enough data to read float32"), stream)
  else let '(v, s') := ReadF32BENext stream in ((v, None), s').

Definition ReadFloat64LE (stream : StreamIn) : (Z * option error) * StreamIn :=
  if (Remaining stream <? 8)%nat
  then ((0, Some "Not enough data to read float64"), stream)
  else let '(v, s') := ReadF64LENext stream in ((v, None), s').

Definition ReadFloat64BE (stream : StreamIn) : (Z * option error) * StreamIn :=
  if (Remaining stream <? 8)%nat
  then ((0, Some "Not enough data to read float64"), stream)
  else let '(v, s') := ReadF64BENext stream in ((v, None), s').

Definition ReadBool (stream : StreamIn) : (bool * option error) * StreamIn :=
  if (Remaining stream <? 1)%nat
  then ((false, Some "Not enough data to read bool"), stream)
  else let '(b, s') := ReadByteNext stream in ((u8 b =? 1, None), s').

(** [fmt.Errorf("Failed to read NEX buffer length. %s", err.Error())] *)
Definition ReadBuffer (stream : StreamIn) : (bytes * option error) * StreamIn :=
  let '((length, err), stream) := ReadUInt32LE stream in
  match err with
  | Some e => (([], Some ("Failed to read NEX buffer length. " +:+ e)), stream)
  | None =>
      if (Z.of_nat (Remaining stream) <? length)
      then (([], Some "NEX buffer length longer than data size"), stream)
      else let '(data, s') := ReadBytesNext (Z.to_nat length) stream in
           ((data, None), s')
  end.


(** [strings.TrimRight(str, "\x00")]: the string without its trailing NUL
    bytes.  A Go string is kept as its bytes. *)
Fixpoint TrimRightNUL (str : bytes) : bytes :=
  match str with
  | [] => []
  | b :: rest =>
      match TrimRightNUL rest with
      | [] => if Byte.eqb b Byte.x00 then [] else [b]
      | trimmed => b :: trimmed
      end
  end.

(** [stringLengthSize] is the result of [stream.Server.StringLengthSize()]. *)
Definition ReadString (stringLengthSize : Z) (stream : StreamIn)
  : (bytes * option error) * StreamIn :=
  let '((length, err), stream) :=
    if stringLengthSize =? 4 then ReadUInt32LE stream else ReadUInt16LE stream in
  match err with
  | Some e => (([], Some ("Failed to read NEX string length. " +:+ e)), stream)
  | None =>
      if (Z.of_nat (Remaining stream) <? length)
      then (([], Some "NEX string length longer than data size"), stream)
      else let '(stringData, s') := ReadBytesNext (Z.to_nat length) stream in
           ((TrimRightNUL stringData, None), s')
  end.

Definition ReadQBuffer (stream : StreamIn) : (bytes * option error) * StreamIn :=
  let '((length, err), stream) := ReadUInt16LE stream in
  match err with
  | Some e => (([], Some ("Failed to read NEX qBuffer length. " +:+ e)), stream)
  | None =>
      if (Z.of_nat (Remaining stream) <? length)
      then (([], Some "NEX qBuffer length longer than data size"), stream)
      else let '(data, s') := ReadBytesNext (Z.to_nat length) stream in
           ((data, None), s')
  end.

(** The [ReadList...] methods of the fixed-width types are one text
    repeated eighteen times, in which only the name of the element type in
    the messages, the factor in the length check and the element read
    change:
    [[
      length, err := stream.ReadUInt32LE()
      if err != nil { return nil, fmt.Errorf("Failed to read List<T> length. %s", ...) }
      if stream.Remaining() < int(length*factor) { return nil, errors.New("NEX List<T> length longer than data size") }
      list := make([]T, 0, length)
      for i := 0; i < int(length); i++ {
        value, err := stream.ReadT()
        if err != nil { return nil, fmt.Errorf("Failed to read List<T> value at index %d. %s", i, ...) }
        list = append(list, value)
      }
      return list, nil
    ]]
    [length*factor] is a uint32 product and wraps; [int] has 64 bits.  The
    memory that [make] reserves is outside the model. *)
Fixpoint readListValues {A} (name : string)
    (read : StreamIn -> (A * option error) * StreamIn)
    (count : nat) (i : nat) (list : Datatypes.list A) (stream : StreamIn)
  : (Datatypes.list A * option error) * StreamIn :=
  match count with
  | O => ((list, None), stream)
  | S count' =>
      let '((value, err), stream) := read stream in
      match err with
      | Some e =>
          (([], Some ("Failed to read List<" +:+ name +:+ "> value at index "
                      +:+ pretty i +:+ ". " +:+ e)), stream)
      | None => readListValues name read count' (S i) (list ++ [value]) stream
      end
  end.

Definition readList {A} (name : string) (factor : Z)
    (read : StreamIn -> (A * option error) * StreamIn) (stream : StreamIn)
  : (list A * option error) * StreamIn :=
  let '((length, err), stream) := ReadUInt32LE stream in
  match err with
  | Some e =>
      (([], Some ("Failed to read List<" +:+ name +:+ "> length. " +:+ e)), stream)
  | None =>
      if (Z.of_nat (Remaining stream) <? wrap 32 (length * factor))
      then (([], Some ("NEX List<" +:+ name +:+ "> length longer than data size")),
            stream)
      else readListValues name read (Z.to_nat length) 0 [] stream
  end.

Definition ReadListUInt16LE := readList "uint16" 2 ReadUInt16LE.
Definition ReadListUInt16BE := readList "uint16" 2 ReadUInt16BE.
Definition ReadListInt16LE := readList "int16" 2 ReadInt16LE.
Definition ReadListInt16BE := readList "int16" 2 ReadInt16BE.
Definition ReadListUInt32LE := readList "uint32" 4 ReadUInt32LE.
Definition ReadListUInt32BE := readList "uint32" 4 ReadUInt32BE.
Definition ReadListInt32LE := readList "int32" 4 ReadInt32LE.
Definition ReadListInt32BE := readList "int32" 4 ReadInt32BE.
Definition ReadListUInt64LE := readList "uint64" 8 ReadUInt64LE.
Definition ReadListUInt64BE := readList "uint64" 8 ReadUInt64BE.
Definition ReadListInt64LE := readList "int64" 8 ReadInt64LE.
Definition ReadListInt64BE := readList "int64" 8 ReadInt64BE.
Definition ReadListFloat32LE := readList "float32" 4 ReadFloat32LE.
Definition ReadListFloat32BE := readList "float32" 4 ReadFloat32BE.
(** The two [float64] lists compare with [int(length*4)], as the source
    has it. *)
Definition ReadListFloat64LE := readList "float64" 4 ReadFloat64LE.
Definition ReadListFloat64BE := readList "float64" 4 ReadFloat64BE.

(** [StreamReadMap]: the two readers are closures over the stream; here
    they take the stream and return it.  The result is [nil] on an error. *)
Fixpoint readMapEntries {K V} `{Countable K}
    (keyReader : StreamIn -> (K * option error) * StreamIn)
    (valueReader : StreamIn -> (V * option error) * StreamIn)
    (count : nat) (m : gmap K V) (stream : StreamIn)
  : (option (gmap K V) * option error) * StreamIn :=
  match count with
  | O => ((Some m, None), stream)
  | S count' =>
      let '((key, err), stream) := keyReader stream in
      match err with
      | Some e => ((None, Some e), stream)
      | None =>
          let '((value, err), stream) := valueReader stream in
          match err with
          | Some e => ((None, Some e), stream)
          | None =>
              readMapEntries keyReader valueReader count' (<[key := value]> m) stream
          end
      end
  end.

Definition StreamReadMap {K V} `{Countable K}
    (keyReader : StreamIn -> (K * option error) * StreamIn)
    (valueReader : StreamIn -> (V * option error) * StreamIn)
    (stream : StreamIn)
  : (option (gmap K V) * option error) * StreamIn :=
  let '((length, err), stream) := ReadUInt32LE stream in
  match err with
  | Some e => ((None, Some ("Failed to read Map length. " +:+ e)), stream)
  | None => readMapEntries keyReader valueReader (Z.to_nat length) ∅ stream
  end.

End StreamIn.

(** ** byte_stream_out.go

    The output stream embeds a [*crunch.Buffer] created empty by
    [crunch.NewBuffer()]; every write first grows the buffer by the width
    of the value and then stores at the offset. *)
Module StreamOut.

Abbreviation StreamOut := crunch.Buffer.

Definition NewStreamOut : StreamOut := crunch.NewBuffer [].

Definition WritePrimitiveUInt32LE (u32 : Z) (bso : StreamOut) : StreamOut :=
  crunch.WriteU32LENext u32 (crunch.Grow 4 bso).

(** [prudp_server.go] calls the same method under its older name. *)
Definition WriteUInt32LE := WritePrimitiveUInt32LE.

Definition Bytes (bso : StreamOut) : bytes := crunch.Bytes bso.

(** [Write] and the other [WritePrimitive...] methods.  The signed ones
    convert to the unsigned type of the same width first ([byte(s8)],
    [uint16(s16)], ...). *)
Definition Write (data : bytes) (bso : StreamOut) : StreamOut :=
  crunch.WriteBytesNext data (crunch.Grow (length data) bso).

Definition WritePrimitiveUInt8 (u8 : Z) (bso : StreamOut) : StreamOut :=
  crunch.WriteByteNext u8 (crunch.Grow 1 bso).
Definition WritePrimitiveUInt16LE (u16 : Z) (bso : StreamOut) : StreamOut :=
  crunch.WriteU16LENext u16 (crunch.Grow 2 bso).
Definition WritePrimitiveUInt64LE (u64 : Z) (bso : StreamOut) : StreamOut :=
  crunch.WriteU64LENext u64 (crunch.Grow 8 bso).
Definition WritePrimitiveInt8 (s8 : Z) (bso : StreamOut) : StreamOut :=
  crunch.WriteByteNext (wrap 8 s8) (crunch.Grow 1 bso).
Definition WritePrimitiveInt16LE (s16 : Z) (bso : StreamOut) : StreamOut :=
  crunch.WriteU16LENext (wrap 16 s16) (crunch.Grow 2 bso).
Definition WritePrimitiveInt32LE (s32 : Z) (bso : StreamOut) : StreamOut :=
  crunch.WriteU32LENext (wrap 32 s32) (crunch.Grow 4 bso).
Definition WritePrimitiveInt64LE (s64 : Z) (bso : StreamOut) : StreamOut :=
  crunch.WriteU64LENext (wrap 64 s64) (crunch.Grow 8 bso).
Definition WritePrimitiveFloat32LE (f32 : Z) (bso : StreamOut) : StreamOut :=
  crunch.WriteF32LENext f32 (crunch.Grow 4 bso).
Definition WritePrimitiveFloat64LE (f64 : Z) (bso : StreamOut) : StreamOut :=
  crunch.WriteF64LENext f64 (crunch.Grow 8 bso).
Definition WritePrimitiveBool (b : bool) (bso : StreamOut) : StreamOut :=
  let bVar := if b then 1 else 0 in
  crunch.WriteByteNext bVar (crunch.Grow 1 bso).

End StreamOut.

(** ** The [QBuffer] type of package [types]

    A [[]byte] written with a uint16 length field.  [Writable] is the
    interface that [ByteStreamOut] implements. *)
Module QBuffer.

Definition WriteTo (qb : bytes) (writable : StreamOut.StreamOut)
  : StreamOut.StreamOut :=
  let length := Z.of_nat (length qb) in
  let writable := StreamOut.WritePrimitiveUInt16LE (wrap 16 length) writable in
  if 0 <? length then StreamOut.Write qb writable else writable.

End QBuffer.

(** ** prudp_server.go *)
Module PRUDP.
Import StreamIn.

(** Modelled from the spec: the packet type and flag constants (section 3,
    "Packet": types SYN, CONNECT, DATA, DISCONNECT, PING and flags ACK,
    RELIABLE, NEEDS_ACK, HAS_SIZE, MULTI_ACK), declared outside the files
    at hand.  Types are numbered in the order the spec lists them; each flag
    is one bit of the 12-bit flag field. *)
Definition SynPacket : Z := 0.
Definition ConnectPacket : Z := 1.
Definition DataPacket : Z := 2.
Definition DisconnectPacket : Z := 3.
Definition PingPacket : Z := 4.

Definition FlagAck : Z := 1.
Definition FlagReliable : Z := 2.
Definition FlagNeedsAck : Z := 4.
Definition FlagHasSize : Z := 8.
Definition FlagMultiAck : Z := 512.

(** Modelled from the spec: the decoded PRUDP frame (section 3, "Packet"),
    whose Go declaration is outside the files at hand.  Fields carry the
    names of the accessors [prudp_server.go] calls; the three [v1_] fields
    are the ones it reads on a [*PRUDPPacketV1].  [Version] is 0 for a
    [*PRUDPPacketV0] and 1 for a [*PRUDPPacketV1].  The RMC message is
    opaque to the core and is kept as the bytes it was decoded from.  The
    sender of a packet is the peer object held in the state below. *)
Record PRUDPPacket := mkPacket {
  Version : Z;
  SourceStreamType : Z;
  SourcePort : Z;
  DestinationStreamType : Z;
  DestinationPort : Z;
  Type_ : Z;
  Flags : Z;
  SessionID : Z;
  SubstreamID : Z;
  SequenceID : Z;
  getFragmentID : Z;
  getConnectionSignature : bytes;
  getSignature : bytes;
  Payload : bytes;
  v1_maximumSubstreamID : Z;
  v1_minorVersion : Z;
  v1_supportedFunctions : Z;
  RMCMessage : option bytes
}.

Definition SetType (v : Z) (p : PRUDPPacket) : PRUDPPacket :=
  {| Version := Version p; SourceStreamType := SourceStreamType p;
     SourcePort := SourcePort p; DestinationStreamType := DestinationStreamType p;
     DestinationPort := DestinationPort p; Type_ := v; Flags := Flags p;
     SessionID := SessionID p; SubstreamID := SubstreamID p;
     SequenceID := SequenceID p; getFragmentID := getFragmentID p;
     getConnectionSignature := getConnectionSignature p;
     getSignature := getSignature p; Payload := Payload p;
     v1_maximumSubstreamID := v1_maximumSubstreamID p;
     v1_minorVersion := v1_minorVersion p;
     v1_supportedFunctions := v1_supportedFunctions p; RMCMessage := RMCMessage p |}.
Definition setFlags (v : Z) (p : PRUDPPacket) : PRUDPPacket :=
  {| Version := Version p; SourceStreamType := SourceStreamType p;
     SourcePort := SourcePort p; DestinationStreamType := DestinationStreamType p;
     DestinationPort := DestinationPort p; Type_ := Type_ p; Flags := v;
     SessionID := SessionID p; SubstreamID := SubstreamID p;
     SequenceID := SequenceID p; getFragmentID := getFragmentID p;
     getConnectionSignature := getConnectionSignature p;
     getSignature := getSignature p; Payload := Payload p;
     v1_maximumSubstreamID := v1_maximumSubstreamID p;
     v1_minorVersion := v1_minorVersion p;
     v1_supportedFunctions := v1_supportedFunctions p; RMCMessage := RMCMessage p |}.
Definition SetSourceStreamType (v : Z) (p : PRUDPPacket) : PRUDPPacket :=
  {| Version := Version p; SourceStreamType := v; SourcePort := SourcePort p;
     DestinationStreamType := DestinationStreamType p;
     DestinationPort := DestinationPort p; Type_ := Type_ p; Flags := Flags p;
     SessionID := SessionID p; SubstreamID := SubstreamID p;
     SequenceID := SequenceID p; getFragmentID := getFragmentID p;
     getConnectionSignature := getConnectionSignature p;
     getSignature := getSignature p; Payload := Payload p;
     v1_maximumSubstreamID := v1_maximumSubstreamID p;
     v1_minorVersion := v1_minorVersion p;
     v1_supportedFunctions := v1_supportedFunctions p; RMCMessage := RMCMessage p |}.
Definition SetSourcePort (v : Z) (p : PRUDPPacket) : PRUDPPacket :=
  {| Version := Version p; SourceStreamType := SourceStreamType p; SourcePort := v;
     DestinationStreamType := DestinationStreamType p;
     DestinationPort := DestinationPort p; Type_ := Type_ p; Flags := Flags p;
     SessionID := SessionID p; SubstreamID := SubstreamID p;
     SequenceID := SequenceID p; getFragmentID := getFragmentID p;
     getConnectionSignature := getConnectionSignature p;
     getSignature := getSignature p; Payload := Payload p;
     v1_maximumSubstreamID := v1_maximumSubstreamID p;
     v1_minorVersion := v1_minorVersion p;
     v1_supportedFunctions := v1_supportedFunctions p; RMCMessage := RMCMessage p |}.
Definition SetDestinationStreamType (v : Z) (p : PRUDPPacket) : PRUDPPacket :=
  {| Version := Version p; SourceStreamType := SourceStreamType p;
     SourcePort := SourcePort p; DestinationStreamType := v;
     DestinationPort := DestinationPort p; Type_ := Type_ p; Flags := Flags p;
     SessionID := SessionID p; SubstreamID := SubstreamID p;
     SequenceID := SequenceID p; getFragmentID := getFragmentID p;
     getConnectionSignature := getConnectionSignature p;
     getSignature := getSignature p; Payload := Payload p;
     v1_maximumSubstreamID := v1_maximumSubstreamID p;
     v1_minorVersion := v1_minorVersion p;
     v1_supportedFunctions := v1_supportedFunctions p; RMCMessage := RMCMessage p |}.
Definition SetDestinationPort (v : Z) (p : PRUDPPacket) : PRUDPPacket :=
  {| Version := Version p; SourceStreamType := SourceStreamType p;
     SourcePort := SourcePort p; DestinationStreamType := DestinationStreamType p;
     DestinationPort := v; Type_ := Type_ p; Flags := Flags p;
     SessionID := SessionID p; SubstreamID := SubstreamID p;
     SequenceID := SequenceID p; getFragmentID := getFragmentID p;
     getConnectionSignature := getConnectionSignature p;
     getSignature := getSignature p; Payload := Payload p;
     v1_maximumSubstreamID := v1_maximumSubstreamID p;
     v1_minorVersion := v1_minorVersion p;
     v1_supportedFunctions := v1_supportedFunctions p; RMCMessage := RMCMessage p |}.
Definition SetSessionID (v : Z) (p : PRUDPPacket) : PRUDPPacket :=
  {| Version := Version p; SourceStreamType := SourceStreamType p;
     SourcePort := SourcePort p; DestinationStreamType := DestinationStreamType p;
     DestinationPort := DestinationPort p; Type_ := Type_ p; Flags := Flags p;
     SessionID := v; SubstreamID := SubstreamID p; SequenceID := SequenceID p;
     getFragmentID := getFragmentID p;
     getConnectionSignature := getConnectionSignature p;
     getSignature := getSignature p; Payload := Payload p;
     v1_maximumSubstreamID := v1_maximumSubstreamID p;
     v1_minorVersion := v1_minorVersion p;
     v1_supportedFunctions := v1_supportedFunctions p; RMCMessage := RMCMessage p |}.
Definition SetSubstreamID (v : Z) (p : PRUDPPacket) : PRUDPPacket :=
  {| Version := Version p; SourceStreamType := SourceStreamType p;
     SourcePort := SourcePort p; DestinationStreamType := DestinationStreamType p;
     DestinationPort := DestinationPort p; Type_ := Type_ p; Flags := Flags p;
     SessionID := SessionID p; SubstreamID := v; SequenceID := SequenceID p;
     getFragmentID := getFragmentID p;
     getConnectionSignature := getConnectionSignature p;
     getSignature := getSignature p; Payload := Payload p;
     v1_maximumSubstreamID := v1_maximumSubstreamID p;
     v1_minorVersion := v1_minorVersion p;
     v1_supportedFunctions := v1_supportedFunctions p; RMCMessage := RMCMessage p |}.
Definition SetSequenceID (v : Z) (p : PRUDPPacket) : PRUDPPacket :=
  {| Version := Version p; SourceStreamType := SourceStreamType p;
     SourcePort := SourcePort p; DestinationStreamType := DestinationStreamType p;
     DestinationPort := DestinationPort p; Type_ := Type_ p; Flags := Flags p;
     SessionID := SessionID p; SubstreamID := SubstreamID p; SequenceID := v;
     getFragmentID := getFragmentID p;
     getConnectionSignature := getConnectionSignature p;
     getSignature := getSignature p; Payload := Payload p;
     v1_maximumSubstreamID := v1_maximumSubstreamID p;
     v1_minorVersion := v1_minorVersion p;
     v1_supportedFunctions := v1_supportedFunctions p; RMCMessage := RMCMessage p |}.
Definition setFragmentID (v : Z) (p : PRUDPPacket) : PRUDPPacket :=
  {| Version := Version p; SourceStreamType := SourceStreamType p;
     SourcePort := SourcePort p; DestinationStreamType := DestinationStreamType p;
     DestinationPort := DestinationPort p; Type_ := Type_ p; Flags := Flags p;
     SessionID := SessionID p; SubstreamID := SubstreamID p;
     SequenceID := SequenceID p; getFragmentID := v;
     getConnectionSignature := getConnectionSignature p;
     getSignature := getSignature p; Payload := Payload p;
     v1_maximumSubstreamID := v1_maximumSubstreamID p;
     v1_minorVersion := v1_minorVersion p;
     v1_supportedFunctions := v1_supportedFunctions p; RMCMessage := RMCMessage p |}.
Definition setConnectionSignature (v : bytes) (p : PRUDPPacket) : PRUDPPacket :=
  {| Version := Version p; SourceStreamType := SourceStreamType p;
     SourcePort := SourcePort p; DestinationStreamType := DestinationStreamType p;
     DestinationPort := DestinationPort p; Type_ := Type_ p; Flags := Flags p;
     SessionID := SessionID p; SubstreamID := SubstreamID p;
     SequenceID := SequenceID p; getFragmentID := getFragmentID p;
     getConnectionSignature := v; getSignature := getSignature p; Payload := Payload p;
     v1_maximumSubstreamID := v1_maximumSubstreamID p;
     v1_minorVersion := v1_minorVersion p;
     v1_supportedFunctions := v1_supportedFunctions p; RMCMessage := RMCMessage p |}.
Definition setSignature (v : bytes) (p : PRUDPPacket) : PRUDPPacket :=
  {| Version := Version p; SourceStreamType := SourceStreamType p;
     SourcePort := SourcePort p; DestinationStreamType := DestinationStreamType p;
     DestinationPort := DestinationPort p; Type_ := Type_ p; Flags := Flags p;
     SessionID := SessionID p; SubstreamID := SubstreamID p;
     SequenceID := SequenceID p; getFragmentID := getFragmentID p;
     getConnectionSignature := getConnectionSignature p; getSignature := v;
     Payload := Payload p; v1_maximumSubstreamID := v1_maximumSubstreamID p;
     v1_minorVersion := v1_minorVersion p;
     v1_supportedFunctions := v1_supportedFunctions p; RMCMessage := RMCMessage p |}.
Definition SetPayload (v : bytes) (p : PRUDPPacket) : PRUDPPacket :=
  {| Version := Version p; SourceStreamType := SourceStreamType p;
     SourcePort := SourcePort p; DestinationStreamType := DestinationStreamType p;
     DestinationPort := DestinationPort p; Type_ := Type_ p; Flags := Flags p;
     SessionID := SessionID p; SubstreamID := SubstreamID p;
     SequenceID := SequenceID p; getFragmentID := getFragmentID p;
     getConnectionSignature := getConnectionSignature p;
     getSignature := getSignature p; Payload := v;
     v1_maximumSubstreamID := v1_maximumSubstreamID p;
     v1_minorVersion := v1_minorVersion p;
     v1_supportedFunctions := v1_supportedFunctions p; RMCMessage := RMCMessage p |}.
Definition set_maximumSubstreamID (v : Z) (p : PRUDPPacket) : PRUDPPacket :=
  {| Version := Version p; SourceStreamType := SourceStreamType p;
     SourcePort := SourcePort p; DestinationStreamType := DestinationStreamType p;
     DestinationPort := DestinationPort p; Type_ := Type_ p; Flags := Flags p;
     SessionID := SessionID p; SubstreamID := SubstreamID p;
     SequenceID := SequenceID p; getFragmentID := getFragmentID p;
     getConnectionSignature := getConnectionSignature p;
     getSignature := getSignature p; Payload := Payload p; v1_maximumSubstreamID := v;
     v1_minorVersion := v1_minorVersion p;
     v1_supportedFunctions := v1_supportedFunctions p; RMCMessage := RMCMessage p |}.
Definition set_minorVersion (v : Z) (p : PRUDPPacket) : PRUDPPacket :=
  {| Version := Version p; SourceStreamType := SourceStreamType p;
     SourcePort := SourcePort p; DestinationStreamType := DestinationStreamType p;
     DestinationPort := DestinationPort p; Type_ := Type_ p; Flags := Flags p;
     SessionID := SessionID p; SubstreamID := SubstreamID p;
     SequenceID := SequenceID p; getFragmentID := getFragmentID p;
     getConnectionSignature := getConnectionSignature p;
     getSignature := getSignature p; Payload := Payload p;
     v1_maximumSubstreamID := v1_maximumSubstreamID p; v1_minorVersion := v;
     v1_supportedFunctions := v1_supportedFunctions p; RMCMessage := RMCMessage p |}.
Definition set_supportedFunctions (v : Z) (p : PRUDPPacket) : PRUDPPacket :=
  {| Version := Version p; SourceStreamType := SourceStreamType p;
     SourcePort := SourcePort p; DestinationStreamType := DestinationStreamType p;
     DestinationPort := DestinationPort p; Type_ := Type_ p; Flags := Flags p;
     SessionID := SessionID p; SubstreamID := SubstreamID p;
     SequenceID := SequenceID p; getFragmentID := getFragmentID p;
     getConnectionSignature := getConnectionSignature p;
     getSignature := getSignature p; Payload := Payload p;
     v1_maximumSubstreamID := v1_maximumSubstreamID p;
     v1_minorVersion := v1_minorVersion p; v1_supportedFunctions := v;
     RMCMessage := RMCMessage p |}.
Definition SetRMCMessage (v : option bytes) (p : PRUDPPacket) : PRUDPPacket :=
  {| Version := Version p; SourceStreamType := SourceStreamType p;
     SourcePort := SourcePort p; DestinationStreamType := DestinationStreamType p;
     DestinationPort := DestinationPort p; Type_ := Type_ p; Flags := Flags p;
     SessionID := SessionID p; SubstreamID := SubstreamID p;
     SequenceID := SequenceID p; getFragmentID := getFragmentID p;
     getConnectionSignature := getConnectionSignature p;
     getSignature := getSignature p; Payload := Payload p;
     v1_maximumSubstreamID := v1_maximumSubstreamID p;
     v1_minorVersion := v1_minorVersion p;
     v1_supportedFunctions := v1_supportedFunctions p; RMCMessage := v |}.

Definition HasFlag (flag : Z) (p : PRUDPPacket) : bool :=
  negb (Z.land (Flags p) flag =? 0).
Definition AddFlag (flag : Z) (p : PRUDPPacket) : PRUDPPacket :=
  setFlags (Z.lor (Flags p) flag) p.

(** [NewPRUDPPacketV0(client, nil)] and [NewPRUDPPacketV1(client, nil)]:
    a packet with every field at its zero value. *)
Definition blankPacket (version : Z) : PRUDPPacket :=
  mkPacket version 0 0 0 0 0 0 0 0 0 0 [] [] [] 0 0 0 None.
Definition NewPRUDPPacketV0 : PRUDPPacket := blankPacket 0.
Definition NewPRUDPPacketV1 : PRUDPPacket := blankPacket 1.

(** [message := NewRMCMessage(); message.FromBytes(payload)] *)
Definition NewRMCMessage_FromBytes (payload : bytes) : bytes := payload.

Record KerberosTicketInternalData := mkTicket {
  Issued : Z;
  SourcePID : Z;
  SessionKey : bytes
}.
Definition NewKerberosTicketInternalData : KerberosTicketInternalData :=
  mkTicket 0 0 [].

(** What the server does to the outside world, in program order:
    [SendRaw]: [sendRaw] writes a datagram to the socket; [Emit]: [emit] is
    called with a name and a packet (the handlers registered under the name,
    if any, are each started with [go]; the event records the packet as it
    is at the call); [Println]: [fmt.Println] logs. *)
Inductive Event :=
| SendRaw (conn : string) (data : bytes)
| Emit (name : string) (packet : PRUDPPacket)
| Println (msg : error).

(** [time.Minute * 2], in nanoseconds as Go's [time.Duration] *)
Definition two_minutes : Z := 2 * 60 * 1000000000.

Section Model.

(** [SubT]: the part of a reliable substream that its own source file
    manages (reassembly buffer, fragment accumulator, sequence counter,
    RC4 states).  [HB]: the heartbeat timers of a peer. *)
Context {SubT HB : Type}.

(** Modelled from the spec: a reliable substream (section 3) holds a
    send-side retransmission scheduler mapping sequence id to pending
    packet ([ResendScheduler.packets], a [MutexMap[uint16, *PendingPacket]])
    next to the state [SubT]. *)
Record ReliablePacketSubstreamManager := mkSubstream {
  ResendScheduler : gmap Z PRUDPPacket;
  engine : SubT
}.

(** Modelled from the spec: the peer (section 3, "Peer"), with the Go field
    names [prudp_server.go] uses. *)
Record PRUDPClient := mkClient {
  address : string;
  pid : Z;
  sessionKey : bytes;
  clientConnectionSignature : bytes;
  serverConnectionSignature : bytes;
  sourceStreamType : Z;
  sourcePort : Z;
  destinationStreamType : Z;
  destinationPort : Z;
  minorVersion : Z;
  supportedFunctions : Z;
  reliableSubstreams : list ReliablePacketSubstreamManager;
  outgoingUnreliableSequenceIDCounter : Z;
  outgoingPingSequenceIDCounter : Z;
  heartbeat : HB
}.

Definition with_pid (v : Z) (c : PRUDPClient) : PRUDPClient :=
  {| address := address c; pid := v; sessionKey := sessionKey c;
     clientConnectionSignature := clientConnectionSignature c;
     serverConnectionSignature := serverConnectionSignature c;
     sourceStreamType := sourceStreamType c; sourcePort := sourcePort c;
     destinationStreamType := destinationStreamType c;
     destinationPort := destinationPort c; minorVersion := minorVersion c;
     supportedFunctions := supportedFunctions c;
     reliableSubstreams := reliableSubstreams c;
     outgoingUnreliableSequenceIDCounter := outgoingUnreliableSequenceIDCounter c;
     outgoingPingSequenceIDCounter := outgoingPingSequenceIDCounter c;
     heartbeat := heartbeat c |}.
Definition with_sessionKey (v : bytes) (c : PRUDPClient) : PRUDPClient :=
  {| address := address c; pid := pid c; sessionKey := v;
     clientConnectionSignature := clientConnectionSignature c;
     serverConnectionSignature := serverConnectionSignature c;
     sourceStreamType := sourceStreamType c; sourcePort := sourcePort c;
     destinationStreamType := destinationStreamType c;
     destinationPort := destinationPort c; minorVersion := minorVersion c;
     supportedFunctions := supportedFunctions c;
     reliableSubstreams := reliableSubstreams c;
     outgoingUnreliableSequenceIDCounter := outgoingUnreliableSequenceIDCounter c;
     outgoingPingSequenceIDCounter := outgoingPingSequenceIDCounter c;
     heartbeat := heartbeat c |}.
Definition with_clientConnectionSignature (v : bytes) (c : PRUDPClient) : PRUDPClient :=
  {| address := address c; pid := pid c; sessionKey := sessionKey c;
     clientConnectionSignature := v;
     serverConnectionSignature := serverConnectionSignature c;
     sourceStreamType := sourceStreamType c; sourcePort := sourcePort c;
     destinationStreamType := destinationStreamType c;
     destinationPort := destinationPort c; minorVersion := minorVersion c;
     supportedFunctions := supportedFunctions c;
     reliableSubstreams := reliableSubstreams c;
     outgoingUnreliableSequenceIDCounter := outgoingUnreliableSequenceIDCounter c;
     outgoingPingSequenceIDCounter := outgoingPingSequenceIDCounter c;
     heartbeat := heartbeat c |}.
Definition with_serverConnectionSignature (v : bytes) (c : PRUDPClient) : PRUDPClient :=
  {| address := address c; pid := pid c; sessionKey := sessionKey c;
     clientConnectionSignature := clientConnectionSignature c;
     serverConnectionSignature := v; sourceStreamType := sourceStreamType c;
     sourcePort := sourcePort c; destinationStreamType := destinationStreamType c;
     destinationPort := destinationPort c; minorVersion := minorVersion c;
     supportedFunctions := supportedFunctions c;
     reliableSubstreams := reliableSubstreams c;
     outgoingUnreliableSequenceIDCounter := outgoingUnreliableSequenceIDCounter c;
     outgoingPingSequenceIDCounter := outgoingPingSequenceIDCounter c;
     heartbeat := heartbeat c |}.
Definition with_sourceStreamType (v : Z) (c : PRUDPClient) : PRUDPClient :=
  {| address := address c; pid := pid c; sessionKey := sessionKey c;
     clientConnectionSignature := clientConnectionSignature c;
     serverConnectionSignature := serverConnectionSignature c; sourceStreamType := v;
     sourcePort := sourcePort c; destinationStreamType := destinationStreamType c;
     destinationPort := destinationPort c; minorVersion := minorVersion c;
     supportedFunctions := supportedFunctions c;
     reliableSubstreams := reliableSubstreams c;
     outgoingUnreliableSequenceIDCounter := outgoingUnreliableSequenceIDCounter c;
     outgoingPingSequenceIDCounter := outgoingPingSequenceIDCounter c;
     heartbeat := heartbeat c |}.
Definition with_sourcePort (v : Z) (c : PRUDPClient) : PRUDPClient :=
  {| address := address c; pid := pid c; sessionKey := sessionKey c;
     clientConnectionSignature := clientConnectionSignature c;
     serverConnectionSignature := serverConnectionSignature c;
     sourceStreamType := sourceStreamType c; sourcePort := v;
     destinationStreamType := destinationStreamType c;
     destinationPort := destinationPort c; minorVersion := minorVersion c;
     supportedFunctions := supportedFunctions c;
     reliableSubstreams := reliableSubstreams c;
     outgoingUnreliableSequenceIDCounter := outgoingUnreliableSequenceIDCounter c;
     outgoingPingSequenceIDCounter := outgoingPingSequenceIDCounter c;
     heartbeat := heartbeat c |}.
Definition with_destinationStreamType (v : Z) (c : PRUDPClient) : PRUDPClient :=
  {| address := address c; pid := pid c; sessionKey := sessionKey c;
     clientConnectionSignature := clientConnectionSignature c;
     serverConnectionSignature := serverConnectionSignature c;
     sourceStreamType := sourceStreamType c; sourcePort := sourcePort c;
     destinationStreamType := v; destinationPort := destinationPort c;
     minorVersion := minorVersion c; supportedFunctions := supportedFunctions c;
     reliableSubstreams := reliableSubstreams c;
     outgoingUnreliableSequenceIDCounter := outgoingUnreliableSequenceIDCounter c;
     outgoingPingSequenceIDCounter := outgoingPingSequenceIDCounter c;
     heartbeat := heartbeat c |}.
Definition with_destinationPort (v : Z) (c : PRUDPClient) : PRUDPClient :=
  {| address := address c; pid := pid c; sessionKey := sessionKey c;
     clientConnectionSignature := clientConnectionSignature c;
     serverConnectionSignature := serverConnectionSignature c;
     sourceStreamType := sourceStreamType c; sourcePort := sourcePort c;
     destinationStreamType := destinationStreamType c; destinationPort := v;
     minorVersion := minorVersion c; supportedFunctions := supportedFunctions c;
     reliableSubstreams := reliableSubstreams c;
     outgoingUnreliableSequenceIDCounter := outgoingUnreliableSequenceIDCounter c;
     outgoingPingSequenceIDCounter := outgoingPingSequenceIDCounter c;
     heartbeat := heartbeat c |}.
Definition with_minorVersion (v : Z) (c : PRUDPClient) : PRUDPClient :=
  {| address := address c; pid := pid c; sessionKey := sessionKey c;
     clientConnectionSignature := clientConnectionSignature c;
     serverConnectionSignature := serverConnectionSignature c;
     sourceStreamType := sourceStreamType c; sourcePort := sourcePort c;
     destinationStreamType := destinationStreamType c;
     destinationPort := destinationPort c; minorVersion := v;
     supportedFunctions := supportedFunctions c;
     reliableSubstreams := reliableSubstreams c;
     outgoingUnreliableSequenceIDCounter := outgoingUnreliableSequenceIDCounter c;
     outgoingPingSequenceIDCounter := outgoingPingSequenceIDCounter c;
     heartbeat := heartbeat c |}.
Definition with_supportedFunctions (v : Z) (c : PRUDPClient) : PRUDPClient :=
  {| address := address c; pid := pid c; sessionKey := sessionKey c;
     clientConnectionSignature := clientConnectionSignature c;
     serverConnectionSignature := serverConnectionSignature c;
     sourceStreamType := sourceStreamType c; sourcePort := sourcePort c;
     destinationStreamType := destinationStreamType c;
     destinationPort := destinationPort c; minorVersion := minorVersion c;
     supportedFunctions := v; reliableSubstreams := reliableSubstreams c;
     outgoingUnreliableSequenceIDCounter := outgoingUnreliableSequenceIDCounter c;
     outgoingPingSequenceIDCounter := outgoingPingSequenceIDCounter c;
     heartbeat := heartbeat c |}.
Definition with_reliableSubstreams (v : list ReliablePacketSubstreamManager) (c : PRUDPClient) : PRUDPClient :=
  {| address := address c; pid := pid c; sessionKey := sessionKey c;
     clientConnectionSignature := clientConnectionSignature c;
     serverConnectionSignature := serverConnectionSignature c;
     sourceStreamType := sourceStreamType c; sourcePort := sourcePort c;
     destinationStreamType := destinationStreamType c;
     destinationPort := destinationPort c; minorVersion := minorVersion c;
     supportedFunctions := supportedFunctions c; reliableSubstreams := v;
     outgoingUnreliableSequenceIDCounter := outgoingUnreliableSequenceIDCounter c;
     outgoingPingSequenceIDCounter := outgoingPingSequenceIDCounter c;
     heartbeat := heartbeat c |}.
Definition with_outgoingUnreliableSequenceIDCounter (v : Z) (c : PRUDPClient) : PRUDPClient :=
  {| address := address c; pid := pid c; sessionKey := sessionKey c;
     clientConnectionSignature := clientConnectionSignature c;
     serverConnectionSignature := serverConnectionSignature c;
     sourceStreamType := sourceStreamType c; sourcePort := sourcePort c;
     destinationStreamType := destinationStreamType c;
     destinationPort := destinationPort c; minorVersion := minorVersion c;
     supportedFunctions := supportedFunctions c;
     reliableSubstreams := reliableSubstreams c;
     outgoingUnreliableSequenceIDCounter := v;
     outgoingPingSequenceIDCounter := outgoingPingSequenceIDCounter c;
     heartbeat := heartbeat c |}.
Definition with_outgoingPingSequenceIDCounter (v : Z) (c : PRUDPClient) : PRUDPClient :=
  {| address := address c; pid := pid c; sessionKey := sessionKey c;
     clientConnectionSignature := clientConnectionSignature c;
     serverConnectionSignature := serverConnectionSignature c;
     sourceStreamType := sourceStreamType c; sourcePort := sourcePort c;
     destinationStreamType := destinationStreamType c;
     destinationPort := destinationPort c; minorVersion := minorVersion c;
     supportedFunctions := supportedFunctions c;
     reliableSubstreams := reliableSubstreams c;
     outgoingUnreliableSequenceIDCounter := outgoingUnreliableSequenceIDCounter c;
     outgoingPingSequenceIDCounter := v; heartbeat := heartbeat c |}.
Definition with_heartbeat (v : HB) (c : PRUDPClient) : PRUDPClient :=
  {| address := address c; pid := pid c; sessionKey := sessionKey c;
     clientConnectionSignature := clientConnectionSignature c;
     serverConnectionSignature := serverConnectionSignature c;
     sourceStreamType := sourceStreamType c; sourcePort := sourcePort c;
     destinationStreamType := destinationStreamType c;
     destinationPort := destinationPort c; minorVersion := minorVersion c;
     supportedFunctions := supportedFunctions c;
     reliableSubstreams := reliableSubstreams c;
     outgoingUnreliableSequenceIDCounter := outgoingUnreliableSequenceIDCounter c;
     outgoingPingSequenceIDCounter := outgoingPingSequenceIDCounter c;
     heartbeat := v |}.

(** The parts of the repository that [prudp_server.go] calls and that are
    declared in other files: the packet codec, the substream engine, the
    heartbeat timers and the Kerberos primitives.  The server is verified
    for every implementation of them. *)
Class Collaborators := {
  (* packet codec *)
  Bytes : PRUDPPacket -> bytes;
  calculateSignature : PRUDPPacket -> bytes -> bytes -> bytes;
  calculateConnectionSignature : PRUDPPacket -> string -> bytes;
  (* substream engine *)
  NewReliablePacketSubstreamManager : SubT;
  Update : PRUDPPacket -> SubT -> list PRUDPPacket * SubT;
  AddFragment : bytes -> SubT -> bytes * SubT;
  ResetFragmentedPayload : SubT -> SubT;
  NextOutgoingSequenceID : SubT -> Z * SubT;
  Encrypt : bytes -> SubT -> bytes * SubT;
  decryptPayload : PRUDPPacket -> SubT -> bytes * SubT;
  (* heartbeat timers *)
  resetTimers : HB -> HB;
  stopTimers : HB -> HB;
  (* Kerberos *)
  DeriveKerberosKey : Z -> bytes -> bytes;
  TicketDecrypt : bytes -> bytes -> KerberosTicketInternalData * option error;
  KerberosDecrypt : bytes -> bytes -> bytes * option error;
  (* [DateTime.Standard()]: the packed date as nanoseconds since the epoch *)
  Standard : Z -> Z
}.

Context `{!Collaborators}.

(** The server as one packet handler sees it: the configuration, the peer
    registry [clients] (address string to peer object, the object named by
    an identifier), the peer object that sent the packet being processed
    (every handler starts with [packet.Sender().( *PRUDPClient)]), and the
    events produced so far. *)
Record State := mkState {
  IsSecureServer : bool;
  kerberosPassword : bytes;
  FragmentSize : Z;
  clients : gmap string nat;
  client : PRUDPClient;
  out : list Event
}.

Definition with_client (c : PRUDPClient) (st : State) : State :=
  {| IsSecureServer := IsSecureServer st; kerberosPassword := kerberosPassword st;
     FragmentSize := FragmentSize st; clients := clients st; client := c;
     out := out st |}.
Definition with_clients (m : gmap string nat) (st : State) : State :=
  {| IsSecureServer := IsSecureServer st; kerberosPassword := kerberosPassword st;
     FragmentSize := FragmentSize st; clients := m; client := client st;
     out := out st |}.
Definition with_out (o : list Event) (st : State) : State :=
  {| IsSecureServer := IsSecureServer st; kerberosPassword := kerberosPassword st;
     FragmentSize := FragmentSize st; clients := clients st; client := client st;
     out := o |}.

(** A handler either returns, or panics (a Go run-time panic: index out of
    range, division by zero), or is still running when the fuel given to
    its one unbounded loop is used up.  The state reached is kept in the
    first two cases: what was sent stays sent. *)
Inductive Outcome (A : Type) :=
| Done (a : A) (st : State)
| Panic (st : State)
| OutOfFuel.
Arguments Done {A} a st.
Arguments Panic {A} st.
Arguments OutOfFuel {A}.

Definition M (A : Type) : Type := State -> Outcome A.

Definition ret {A} (a : A) : M A := fun st => Done a st.
Definition bind {A B} (m : M A) (k : A -> M B) : M B :=
  fun st =>
    match m st with
    | Done a st' => k a st'
    | Panic st' => Panic st'
    | OutOfFuel => OutOfFuel
    end.
Definition panic {A} : M A := fun st => Panic st.
Definition getClient : M PRUDPClient := fun st => Done (client st) st.
Definition modifyClient (f : PRUDPClient -> PRUDPClient) : M unit :=
  fun st => Done tt (with_client (f (client st)) st).
Definition getServer {A} (f : State -> A) : M A := fun st => Done (f st) st.
Definition event (e : Event) : M unit :=
  fun st => Done tt (with_out (out st ++ [e]) st).

Notation "'let*' x ':=' m 'in' k" := (bind m (fun x => k))
  (at level 10, x pattern, m at level 100, k at level 200).
Notation "m ';;' k" := (bind m (fun _ => k))
  (at level 100, k at level 200, right associativity).

Definition when (b : bool) (m : M unit) : M unit := if b then m else ret tt.

(** *** The peer's own methods *)

(** Modelled from the spec: [resetHeartbeat] ("any inbound packet resets
    the timer", section 4.3); the timers themselves are [HB]. *)
Definition resetHeartbeat : M unit :=
  modifyClient (fun c => with_heartbeat (resetTimers (heartbeat c)) c).

(** Modelled from the spec: [reset] ("reset on SYN (signatures cleared,
    substreams re-created on CONNECT)", section 3). *)
Definition reset (c : PRUDPClient) : PRUDPClient :=
  with_reliableSubstreams []
    (with_serverConnectionSignature [] (with_clientConnectionSignature [] c)).

(** Modelled from the spec: [cleanup] ("cleanup (stop timers, clear
    substreams)", section 4.3). *)
Definition cleanup (c : PRUDPClient) : PRUDPClient :=
  with_reliableSubstreams [] (with_heartbeat (stopTimers (heartbeat c)) c).

(** Modelled from the spec: [createReliableSubstreams] ("create substreams
    0..maxSubstreamID", section 4.3). *)
Definition createReliableSubstreams (maxSubstreamID : Z) (c : PRUDPClient)
  : PRUDPClient :=
  with_reliableSubstreams
    (replicate (Z.to_nat (maxSubstreamID + 1))
       (mkSubstream ∅ NewReliablePacketSubstreamManager)) c.

(** Modelled from the spec: [SetPID] and [setSessionKey] ("set peer's
    session key, set PID", section 4.3). *)
Definition SetPID (v : Z) (c : PRUDPClient) : PRUDPClient := with_pid v c.
Definition setSessionKey (k : bytes) (c : PRUDPClient) : PRUDPClient :=
  with_sessionKey k c.

(** Modelled from the spec: the two per-peer counters ("an outgoing
    unreliable-data sequence counter; an outgoing ping sequence counter",
    section 3), uint16 and advanced on every use. *)
Definition nextOutgoingUnreliableSequenceID : M Z :=
  let* c := getClient in
  let v := wrap 16 (outgoingUnreliableSequenceIDCounter c + 1) in
  modifyClient (with_outgoingUnreliableSequenceIDCounter v) ;;
  ret v.
Definition nextOutgoingPingSequenceID : M Z :=
  let* c := getClient in
  let v := wrap 16 (outgoingPingSequenceIDCounter c + 1) in
  modifyClient (with_outgoingPingSequenceIDCounter v) ;;
  ret v.

(** Modelled from the spec: [reliableSubstream(id)] ("an ordered table of
    reliable substreams indexed 0..N", section 3).  The result is a pointer
    into the table: here the index, next to the substream found there.  An
    index outside the table is a run-time panic. *)
Definition reliableSubstream (substreamID : Z)
  : M (nat * ReliablePacketSubstreamManager) :=
  let* c := getClient in
  match reliableSubstreams c !! Z.to_nat substreamID with
  | Some sub => ret (Z.to_nat substreamID, sub)
  | None => panic
  end.

(** Reading and writing through such a pointer. *)
Definition load (i : nat) : M ReliablePacketSubstreamManager :=
  let* c := getClient in
  match reliableSubstreams c !! i with
  | Some sub => ret sub
  | None => panic
  end.
Definition store (i : nat) (sub : ReliablePacketSubstreamManager) : M unit :=
  modifyClient (fun c => with_reliableSubstreams (<[i := sub]> (reliableSubstreams c)) c).

(** A method of the substream engine run on the substream at [i]. *)
Definition onEngine {A} (i : nat) (f : SubT -> A * SubT) : M A :=
  let* sub := load i in
  let '(a, e) := f (engine sub) in
  store i (mkSubstream (ResendScheduler sub) e) ;;
  ret a.

(** Modelled from the spec: the retransmission scheduler (section 4.2):
    "inserted by the send path", "entries are removed by
    [AcknowledgePacket(id)]".  Timers are outside the model.  In Go the
    scheduler keeps a pointer to the packet; here it keeps the packet as it
    is when added, and the statements below read the keys only. *)
Definition AcknowledgePacket (i : nat) (sequenceID : Z) : M unit :=
  let* sub := load i in
  store i (mkSubstream (delete sequenceID (ResendScheduler sub)) (engine sub)).
Definition AddPacket (i : nat) (packet : PRUDPPacket) : M unit :=
  let* sub := load i in
  store i (mkSubstream (<[SequenceID packet := packet]> (ResendScheduler sub))
                       (engine sub)).

(** *** The handlers of prudp_server.go *)

Definition emit (name : string) (packet : PRUDPPacket) : M unit :=
  event (Emit name packet).

Definition sendRaw (conn : string) (data : bytes) : M unit :=
  event (SendRaw conn data).

(** [sendPacket] changes the packet it is given (sequence id, payload,
    signature); the changed packet is returned. *)
Definition sendPacket (packet : PRUDPPacket) : M PRUDPPacket :=
  let* packet :=
    if negb (HasFlag FlagAck packet) && negb (HasFlag FlagMultiAck packet) then
      if HasFlag FlagReliable packet then
        let* (i, _) := reliableSubstream (SubstreamID packet) in
        let* seq := onEngine i NextOutgoingSequenceID in
        ret (SetSequenceID seq packet)
      else if Type_ packet =? DataPacket then
        let* seq := nextOutgoingUnreliableSequenceID in
        ret (SetSequenceID seq packet)
      else if Type_ packet =? PingPacket then
        let* seq := nextOutgoingPingSequenceID in
        ret (SetSequenceID seq packet)
      else ret (SetSequenceID 0 packet)
    else ret packet in
  let* packet :=
    if (Type_ packet =? DataPacket) && negb (HasFlag FlagAck packet)
       && negb (HasFlag FlagMultiAck packet) then
      if HasFlag FlagReliable packet then
        let* (i, _) := reliableSubstream (SubstreamID packet) in
        let* encrypted := onEngine i (Encrypt (Payload packet)) in
        ret (SetPayload encrypted packet)
      else ret packet
    else ret packet in
  let* c := getClient in
  let packet :=
    setSignature
      (calculateSignature packet (sessionKey c) (serverConnectionSignature c))
      packet in
  (if HasFlag FlagReliable packet && HasFlag FlagNeedsAck packet then
     let* (i, _) := reliableSubstream (SubstreamID packet) in
     AddPacket i packet
   else ret tt) ;;
  sendRaw (address c) (Bytes packet) ;;
  ret packet.

Definition acknowledgePacket (packet : PRUDPPacket) : M unit :=
  let ack := if Version packet =? 0 then NewPRUDPPacketV0 else NewPRUDPPacketV1 in
  let ack := SetType (Type_ packet) ack in
  let ack := AddFlag FlagAck ack in
  let ack := SetSourceStreamType (DestinationStreamType packet) ack in
  let ack := SetSourcePort (DestinationPort packet) ack in
  let ack := SetDestinationStreamType (SourceStreamType packet) ack in
  let ack := SetDestinationPort (SourcePort packet) ack in
  let ack := SetSequenceID (SequenceID packet) ack in
  let ack := setFragmentID (getFragmentID packet) ack in
  let ack := SetSubstreamID (SubstreamID packet) ack in
  let* ack := sendPacket ack in
  (* Servers send the DISCONNECT ACK 3 times *)
  if Type_ packet =? DisconnectPacket then
    let* ack := sendPacket ack in
    let* ack := sendPacket ack in
    ret tt
  else ret tt.

(** [for stream.Remaining() > 0 { id, _ := stream.ReadUInt16LE(); ... }]:
    the one loop of the file without a bound of its own. *)
Fixpoint readOldFormat (fuel : nat) (stream : StreamIn) (sequenceIDs : list Z)
  : option (list Z) :=
  match fuel with
  | O => None
  | S fuel' =>
      if (0 <? Remaining stream)%nat then
        let '((additionalID, _), stream) := ReadUInt16LE stream in
        readOldFormat fuel' stream (sequenceIDs ++ [additionalID])
      else Some sequenceIDs
  end.

(** [for i := 0; i < int(additionalIDsCount); i++ { ... }] *)
Fixpoint readNewFormat (count : nat) (stream : StreamIn) (sequenceIDs : list Z)
  : list Z :=
  match count with
  | O => sequenceIDs
  | S count' =>
      let '((additionalID, _), stream) := ReadUInt16LE stream in
      readNewFormat count' stream (sequenceIDs ++ [additionalID])
  end.

(** The callback given to [packets.Each]; Go visits the entries of a map
    in an unspecified order, here the order of [map_to_list] (the scheduler
    that results does not depend on the order). *)
Definition collectInFlight (baseSequenceID : Z) (sequenceIDs : list Z)
    (entry : Z * PRUDPPacket) : list Z :=
  let sequenceID := entry.1 in
  if (sequenceID <=? baseSequenceID) && negb (bool_decide (sequenceID ∈ sequenceIDs))
  then sequenceIDs ++ [sequenceID]
  else sequenceIDs.

Fixpoint acknowledgeAll (i : nat) (sequenceIDs : list Z) : M unit :=
  match sequenceIDs with
  | [] => ret tt
  | sequenceID :: rest => AcknowledgePacket i sequenceID ;; acknowledgeAll i rest
  end.

Definition handleMultiAcknowledgment (fuel : nat) (packet : PRUDPPacket) : M unit :=
  let stream := NewStreamIn (Payload packet) in
  let* (i, sequenceIDs, baseSequenceID) :=
    if SubstreamID packet =? 1 then
      let '((substreamID, _), stream) := ReadUInt8 stream in
      let '((additionalIDsCount, _), stream) := ReadUInt8 stream in
      let '((baseSequenceID, _), stream) := ReadUInt16LE stream in
      let* (i, _) := reliableSubstream substreamID in
      ret (i, readNewFormat (Z.to_nat additionalIDsCount) stream [], baseSequenceID)
    else
      let* (i, _) := reliableSubstream 0 in
      let baseSequenceID := SequenceID packet in
      match readOldFormat fuel stream [] with
      | Some sequenceIDs => ret (i, sequenceIDs, baseSequenceID)
      | None => fun _ => OutOfFuel
      end in
  let* substream := load i in
  let sequenceIDs :=
    foldl (collectInFlight baseSequenceID) sequenceIDs
          (map_to_list (ResendScheduler substream)) in
  acknowledgeAll i sequenceIDs.

Definition handleAcknowledgment (fuel : nat) (packet : PRUDPPacket) : M unit :=
  if HasFlag FlagMultiAck packet then handleMultiAcknowledgment fuel packet
  else
    let* (i, _) := reliableSubstream (SubstreamID packet) in
    AcknowledgePacket i (SequenceID packet).

Definition handleSyn (packet : PRUDPPacket) : M unit :=
  let ack := if Version packet =? 0 then NewPRUDPPacketV0 else NewPRUDPPacketV1 in
  let* c := getClient in
  let connectionSignature := calculateConnectionSignature packet (address c) in
  modifyClient reset ;;
  modifyClient (with_clientConnectionSignature connectionSignature) ;;
  modifyClient (with_sourceStreamType (SourceStreamType packet)) ;;
  modifyClient (with_sourcePort (SourcePort packet)) ;;
  modifyClient (with_destinationStreamType (DestinationStreamType packet)) ;;
  modifyClient (with_destinationPort (DestinationPort packet)) ;;
  let ack := SetType SynPacket ack in
  let ack := AddFlag FlagAck ack in
  let ack := AddFlag FlagHasSize ack in
  let ack := SetSourceStreamType (DestinationStreamType packet) ack in
  let ack := SetSourcePort (DestinationPort packet) ack in
  let ack := SetDestinationStreamType (SourceStreamType packet) ack in
  let ack := SetDestinationPort (SourcePort packet) ack in
  let ack := setConnectionSignature connectionSignature ack in
  let ack := setSignature (calculateSignature ack [] []) ack in
  emit "syn" ack ;;
  let* c := getClient in
  sendRaw (address c) (Bytes ack).

(** [serverTime], the result of [time.Now().UTC()] in nanoseconds since
    the epoch, is an input. *)
Definition readKerberosTicket (serverTime : Z) (password : bytes) (payload : bytes)
  : bytes * Z * Z * option error :=
  let stream := NewStreamIn payload in
  let '((ticketData, err), stream) := ReadBuffer stream in
  match err with
  | Some e => ([], 0, 0, Some e)
  | None =>
  let '((requestData, err), stream) := ReadBuffer stream in
  match err with
  | Some e => ([], 0, 0, Some e)
  | None =>
  let serverKey := DeriveKerberosKey 2 password in
  let '(ticket, err) := TicketDecrypt ticketData serverKey in
  match err with
  | Some e => ([], 0, 0, Some e)
  | None =>
  let ticketTime := Standard (Issued ticket) in
  let timeLimit := ticketTime + two_minutes in
  if timeLimit <? serverTime then ([], 0, 0, Some "Kerberos ticket expired")
  else
  let sessionKey := SessionKey ticket in
  let '(decryptedRequestData, err) := KerberosDecrypt sessionKey requestData in
  match err with
  | Some e => ([], 0, 0, Some e)
  | None =>
  let checkDataStream := NewStreamIn decryptedRequestData in
  let '((userPID, err), checkDataStream) := ReadUInt32LE checkDataStream in
  match err with
  | Some e => ([], 0, 0, Some e)
  | None =>
  let '((_, err), checkDataStream) := ReadUInt32LE checkDataStream in
  match err with
  | Some e => ([], 0, 0, Some e)
  | None =>
  let '((responseCheck, err), checkDataStream) := ReadUInt32LE checkDataStream in
  match err with
  | Some e => ([], 0, 0, Some e)
  | None => (sessionKey, userPID, responseCheck, None)
  end end end end end end end.

Definition handleConnect (serverTime : Z) (packet : PRUDPPacket) : M unit :=
  let ack := if Version packet =? 0 then NewPRUDPPacketV0 else NewPRUDPPacketV1 in
  modifyClient (with_serverConnectionSignature (getConnectionSignature packet)) ;;
  let* c := getClient in
  let connectionSignature := calculateConnectionSignature packet (address c) in
  let ack := SetType ConnectPacket ack in
  let ack := AddFlag FlagAck ack in
  let ack := AddFlag FlagHasSize ack in
  let ack := SetSourceStreamType (DestinationStreamType packet) ack in
  let ack := SetSourcePort (DestinationPort packet) ack in
  let ack := SetDestinationStreamType (SourceStreamType packet) ack in
  let ack := SetDestinationPort (SourcePort packet) ack in
  let ack :=
    setConnectionSignature (replicate (length connectionSignature) Byte.x00) ack in
  let ack := SetSessionID 0 ack in
  let ack := SetSequenceID 1 ack in
  let* ack :=
    if Version ack =? 0 then
      modifyClient (createReliableSubstreams 0) ;;
      ret ack
    else
      (* Just tell the client we support exactly what it wants *)
      let ack := set_maximumSubstreamID (v1_maximumSubstreamID packet) ack in
      let ack := set_minorVersion (v1_minorVersion packet) ack in
      let ack := set_supportedFunctions (v1_supportedFunctions packet) ack in
      modifyClient (with_minorVersion (v1_minorVersion ack)) ;;
      modifyClient (with_supportedFunctions (v1_supportedFunctions ack)) ;;
      modifyClient (createReliableSubstreams (v1_maximumSubstreamID ack)) ;;
      ret ack in
  let* secure := getServer IsSecureServer in
  let* payload :=
    if secure then
      let* password := getServer kerberosPassword in
      let '(sessionKey, pid, checkValue, err) :=
        readKerberosTicket serverTime password (Payload packet) in
      match err with
      | Some e => event (Println e)
      | None => ret tt
      end ;;
      modifyClient (SetPID pid) ;;
      modifyClient (setSessionKey sessionKey) ;;
      let stream := StreamOut.NewStreamOut in
      (* The response value is a Buffer whose data contains checkValue+1 *)
      let stream := StreamOut.WriteUInt32LE 4 stream in
      let stream := StreamOut.WriteUInt32LE (wrap 32 (checkValue + 1)) stream in
      ret (StreamOut.Bytes stream)
    else ret [] in
  let ack := SetPayload payload ack in
  let ack := setSignature (calculateSignature ack [] (getConnectionSignature packet)) ack in
  emit "connect" ack ;;
  let* c := getClient in
  sendRaw (address c) (Bytes ack).

(** The body of [for _, pendingPacket := range substream.Update(packet)];
    [packet] is the packet received, changed by [SetRMCMessage]. *)
Fixpoint deliver (i : nat) (pending : list PRUDPPacket) (packet : PRUDPPacket)
  : M unit :=
  match pending with
  | [] => ret tt
  | pendingPacket :: rest =>
      let* packet :=
        if Type_ packet =? DataPacket then
          let* decrypted := onEngine i (decryptPayload pendingPacket) in
          let* payload := onEngine i (AddFragment decrypted) in
          if getFragmentID packet =? 0 then
            let message := NewRMCMessage_FromBytes payload in
            onEngine i (fun e => (tt, ResetFragmentedPayload e)) ;;
            let packet := SetRMCMessage (Some message) packet in
            emit "reliable-data" packet ;;
            ret packet
          else ret packet
        else ret packet in
      deliver i rest packet
  end.

Definition handleReliable (packet : PRUDPPacket) : M unit :=
  when (HasFlag FlagNeedsAck packet) (acknowledgePacket packet) ;;
  let* (i, _) := reliableSubstream (SubstreamID packet) in
  let* pending := onEngine i (Update packet) in
  deliver i pending packet.

Definition handleUnreliable (packet : PRUDPPacket) : M unit := ret tt.

Definition handleData (packet : PRUDPPacket) : M unit :=
  if HasFlag FlagReliable packet then handleReliable packet
  else handleUnreliable packet.

Definition handleDisconnect (packet : PRUDPPacket) : M unit :=
  when (HasFlag FlagNeedsAck packet) (acknowledgePacket packet) ;;
  modifyClient cleanup ;;
  let* c := getClient in
  (fun st => Done tt (with_clients (delete (address c) (clients st)) st)) ;;
  emit "disconnect" packet.

Definition handlePing (packet : PRUDPPacket) : M unit :=
  when (HasFlag FlagNeedsAck packet) (acknowledgePacket packet).

Definition processPacket (fuel : nat) (serverTime : Z) (packet : PRUDPPacket)
  : M unit :=
  resetHeartbeat ;;
  if HasFlag FlagAck packet || HasFlag FlagMultiAck packet then
    handleAcknowledgment fuel packet
  else if Type_ packet =? SynPacket then handleSyn packet
  else if Type_ packet =? ConnectPacket then handleConnect serverTime packet
  else if Type_ packet =? DataPacket then handleData packet
  else if Type_ packet =? DisconnectPacket then handleDisconnect packet
  else if Type_ packet =? PingPacket then handlePing packet
  else ret tt.

(** [Send]: the loop [for i := 0; i <= fragments; i++] runs
    [fragments + 1] times (not at all when that is not positive);
    [fragmentID] is a uint8. *)
Fixpoint sendFragments (count : nat) (F : Z) (data : bytes) (fragmentID : Z)
    (packet : PRUDPPacket) : M unit :=
  match count with
  | O => ret tt
  | S count' =>
      if Z.of_nat (length data) <? F then
        let packet := SetPayload data packet in
        let packet := setFragmentID 0 packet in
        let* packet := sendPacket packet in
        sendFragments count' F data fragmentID packet
      else if F <? 0 then panic (* data[:F] with a negative bound *)
      else
        let packet := SetPayload (take (Z.to_nat F) data) packet in
        let packet := setFragmentID fragmentID packet in
        let data := drop (Z.to_nat F) data in
        let fragmentID := wrap 8 (fragmentID + 1) in
        let* packet := sendPacket packet in
        sendFragments count' F data fragmentID packet
  end.

Definition Send (packet : PRUDPPacket) : M unit :=
  let data := Payload packet in
  let* F := getServer FragmentSize in
  if F =? 0 then panic (* integer divide by zero *)
  else
    let fragments := Z.quot (Z.of_nat (length data)) F in
    sendFragments (Z.to_nat (fragments + 1)) F data 1 packet.

(** [sendPing(client)], for the peer of the state; [PRUDPVersion] is the
    server's field of that name. *)
Definition sendPing (PRUDPVersion : Z) : M unit :=
  let ping := if PRUDPVersion =? 0 then NewPRUDPPacketV0 else NewPRUDPPacketV1 in
  let* c := getClient in
  let ping := SetType PingPacket ping in
  let ping := AddFlag FlagNeedsAck ping in
  let ping := SetSourceStreamType (destinationStreamType c) ping in
  let ping := SetSourcePort (destinationPort c) ping in
  let ping := SetDestinationStreamType (sourceStreamType c) ping in
  let ping := SetDestinationPort (sourcePort c) ping in
  let ping := SetSubstreamID 0 ping in
  let* _ := sendPacket ping in
  ret tt.

End Model.

Notation "'let*' x ':=' m 'in' k" := (bind m (fun x => k))
  (at level 10, x pattern, m at level 100, k at level 200).
Notation "m ';;' k" := (bind m (fun _ => k))
  (at level 100, k at level 200, right associativity).

Arguments Done {SubT HB A} a st.
Arguments Panic {SubT HB A} st.
Arguments OutOfFuel {SubT HB A}.
Arguments Collaborators : clear implicits.
Arguments PRUDPClient : clear implicits.
Arguments ReliablePacketSubstreamManager : clear implicits.

End PRUDP.

(** ** Vocabulary of the statements *)
Module Spec.
Import crunch StreamIn PRUDP.

(** What a fixed-width typed read does on one stream: with fewer than
    [width] bytes left, the zero value, an error and the stream as it was;
    otherwise the value decoded from the next [width] bytes and the offset
    moved by [width]. *)
Definition read_ok {A} (read : StreamIn -> (A * option error) * StreamIn)
    (width : nat) (zero : A) (decode : bytes -> A) (s : StreamIn) : Prop :=
  if (Remaining s <? width)%nat
  then exists e, read s = ((zero, Some e), s)
  else read s = ((decode (take width (drop (boff s) (buf s))), None),
                 mkBuffer (buf s) (boff s + width)).

(** The ACK that [acknowledgePacket] builds for a packet, before
    [sendPacket] signs it. *)
Definition ackOf (packet : PRUDPPacket) : PRUDPPacket :=
  SetSubstreamID (SubstreamID packet)
    (setFragmentID (getFragmentID packet)
      (SetSequenceID (SequenceID packet)
        (SetDestinationPort (SourcePort packet)
          (SetDestinationStreamType (SourceStreamType packet)
            (SetSourcePort (DestinationPort packet)
              (SetSourceStreamType (DestinationStreamType packet)
                (AddFlag FlagAck
                  (SetType (Type_ packet)
                    (if Version packet =? 0 then NewPRUDPPacketV0
                     else NewPRUDPPacketV1))))))))).

(** The four bytes of a uint32 in little-endian order. *)
Definition u32le (x : Z) : bytes :=
  [byte_of_Z x; byte_of_Z (Z.shiftr x 8); byte_of_Z (Z.shiftr x 16);
   byte_of_Z (Z.shiftr x 24)].

(** The decrypted request block of a CONNECT: user PID (u32), CID (u32),
    check value (u32). *)
Definition requestPID (d : bytes) : Z := le_value (take 4 d).
Definition requestCheckValue (d : bytes) : Z := le_value (take 4 (drop 8 d)).

(** The payload of a new-format multi-ACK:
    [{u8 realSubstreamID, u8 additionalCount, u16 baseSequenceID,
      u16 additionalIDs[additionalCount]}], as the handler reads it. *)
Definition newFormat (payload : bytes) : Z * Z * list Z :=
  let stream := NewStreamIn payload in
  let '((substreamID, _), stream) := ReadUInt8 stream in
  let '((additionalIDsCount, _), stream) := ReadUInt8 stream in
  let '((baseSequenceID, _), stream) := ReadUInt16LE stream in
  (substreamID, baseSequenceID,
   readNewFormat (Z.to_nat additionalIDsCount) stream []).

(** The payload of an old-format multi-ACK: raw u16 LE ids. *)
Fixpoint u16s (l : bytes) : list Z :=
  match l with
  | a :: b :: rest => le_value [a; b] :: u16s rest
  | _ => []
  end.

(** The ids a multi-ACK with base [base] and additional ids [ids]
    acknowledges, and the scheduler once they are removed. *)
Definition acknowledged (base : Z) (ids : list Z) (k : Z) : Prop :=
  k <= base \/ k ∈ ids.
Definition afterAck (base : Z) (ids : list Z) (m : gmap Z PRUDPPacket)
  : gmap Z PRUDPPacket :=
  filter (fun kv => ~ acknowledged base ids kv.1) m.

(** Fragment ids as the uint8 counter of [Send] produces them. *)
Fixpoint fragmentIDs (start : Z) (k : nat) : list Z :=
  match k with
  | O => []
  | S k' => start :: fragmentIDs (wrap 8 (start + 1)) k'
  end.

(** What [sendPacket] leaves alone in a packet. *)
Definition same_header (p p' : PRUDPPacket) : Prop :=
  getFragmentID p' = getFragmentID p /\ Flags p' = Flags p /\
  Type_ p' = Type_ p /\ SubstreamID p' = SubstreamID p.

Definition is_send (e : Event) : bool :=
  match e with SendRaw _ _ => true | _ => false end.

Definition is_reliable_data (e : Event) : Prop :=
  exists p, e = Emit "reliable-data" p.

Section Vocabulary.
Context {SubT HB : Type} `{!Collaborators SubT HB}.
Implicit Types (st : @State SubT HB).

(** A packet as [sendPacket] signs it for a peer. *)
Definition signed (p : PRUDPPacket) (c : PRUDPClient SubT HB) : PRUDPPacket :=
  setSignature (calculateSignature p (sessionKey c) (serverConnectionSignature c)) p.

(** The datagram carrying the ACK of [packet] to the peer of [st]. *)
Definition ackDatagram (packet : PRUDPPacket) st : Event :=
  SendRaw (address (client st)) (Bytes (signed (ackOf packet) (client st))).

(** The signature is computed over the header, the options and the payload
    (spec, section 4.1), not over the signature field itself. *)
Definition signature_ignores_signature : Prop :=
  forall p s key sig,
    calculateSignature (setSignature s p) key sig = calculateSignature p key sig.

Definition outcome_state {A} (o : @Outcome SubT HB A) : option State :=
  match o with Done _ st | Panic st => Some st | OutOfFuel => None end.

(** A computation that returns or panics, and whose only events are
    [reliable-data] emissions. *)
Definition only_emits {A} (m : @M SubT HB A) : Prop :=
  forall st,
    match m st with
    | Done _ st' | Panic st' =>
        exists evs, out st' = out st ++ evs /\ Forall is_reliable_data evs
    | OutOfFuel => False
    end.

(** What [handleReliable] does after the acknowledgment: the in-order
    delivery on the packet's substream. *)
Definition deliverInOrder (packet : PRUDPPacket) : @M SubT HB unit :=
  let* (i, _) := reliableSubstream (SubstreamID packet) in
  let* pending := onEngine i (Update packet) in
  deliver i pending packet.

(** The state after [resetHeartbeat] alone. *)
Definition heartbeatReset st : State :=
  with_client (with_heartbeat (resetTimers (heartbeat (client st))) (client st)) st.

(** The state with substream [i] replaced, and with only the scheduler of
    substream [i] replaced. *)
Definition setSubstream (i : nat) (sub : ReliablePacketSubstreamManager SubT) st
  : State :=
  with_client
    (with_reliableSubstreams (<[i := sub]> (reliableSubstreams (client st)))
       (client st)) st.
Definition withScheduler (i : nat) (m : gmap Z PRUDPPacket) st : State :=
  with_client
    (with_reliableSubstreams
       (alter (fun sub => mkSubstream m (engine sub)) i
              (reliableSubstreams (client st)))
       (client st)) st.

(** What [sendPacket] leaves alone in the server and the peer. *)
Definition same_peer st st' : Prop :=
  address (client st') = address (client st) /\
  length (reliableSubstreams (client st'))
    = length (reliableSubstreams (client st)) /\
  FragmentSize st' = FragmentSize st.

(** A reliable packet can be sent when its substream exists. *)
Definition can_send (p : PRUDPPacket) st : Prop :=
  HasFlag FlagReliable p = true ->
  is_Some (reliableSubstreams (client st) !! Z.to_nat (SubstreamID p)).

(** The datagrams that carry the packets [ps] to the peer of [st]. *)
Definition datagrams st (ps : list PRUDPPacket) : list Event :=
  map (fun p => SendRaw (address (client st)) (Bytes p)) ps.

End Vocabulary.

(** *** Vocabulary of the statements about the streams and the session *)

(** An output stream whose offset is at the end of its buffer, as after
    [NewByteStreamOut] and after every write. *)
Definition at_end (s : Buffer) : Prop := boff s = length (buf s).

(** The [n] low bytes of [x], least significant first. *)
Fixpoint le_bytes (n : nat) (x : Z) : bytes :=
  match n with
  | O => []
  | S n' => byte_of_Z x :: le_bytes n' (Z.shiftr x 8)
  end.

(** A write that appends [data] to the stream. *)
Definition appends (write : Buffer -> Buffer) (data : bytes) : Prop :=
  forall s, at_end s -> buf (write s) = buf s ++ data /\ at_end (write s).

(** Reading, at the place where it was written, what [write] wrote gives
    [v] and stops right behind it, whatever was written before and
    whatever follows. *)
Definition reads_back {A} (write : Buffer -> Buffer)
    (read : StreamIn -> (A * option error) * StreamIn) (v : A) : Prop :=
  forall s rest, at_end s ->
    let data := buf (write s) ++ rest in
    read (mkBuffer data (length (buf s)))
      = ((v, None), mkBuffer data (length (buf (write s)))).

(** What a read of a length-prefixed byte string does on one stream: with
    fewer than [width] bytes left, the error [lengthError] and the stream as
    it was; with a length field larger than what follows it, the error
    [tooLong] and the stream behind the length field; otherwise the bytes
    announced (passed through [post]) and the stream behind them. *)
Definition reads_prefixed (read : StreamIn -> (bytes * option error) * StreamIn)
    (width : nat) (lengthError tooLong : error) (post : bytes -> bytes)
    (s : StreamIn) : Prop :=
  if (Remaining s <? width)%nat
  then read s = (([], Some lengthError), s)
  else
    let n := Z.to_nat (le_value (take width (drop (boff s) (buf s)))) in
    let s1 := mkBuffer (buf s) (boff s + width) in
    if (Remaining s1 <? n)%nat
    then read s = (([], Some tooLong), s1)
    else read s = ((post (take n (drop (boff s1) (buf s))), None),
                   mkBuffer (buf s) (boff s1 + n)).

(** [count] consecutive pieces of [width] bytes. *)
Fixpoint chunks (width count : nat) (l : bytes) : list bytes :=
  match count with
  | O => []
  | S count' => take width l :: chunks width count' (drop width l)
  end.


(** A list read whose length check lets through a list that the data
    cannot hold: the check compares the bytes left with the uint32 product
    of the announced length [n] and [factor]; the read then fails at the
    first element that is not there, behind the whole elements. *)
Definition fails_at_element {A}
    (read : StreamIn -> (list A * option error) * StreamIn)
    (name : string) (factor : Z) (width : nat) (elementError : error)
    (s : StreamIn) : Prop :=
  (4 <= Remaining s)%nat ->
  let n := Z.to_nat (le_value (take 4 (drop (boff s) (buf s)))) in
  let s1 := mkBuffer (buf s) (boff s + 4) in
  let rem := Remaining s1 in
  wrap 32 (Z.of_nat n * factor) <= Z.of_nat rem -> (rem < n * width)%nat ->
  read s = (([], Some ("Failed to read List<" +:+ name +:+ "> value at index "
                       +:+ pretty (rem / width)%nat +:+ ". " +:+ elementError)),
            mkBuffer (buf s) (boff s1 + rem / width * width)).

(** [count] entries read one after the other, every key and every value
    without error: the entries in the order read, and the stream behind
    them. *)
Inductive reads_entries {K V}
    (keyReader : StreamIn -> (K * option error) * StreamIn)
    (valueReader : StreamIn -> (V * option error) * StreamIn)
  : nat -> StreamIn -> list (K * V) -> StreamIn -> Prop :=
| reads_entries_O s : reads_entries keyReader valueReader 0 s [] s
| reads_entries_S count s s1 s2 s3 key value entries :
    keyReader s = ((key, None), s1) ->
    valueReader s1 = ((value, None), s2) ->
    reads_entries keyReader valueReader count s2 entries s3 ->
    reads_entries keyReader valueReader (S count) s ((key, value) :: entries) s3.

(** The payload [data] as [Send] cuts it: [n] pieces of [F] bytes and what
    is left. *)
Fixpoint fragmentsOf (F n : nat) (data : bytes) : list bytes :=
  match n with
  | O => [data]
  | S n' => take F data :: fragmentsOf F n' (drop F data)
  end.

(** The map with one entry put in, as [m[key] = value] does. *)
Definition put {K V} `{Countable K} (m : gmap K V) (entry : K * V) : gmap K V :=
  <[entry.1 := entry.2]> m.

Section ServerVocabulary.
Context {SubT HB : Type} `{!Collaborators SubT HB}.

(** A computation that, when it returns or panics, has produced no event
    and has left the peer registry as it was. *)
Definition quiet {A} (m : @M SubT HB A) : Prop :=
  forall st,
    match m st with
    | Done _ st' | Panic st' => out st' = out st /\ clients st' = clients st
    | OutOfFuel => True
    end.

(** The sequence ids in flight on substream [i] of the peer. *)
Definition inFlight (i : nat) (st : @State SubT HB) (k : Z) : Prop :=
  exists sub,
    reliableSubstreams (client st) !! i = Some sub /\
    is_Some (ResendScheduler sub !! k).

End ServerVocabulary.

End Spec.

(** ** A small instance of the collaborators

    A codec, a substream engine and Kerberos primitives simple enough to
    run; the theorems below are proved for every instance and are applied
    to this one on concrete packets. *)
Module Toy.
Import PRUDP.

Fixpoint bytes_eqb (a b : bytes) : bool :=
  match a, b with
  | [], [] => true
  | x :: a', y :: b' => Byte.eqb x y && bytes_eqb a' b'
  | _, _ => false
  end.

(** The engine state: next outgoing sequence id and fragment accumulator. *)
Record Engine := mkEngine { nextSeq : Z; fragmented : bytes }.

(** A toy "MAC": the plaintext is sealed by prefixing the key. *)
Definition unseal (key data : bytes) : option bytes :=
  if bytes_eqb (take (length key) data) key
  then Some (drop (length key) data) else None.

Definition toyTicketDecrypt (data key : bytes)
  : KerberosTicketInternalData * option error :=
  match unseal key data with
  | Some plain => (mkTicket (le_value (take 8 plain)) 0 (drop 8 plain), None)
  | None => (NewKerberosTicketInternalData, Some "Invalid Kerberos checksum")
  end.

Definition toyKerberosDecrypt (key data : bytes) : bytes * option error :=
  match unseal key data with
  | Some plain => (plain, None)
  | None => ([], Some "Invalid Kerberos checksum")
  end.

Definition toyBytes (p : PRUDPPacket) : bytes :=
  [byte_of_Z (Version p); byte_of_Z (Type_ p); byte_of_Z (Flags p);
   byte_of_Z (SubstreamID p); byte_of_Z (SequenceID p);
   byte_of_Z (getFragmentID p)]
  ++ getSignature p ++ Payload p.

#[export] Instance toy : Collaborators Engine nat := {|
  Bytes := toyBytes;
  calculateSignature p key sig :=
    [byte_of_Z (SequenceID p + Z.of_nat (length key + length sig + length (Payload p)))];
  calculateConnectionSignature p addr := [Byte.x01; Byte.x02; Byte.x03; Byte.x04];
  NewReliablePacketSubstreamManager := mkEngine 1 [];
  Update p e := ([p], e);
  AddFragment b e := (fragmented e ++ b, mkEngine (nextSeq e) (fragmented e ++ b));
  ResetFragmentedPayload e := mkEngine (nextSeq e) [];
  NextOutgoingSequenceID e := (nextSeq e, mkEngine (wrap 16 (nextSeq e + 1)) (fragmented e));
  Encrypt b e := (b, e);
  decryptPayload p e := (Payload p, e);
  resetTimers n := S n;
  stopTimers n := O;
  DeriveKerberosKey pid password := password;
  TicketDecrypt := toyTicketDecrypt;
  KerberosDecrypt := toyKerberosDecrypt;
  Standard issued := issued * 1000000000
|}.

Definition peer0 : PRUDPClient Engine nat :=
  mkClient "10.0.0.2:5000" 0 [] [] [] 0 0 0 0 0 0
           [mkSubstream ∅ (mkEngine 1 [])] 0 0 O.

Definition server0 (secure : bool) (F : Z) (c : PRUDPClient Engine nat) : State :=
  mkState secure [Byte.x70; Byte.x77] F {["10.0.0.2:5000" := 1%nat]} c [].

(** A v1 packet of a given type with given flags, sequence id, fragment id
    and payload, on substream 0. *)
Definition packet0 (type flags sequenceID fragmentID : Z) (payload : bytes)
  : PRUDPPacket :=
  mkPacket 1 10 1 10 15 type flags 0 0 sequenceID fragmentID [] [] payload 0 0 0 None.

(** A peer with sequence ids 3 and 5 in flight on substream 0. *)
Definition peerInFlight : PRUDPClient Engine nat :=
  mkClient "10.0.0.2:5000" 0 [] [] [] 0 0 0 0 0 0
    [mkSubstream {[3 := packet0 DataPacket 6 3 0 []; 5 := packet0 DataPacket 6 5 0 []]}
                 (mkEngine 6 [])] 0 0 O.

(** The peer of scenario S5 of the spec: sequence ids 5, 7, 8, 9 and 10 in
    flight on substream 0. *)
Definition peerS5 : PRUDPClient Engine nat :=
  mkClient "10.0.0.2:5000" 0 [] [] [] 0 0 0 0 0 0
    [mkSubstream
       (list_to_map
          (map (fun k => (k, packet0 DataPacket 6 k 0 [])) [5; 7; 8; 9; 10]))
       (mkEngine 11 [])] 0 0 O.

(** A CONNECT payload for the password of [server0]: a ticket issued at
    second 100 with session key 01 02 03 04, and a request block with user
    PID 1234, CID 7 and check value 0xDEADBEEF. *)
Definition ticket0 : bytes :=
  [Byte.x70; Byte.x77] ++ [Byte.x64; Byte.x00; Byte.x00; Byte.x00;
                           Byte.x00; Byte.x00; Byte.x00; Byte.x00]
  ++ [Byte.x01; Byte.x02; Byte.x03; Byte.x04].
Definition request0 : bytes :=
  [Byte.x01; Byte.x02; Byte.x03; Byte.x04]
  ++ [Byte.xd2; Byte.x04; Byte.x00; Byte.x00]
  ++ [Byte.x07; Byte.x00; Byte.x00; Byte.x00]
  ++ [Byte.xef; Byte.xbe; Byte.xad; Byte.xde].
Definition connectPayload0 : bytes :=
  [Byte.x0e; Byte.x00; Byte.x00; Byte.x00] ++ ticket0
  ++ [Byte.x10; Byte.x00; Byte.x00; Byte.x00] ++ request0.

End Toy.

(** * Theorems *)

(** ** The typed reads of stream_in.go *)
Module StreamInFacts.
Import crunch StreamIn Spec.

Lemma u8_range (b : byte) : 0 <= u8 b < 256.
Proof. unfold u8. pose proof (Byte.to_N_bounded b). lia. Qed.

(** [a | b << k] is [a + b * 2^k] when [a] fits in [k] bits. *)
Lemma land_shiftl_disjoint (a b k : Z) :
  0 <= k -> 0 <= a < 2 ^ k -> Z.land a (b * 2 ^ k) = 0.
Proof.
  intros Hk Ha. apply Z.bits_inj'. intros n Hn.
  rewrite Z.land_spec, Z.bits_0.
  destruct (Z.lt_ge_cases n k) as [Hlt|Hge].
  - rewrite Z.mul_pow2_bits_low by lia. apply andb_false_r.
  - destruct (Z.eq_dec a 0) as [->|Hnz]; [now rewrite Z.bits_0|].
    rewrite (Z.bits_above_log2 a n); [reflexivity|lia|].
    apply Z.log2_lt_pow2; [lia|].
    apply Z.lt_le_trans with (2 ^ k); [lia|]. apply Z.pow_le_mono_r; lia.
Qed.

Lemma lor_shiftl_add (a b k : Z) :
  0 <= k -> 0 <= a < 2 ^ k -> Z.lor a (Z.shiftl b k) = a + b * 2 ^ k.
Proof.
  intros Hk Ha. rewrite Z.shiftl_mul_pow2 by lia.
  rewrite <- Z.lxor_lor by now apply land_shiftl_disjoint.
  symmetry. apply Z.add_nocarry_lxor. now apply land_shiftl_disjoint.
Qed.

Lemma nth_drop {A} (l : list A) (off i : nat) (d : A) :
  nth (off + i) l d = nth i (drop off l) d.
Proof.
  revert l. induction off as [|off IH]; intros [|x l]; simpl; auto.
  destruct i; reflexivity.
Qed.

Lemma at_drop (s : Buffer) (i : nat) :
  at_ s (boff s + i) = u8 (nth i (drop (boff s) (buf s)) Byte.x00).
Proof. unfold at_. now rewrite nth_drop. Qed.

Lemma at_drop0 (s : Buffer) :
  at_ s (boff s) = u8 (nth 0 (drop (boff s) (buf s)) Byte.x00).
Proof. rewrite <- at_drop. f_equal. lia. Qed.

Lemma nth_boff (s : Buffer) :
  nth (boff s) (buf s) Byte.x00 = nth 0 (drop (boff s) (buf s)) Byte.x00.
Proof. rewrite <- nth_drop. f_equal. lia. Qed.

Ltac byte_ranges :=
  repeat match goal with
         | b : Byte.byte |- _ =>
             lazymatch goal with
             | H : 0 <= u8 b < 256 |- _ => fail
             | _ => pose proof (u8_range b)
             end
         end.
Ltac lor_step k := try rewrite (lor_shiftl_add _ _ k) by lia.
(* innermost first: the left operand is then already a sum *)
Ltac lor_to_sum :=
  byte_ranges;
  lor_step 8; lor_step 16; lor_step 24; lor_step 32;
  lor_step 40; lor_step 48; lor_step 56.

Ltac read_case :=
  unfold read_ok, Remaining, ByteOffset, Bytes;
  match goal with
  | |- context [(?a <? ?b)%nat] => destruct (Nat.ltb_spec a b) as [Hlt|Hge]
  end;
  [ eexists; reflexivity | ].

Lemma ReadUInt8_ok (s : StreamIn) : read_ok ReadUInt8 1 0 le_value s.
Proof.
  unfold ReadUInt8. read_case.
  unfold ReadByteNext, SeekByte. rewrite nth_boff.
  destruct (drop (boff s) (buf s)) as [|b0 l]; simpl in Hge; [lia|].
  cbn [nth]. rewrite firstn_cons, firstn_O. cbn [le_value].
  do 2 f_equal. first [lia | f_equal; lia].
Qed.

Lemma ReadInt8_ok (s : StreamIn) : read_ok ReadInt8 1 0 (fun l => to_signed 8 (le_value l)) s.
Proof.
  unfold ReadInt8. read_case.
  unfold ReadByteNext, SeekByte. rewrite nth_boff.
  destruct (drop (boff s) (buf s)) as [|b0 l]; simpl in Hge; [lia|].
  cbn [nth]. rewrite firstn_cons, firstn_O. cbn [le_value].
  do 2 f_equal. first [lia | f_equal; lia].
Qed.

Lemma ReadUInt16LE_ok (s : StreamIn) : read_ok ReadUInt16LE 2 0 le_value s.
Proof.
  unfold ReadUInt16LE. read_case.
  unfold ReadU16LENext, ReadU16LE, SeekByte. rewrite ?at_drop, at_drop0.
  destruct (drop (boff s) (buf s)) as [|b0 [|b1 l]];
    simpl in Hge; try lia.
  cbn [nth]. lor_to_sum. rewrite !firstn_cons, firstn_O.
  cbn [le_value be_value rev app]. do 2 f_equal. first [lia | f_equal; lia].
Qed.

Lemma ReadUInt16BE_ok (s : StreamIn) : read_ok ReadUInt16BE 2 0 be_value s.
Proof.
  unfold ReadUInt16BE. read_case.
  unfold ReadU16BENext, ReadU16BE, SeekByte. rewrite ?at_drop, at_drop0.
  destruct (drop (boff s) (buf s)) as [|b0 [|b1 l]];
    simpl in Hge; try lia.
  cbn [nth]. lor_to_sum. rewrite !firstn_cons, firstn_O.
  cbn [le_value be_value rev app]. do 2 f_equal. first [lia | f_equal; lia].
Qed.

Lemma ReadInt16LE_ok (s : StreamIn) : read_ok ReadInt16LE 2 0 (fun l => to_signed 16 (le_value l)) s.
Proof.
  unfold ReadInt16LE. read_case.
  unfold ReadU16LENext, ReadU16LE, SeekByte. rewrite ?at_drop, at_drop0.
  destruct (drop (boff s) (buf s)) as [|b0 [|b1 l]];
    simpl in Hge; try lia.
  cbn [nth]. lor_to_sum. rewrite !firstn_cons, firstn_O.
  cbn [le_value be_value rev app]. do 2 f_equal. first [lia | f_equal; lia].
Qed.

Lemma ReadInt16BE_ok (s : StreamIn) : read_ok ReadInt16BE 2 0 (fun l => to_signed 16 (be_value l)) s.
Proof.
  unfold ReadInt16BE. read_case.
  unfold ReadU16BENext, ReadU16BE, SeekByte. rewrite ?at_drop, at_drop0.
  destruct (drop (boff s) (buf s)) as [|b0 [|b1 l]];
    simpl in Hge; try lia.
  cbn [nth]. lor_to_sum. rewrite !firstn_cons, firstn_O.
  cbn [le_value be_value rev app]. do 2 f_equal. first [lia | f_equal; lia].
Qed.

Lemma ReadUInt32LE_ok (s : StreamIn) : read_ok ReadUInt32LE 4 0 le_value s.
Proof.
  unfold ReadUInt32LE. read_case.
  unfold ReadU32LENext, ReadU32LE, SeekByte. rewrite ?at_drop, at_drop0.
  destruct (drop (boff s) (buf s)) as [|b0 [|b1 [|b2 [|b3 l]]]];
    simpl in Hge; try lia.
  cbn [nth]. lor_to_sum. rewrite !firstn_cons, firstn_O.
  cbn [le_value be_value rev app]. do 2 f_equal. first [lia | f_equal; lia].
Qed.

Lemma ReadUInt32BE_ok (s : StreamIn) : read_ok ReadUInt32BE 4 0 be_value s.
Proof.
  unfold ReadUInt32BE. read_case.
  unfold ReadU32BENext, ReadU32BE, SeekByte. rewrite ?at_drop, at_drop0.
  destruct (drop (boff s) (buf s)) as [|b0 [|b1 [|b2 [|b3 l]]]];
    simpl in Hge; try lia.
  cbn [nth]. lor_to_sum. rewrite !firstn_cons, firstn_O.
  cbn [le_value be_value rev app]. do 2 f_equal. first [lia | f_equal; lia].
Qed.

Lemma ReadInt32LE_ok (s : StreamIn) : read_ok ReadInt32LE 4 0 (fun l => to_signed 32 (le_value l)) s.
Proof.
  unfold ReadInt32LE. read_case.
  unfold ReadU32LENext, ReadU32LE, SeekByte. rewrite ?at_drop, at_drop0.
  destruct (drop (boff s) (buf s)) as [|b0 [|b1 [|b2 [|b3 l]]]];
    simpl in Hge; try lia.
  cbn [nth]. lor_to_sum. rewrite !firstn_cons, firstn_O.
  cbn [le_value be_value rev app]. do 2 f_equal. first [lia | f_equal; lia].
Qed.

Lemma ReadInt32BE_ok (s : StreamIn) : read_ok ReadInt32BE 4 0 (fun l => to_signed 32 (be_value l)) s.
Proof.
  unfold ReadInt32BE. read_case.
  unfold ReadU32BENext, ReadU32BE, SeekByte. rewrite ?at_drop, at_drop0.
  destruct (drop (boff s) (buf s)) as [|b0 [|b1 [|b2 [|b3 l]]]];
    simpl in Hge; try lia.
  cbn [nth]. lor_to_sum. rewrite !firstn_cons, firstn_O.
  cbn [le_value be_value rev app]. do 2 f_equal. first [lia | f_equal; lia].
Qed.

Lemma ReadUInt64LE_ok (s : StreamIn) : read_ok ReadUInt64LE 8 0 le_value s.
Proof.
  unfold ReadUInt64LE. read_case.
  unfold ReadU64LENext, ReadU64LE, SeekByte. rewrite ?at_drop, at_drop0.
  destruct (drop (boff s) (buf s)) as [|b0 [|b1 [|b2 [|b3 [|b4 [|b5 [|b6 [|b7 l]]]]]]]];
    simpl in Hge; try lia.
  cbn [nth]. lor_to_sum. rewrite !firstn_cons, firstn_O.
  cbn [le_value be_value rev app]. do 2 f_equal. first [lia | f_equal; lia].
Qed.

Lemma ReadUInt64BE_ok (s : StreamIn) : read_ok ReadUInt64BE 8 0 be_value s.
Proof.
  unfold ReadUInt64BE. read_case.
  unfold ReadU64BENext, ReadU64BE, SeekByte. rewrite ?at_drop, at_drop0.
  destruct (drop (boff s) (buf s)) as [|b0 [|b1 [|b2 [|b3 [|b4 [|b5 [|b6 [|b7 l]]]]]]]];
    simpl in Hge; try lia.
  cbn [nth]. lor_to_sum. rewrite !firstn_cons, firstn_O.
  cbn [le_value be_value rev app]. do 2 f_equal. first [lia | f_equal; lia].
Qed.

Lemma ReadInt64LE_ok (s : StreamIn) : read_ok ReadInt64LE 8 0 (fun l => to_signed 64 (le_value l)) s.
Proof.
  unfold ReadInt64LE. read_case.
  unfold ReadU64LENext, ReadU64LE, SeekByte. rewrite ?at_drop, at_drop0.
  destruct (drop (boff s) (buf s)) as [|b0 [|b1 [|b2 [|b3 [|b4 [|b5 [|b6 [|b7 l]]]]]]]];
    simpl in Hge; try lia.
  cbn [nth]. lor_to_sum. rewrite !firstn_cons, firstn_O.
  cbn [le_value be_value rev app]. do 2 f_equal. first [lia | f_equal; lia].
Qed.

Lemma ReadInt64BE_ok (s : StreamIn) : read_ok ReadInt64BE 8 0 (fun l => to_signed 64 (be_value l)) s.
Proof.
  unfold ReadInt64BE. read_case.
  unfold ReadU64BENext, ReadU64BE, SeekByte. rewrite ?at_drop, at_drop0.
  destruct (drop (boff s) (buf s)) as [|b0 [|b1 [|b2 [|b3 [|b4 [|b5 [|b6 [|b7 l]]]]]]]];
    simpl in Hge; try lia.
  cbn [nth]. lor_to_sum. rewrite !firstn_cons, firstn_O.
  cbn [le_value be_value rev app]. do 2 f_equal. first [lia | f_equal; lia].
Qed.

Lemma ReadFloat32LE_ok (s : StreamIn) : read_ok ReadFloat32LE 4 0 le_value s.
Proof.
  unfold ReadFloat32LE. read_case.
  unfold ReadF32LENext, ReadU32LENext, ReadU32LE, SeekByte. rewrite ?at_drop, at_drop0.
  destruct (drop (boff s) (buf s)) as [|b0 [|b1 [|b2 [|b3 l]]]];
    simpl in Hge; try lia.
  cbn [nth]. lor_to_sum. rewrite !firstn_cons, firstn_O.
  cbn [le_value be_value rev app]. do 2 f_equal. first [lia | f_equal; lia].
Qed.

Lemma ReadFloat32BE_ok (s : StreamIn) : read_ok ReadFloat32BE 4 0 be_value s.
Proof.
  unfold ReadFloat32BE. read_case.
  unfold ReadF32BENext, ReadU32BENext, ReadU32BE, SeekByte. rewrite ?at_drop, at_drop0.
  destruct (drop (boff s) (buf s)) as [|b0 [|b1 [|b2 [|b3 l]]]];
    simpl in Hge; try lia.
  cbn [nth]. lor_to_sum. rewrite !firstn_cons, firstn_O.
  cbn [le_value be_value rev app]. do 2 f_equal. first [lia | f_equal; lia].
Qed.

Lemma ReadFloat64LE_ok (s : StreamIn) : read_ok ReadFloat64LE 8 0 le_value s.
Proof.
  unfold ReadFloat64LE. read_case.
  unfold ReadF64LENext, ReadU64LENext, ReadU64LE, SeekByte. rewrite ?at_drop, at_drop0.
  destruct (drop (boff s) (buf s)) as [|b0 [|b1 [|b2 [|b3 [|b4 [|b5 [|b6 [|b7 l]]]]]]]];
    simpl in Hge; try lia.
  cbn [nth]. lor_to_sum. rewrite !firstn_cons, firstn_O.
  cbn [le_value be_value rev app]. do 2 f_equal. first [lia | f_equal; lia].
Qed.

Lemma ReadFloat64BE_ok (s : StreamIn) : read_ok ReadFloat64BE 8 0 be_value s.
Proof.
  unfold ReadFloat64BE. read_case.
  unfold ReadF64BENext, ReadU64BENext, ReadU64BE, SeekByte. rewrite ?at_drop, at_drop0.
  destruct (drop (boff s) (buf s)) as [|b0 [|b1 [|b2 [|b3 [|b4 [|b5 [|b6 [|b7 l]]]]]]]];
    simpl in Hge; try lia.
  cbn [nth]. lor_to_sum. rewrite !firstn_cons, firstn_O.
  cbn [le_value be_value rev app]. do 2 f_equal. first [lia | f_equal; lia].
Qed.

Lemma ReadBool_ok (s : StreamIn) : read_ok ReadBool 1 false (fun l => le_value l =? 1) s.
Proof.
  unfold ReadBool. read_case.
  unfold ReadByteNext, SeekByte. rewrite nth_boff.
  destruct (drop (boff s) (buf s)) as [|b0 l]; simpl in Hge; [lia|].
  cbn [nth]. rewrite firstn_cons, firstn_O. cbn [le_value].
  do 2 f_equal. first [lia | f_equal; lia].
Qed.

(** The reads keep the offset inside the buffer. *)
Lemma read_ok_wf {A} read width (zero : A) decode (s : StreamIn) :
  read_ok read width zero decode s -> wf s -> wf (read s).2.
Proof.
  unfold read_ok, wf, Remaining, ByteOffset, Bytes.
  destruct (Nat.ltb_spec (length (drop (boff s) (buf s))) width) as [Hlt|Hge].
  - intros [e ->]. auto.
  - intros -> Hwf. cbn. rewrite length_drop in Hge. lia.
Qed.

(** C9.  Every fixed-width typed read of [StreamIn] (unsigned, signed and
    float reads of 8 to 64 bits in both byte orders, and [ReadBool]), on a
    stream whose offset lies inside its buffer: when fewer bytes remain than
    the width of the type, the read returns the zero value with an error and
    leaves the stream, offset included, as it was; otherwise it returns the
    value decoded from the next bytes and moves the offset by exactly the
    width.  Floats are given by their bit patterns. *)
Theorem fixed_width_reads (s : StreamIn) (Hwf : wf s) :
  read_ok ReadUInt8 1 0 le_value s /\
  read_ok ReadInt8 1 0 (fun l => to_signed 8 (le_value l)) s /\
  read_ok ReadUInt16LE 2 0 le_value s /\
  read_ok ReadUInt16BE 2 0 be_value s /\
  read_ok ReadInt16LE 2 0 (fun l => to_signed 16 (le_value l)) s /\
  read_ok ReadInt16BE 2 0 (fun l => to_signed 16 (be_value l)) s /\
  read_ok ReadUInt32LE 4 0 le_value s /\
  read_ok ReadUInt32BE 4 0 be_value s /\
  read_ok ReadInt32LE 4 0 (fun l => to_signed 32 (le_value l)) s /\
  read_ok ReadInt32BE 4 0 (fun l => to_signed 32 (be_value l)) s /\
  read_ok ReadUInt64LE 8 0 le_value s /\
  read_ok ReadUInt64BE 8 0 be_value s /\
  read_ok ReadInt64LE 8 0 (fun l => to_signed 64 (le_value l)) s /\
  read_ok ReadInt64BE 8 0 (fun l => to_signed 64 (be_value l)) s /\
  read_ok ReadFloat32LE 4 0 le_value s /\
  read_ok ReadFloat32BE 4 0 be_value s /\
  read_ok ReadFloat64LE 8 0 le_value s /\
  read_ok ReadFloat64BE 8 0 be_value s /\
  read_ok ReadBool 1 false (fun l => le_value l =? 1) s.
Proof.
  repeat split;
    first [ apply ReadUInt8_ok | apply ReadInt8_ok | apply ReadBool_ok
          | apply ReadUInt16LE_ok | apply ReadUInt16BE_ok
          | apply ReadInt16LE_ok | apply ReadInt16BE_ok
          | apply ReadUInt32LE_ok | apply ReadUInt32BE_ok
          | apply ReadInt32LE_ok | apply ReadInt32BE_ok
          | apply ReadUInt64LE_ok | apply ReadUInt64BE_ok
          | apply ReadInt64LE_ok | apply ReadInt64BE_ok
          | apply ReadFloat32LE_ok | apply ReadFloat32BE_ok
          | apply ReadFloat64LE_ok | apply ReadFloat64BE_ok ].
Qed.

Lemma fixed_width_reads_witness :
  let s := mkBuffer [Byte.x00; Byte.x34; Byte.x12] 1 in
  wf s /\
  ReadUInt16LE s = ((4660, None), mkBuffer [Byte.x00; Byte.x34; Byte.x12] 3) /\
  (exists e, ReadUInt32LE s = ((0, Some e), s)).
Proof.
  intros s.
  assert (Hwf : wf s) by (unfold wf; simpl; lia).
  split; [exact Hwf|].
  destruct (fixed_width_reads s Hwf)
    as (_ & _ & H16 & _ & _ & _ & H32 & _).
  split; [exact H16 | exact H32].
Defined.

(** Reading at a known offset. *)
Lemma ReadUInt32LE_at (d : bytes) (off : nat) :
  (off + 4 <= length d)%nat ->
  ReadUInt32LE (mkBuffer d off) =
    ((le_value (take 4 (drop off d)), None), mkBuffer d (off + 4)).
Proof.
  intros H. pose proof (ReadUInt32LE_ok (mkBuffer d off)) as R.
  unfold read_ok, Remaining, ByteOffset, Bytes in R. cbn [buf boff] in R.
  destruct (Nat.ltb_spec (length (drop off d)) 4) as [Hlt|_]; [|exact R].
  rewrite length_drop in Hlt. lia.
Qed.

Lemma ReadUInt16LE_short (s : StreamIn) :
  (Remaining s < 2)%nat -> exists e, ReadUInt16LE s = ((0, Some e), s).
Proof.
  intros H. pose proof (ReadUInt16LE_ok s) as R. unfold read_ok in R.
  destruct (Nat.ltb_spec (Remaining s) 2); [exact R|lia].
Qed.

Lemma ReadUInt16LE_enough (s : StreamIn) :
  (2 <= Remaining s)%nat ->
  ReadUInt16LE s = ((le_value (take 2 (drop (boff s) (buf s))), None),
                    mkBuffer (buf s) (boff s + 2)).
Proof.
  intros H. pose proof (ReadUInt16LE_ok s) as R. unfold read_ok in R.
  destruct (Nat.ltb_spec (Remaining s) 2); [lia|exact R].
Qed.

Lemma Remaining_seek (s : StreamIn) (n : nat) :
  Remaining (mkBuffer (buf s) (boff s + n)) = (Remaining s - n)%nat.
Proof.
  unfold Remaining, ByteOffset, Bytes. cbn [buf boff].
  rewrite !length_drop. lia.
Qed.

Lemma u8_byte_of_Z (x : Z) : u8 (byte_of_Z x) = x mod 256.
Proof.
  unfold u8, byte_of_Z, wrap. change (2 ^ 8) with 256.
  pose proof (Z.mod_pos_bound x 256 ltac:(lia)) as Hb.
  destruct (Byte.of_N (Z.to_N (x mod 256))) as [b|] eqn:E.
  - apply Byte.to_of_N in E. rewrite E. lia.
  - apply Byte.of_N_None_iff in E. lia.
Qed.

(** Writing a uint32 and reading it back. *)
Lemma le_value_u32le (x : Z) : 0 <= x < 2 ^ 32 -> le_value (u32le x) = x.
Proof.
  intros Hx. unfold u32le. cbn [le_value].
  rewrite !u8_byte_of_Z, !Z.shiftr_div_pow2 by lia.
  change (2 ^ 8) with 256. change (2 ^ 16) with 65536.
  change (2 ^ 24) with 16777216. change (2 ^ 32) with 4294967296 in Hx.
  Z.to_euclidean_division_equations. lia.
Qed.

End StreamInFacts.

(** ** Kerberos ticket validation and the CONNECT handshake *)
Module ConnectFacts.
Import crunch StreamIn PRUDP Spec StreamInFacts.

Section Kerberos.
Context {SubT HB : Type} `{!Collaborators SubT HB}.
Implicit Types (st : @State SubT HB) (packet : PRUDPPacket).

Lemma readKerberosTicket_valid now password payload ticketData requestData
    s1 s2 ticket d :
  ReadBuffer (NewStreamIn payload) = ((ticketData, None), s1) ->
  ReadBuffer s1 = ((requestData, None), s2) ->
  TicketDecrypt ticketData (DeriveKerberosKey 2 password) = (ticket, None) ->
  now <= Standard (Issued ticket) + two_minutes ->
  KerberosDecrypt (SessionKey ticket) requestData = (d, None) ->
  (12 <= length d)%nat ->
  readKerberosTicket now password payload =
    (SessionKey ticket, requestPID d, requestCheckValue d, None).
Proof.
  intros H1 H2 H3 Ht H4 Hd. unfold readKerberosTicket.
  rewrite H1, H2, H3.
  destruct (Z.ltb_spec (Standard (Issued ticket) + two_minutes) now); [lia|].
  rewrite H4. unfold NewStreamIn, NewBuffer.
  rewrite ReadUInt32LE_at by lia. rewrite ReadUInt32LE_at by lia.
  rewrite ReadUInt32LE_at by lia. reflexivity.
Qed.

Lemma readKerberosTicket_expired now password payload ticketData requestData
    s1 s2 ticket :
  ReadBuffer (NewStreamIn payload) = ((ticketData, None), s1) ->
  ReadBuffer s1 = ((requestData, None), s2) ->
  TicketDecrypt ticketData (DeriveKerberosKey 2 password) = (ticket, None) ->
  Standard (Issued ticket) + two_minutes < now ->
  readKerberosTicket now password payload
    = ([], 0, 0, Some "Kerberos ticket expired").
Proof.
  intros H1 H2 H3 Ht. unfold readKerberosTicket.
  rewrite H1, H2, H3.
  destruct (Z.ltb_spec (Standard (Issued ticket) + two_minutes) now); [|lia].
  reflexivity.
Qed.

(** Up to the limit the time of validation plays no role. *)
Lemma readKerberosTicket_in_time now now' password payload ticketData
    requestData s1 s2 ticket :
  ReadBuffer (NewStreamIn payload) = ((ticketData, None), s1) ->
  ReadBuffer s1 = ((requestData, None), s2) ->
  TicketDecrypt ticketData (DeriveKerberosKey 2 password) = (ticket, None) ->
  now <= Standard (Issued ticket) + two_minutes ->
  now' <= Standard (Issued ticket) + two_minutes ->
  readKerberosTicket now password payload
    = readKerberosTicket now' password payload.
Proof.
  intros H1 H2 H3 Ht Ht'. unfold readKerberosTicket.
  rewrite H1, H2, H3.
  destruct (Z.ltb_spec (Standard (Issued ticket) + two_minutes) now); [lia|].
  destruct (Z.ltb_spec (Standard (Issued ticket) + two_minutes) now'); [lia|].
  reflexivity.
Qed.

(** On failure the three values returned are the zero values. *)
Lemma readKerberosTicket_error now password payload k p c e :
  readKerberosTicket now password payload = (k, p, c, Some e) ->
  k = [] /\ p = 0 /\ c = 0.
Proof.
  unfold readKerberosTicket.
  repeat match goal with
  | |- context [let '(_, _) := ?x in _] => destruct x as [[? ?] ?]
  | |- context [match ?x with Some _ => _ | None => _ end] => destruct x
  | |- context [let '(_, _) := ?x in _] => destruct x as [? ?]
  | |- context [if ?x then _ else _] => destruct x
  end; intros [= <- <- <- ?]; auto; discriminate.
Qed.

(** C6.  A ticket that decrypts under the server key, issued at time [T]
    (nanoseconds since the epoch, [two_minutes] being 120 seconds): at any
    time up to and including [T + 120 s] the validation does not reject it
    for its age - the result is the one obtained at time [T] itself, and is
    the session key, user PID and check value with no error when the request
    block decrypts and parses; at any time strictly after [T + 120 s] the
    validation returns the error "Kerberos ticket expired". *)
Theorem ticket_validity_window now password payload ticketData requestData
    s1 s2 ticket :
  ReadBuffer (NewStreamIn payload) = ((ticketData, None), s1) ->
  ReadBuffer s1 = ((requestData, None), s2) ->
  TicketDecrypt ticketData (DeriveKerberosKey 2 password) = (ticket, None) ->
  let T := Standard (Issued ticket) in
  two_minutes = 120 * 1000000000 /\
  (now <= T + two_minutes ->
     readKerberosTicket now password payload
       = readKerberosTicket T password payload /\
     forall d,
       KerberosDecrypt (SessionKey ticket) requestData = (d, None) ->
       (12 <= length d)%nat ->
       readKerberosTicket now password payload
         = (SessionKey ticket, requestPID d, requestCheckValue d, None)) /\
  (T + two_minutes < now ->
     readKerberosTicket now password payload
       = ([], 0, 0, Some "Kerberos ticket expired")).
Proof.
  intros H1 H2 H3 T. split; [reflexivity|]. split.
  - intros Ht. split.
    + eapply readKerberosTicket_in_time; eauto. unfold T, two_minutes. lia.
    + intros d H4 Hd. eapply readKerberosTicket_valid; eauto.
  - intros Ht. eapply readKerberosTicket_expired; eauto.
Qed.

(** The CONNECT handler of a secure server, whatever the validation
    returns. *)
Lemma handleConnect_secure now packet st key userPID checkValue err :
  IsSecureServer st = true ->
  readKerberosTicket now (kerberosPassword st) (Payload packet)
    = (key, userPID, checkValue, err) ->
  exists ack st',
    handleConnect now packet st = Done tt st' /\
    out st' = out st ++
      match err with Some e => [Println e] | None => [] end ++
      [Emit "connect" ack; SendRaw (address (client st)) (PRUDP.Bytes ack)] /\
    Type_ ack = ConnectPacket /\ HasFlag FlagAck ack = true /\
    Payload ack = u32le 4 ++ u32le (wrap 32 (checkValue + 1)) /\
    sessionKey (client st') = key /\
    pid (client st') = userPID.
Proof.
  intros Hs Hk. unfold handleConnect, bind. cbn.
  destruct (Version packet =? 0) eqn:Hv; cbn; rewrite Hs; cbn; rewrite Hk;
    destruct err as [e|]; cbn;
    (eexists; eexists; split; [reflexivity|]); cbn;
    rewrite <- ?app_assoc; cbn; repeat split; reflexivity.
Qed.

(** C2.  A CONNECT packet handled by a secure server, whose payload holds
    a ticket and a request block that validate (the ticket decrypts under
    the server key and is not older than two minutes, the request block
    decrypts under the ticket's session key and holds user PID, CID and check
    value): the handler returns, emits [connect] and sends one CONNECT-ACK
    whose payload is exactly the 8 bytes [{uint32 LE 4,
    uint32 LE checkValue+1}] (the sum taken as a uint32); the peer's session
    key is the ticket's and its PID the request's user PID. *)
Theorem connect_ack_on_valid_ticket now packet st ticketData requestData
    s1 s2 ticket d :
  IsSecureServer st = true ->
  ReadBuffer (NewStreamIn (Payload packet)) = ((ticketData, None), s1) ->
  ReadBuffer s1 = ((requestData, None), s2) ->
  TicketDecrypt ticketData (DeriveKerberosKey 2 (kerberosPassword st))
    = (ticket, None) ->
  now <= Standard (Issued ticket) + two_minutes ->
  KerberosDecrypt (SessionKey ticket) requestData = (d, None) ->
  (12 <= length d)%nat ->
  exists ack st',
    handleConnect now packet st = Done tt st' /\
    out st' = out st ++
      [Emit "connect" ack; SendRaw (address (client st)) (PRUDP.Bytes ack)] /\
    Type_ ack = ConnectPacket /\ HasFlag FlagAck ack = true /\
    Payload ack = u32le 4 ++ u32le (wrap 32 (requestCheckValue d + 1)) /\
    length (Payload ack) = 8%nat /\
    le_value (take 4 (Payload ack)) = 4 /\
    le_value (drop 4 (Payload ack)) = (requestCheckValue d + 1) mod 2 ^ 32 /\
    sessionKey (client st') = SessionKey ticket /\
    pid (client st') = requestPID d.
Proof.
  intros Hs H1 H2 H3 Ht H4 Hd.
  pose proof (readKerberosTicket_valid now _ _ _ _ _ _ _ _ H1 H2 H3 Ht H4 Hd)
    as Hk.
  destruct (handleConnect_secure now packet st _ _ _ _ Hs Hk)
    as (ack & st' & E & Hout & Hty & Hfl & Hpay & Hkey & Hpid).
  exists ack, st'. rewrite Hpay.
  repeat split; try assumption; try reflexivity.
  change (drop 4 (u32le 4 ++ ?l)) with l.
  apply le_value_u32le. unfold wrap. apply Z.mod_pos_bound. reflexivity.
Qed.

(** C4, as the code has it.  A CONNECT packet handled by a secure server
    whose Kerberos validation fails with an error [e]: the error is printed
    and the handshake goes on - the handler returns, emits [connect] and
    sends one CONNECT-ACK, whose payload is [{uint32 LE 4, uint32 LE 1}]; the
    peer's PID is set to 0 and its session key to the empty key. *)
Theorem connect_proceeds_on_invalid_ticket now packet st key userPID checkValue e :
  IsSecureServer st = true ->
  readKerberosTicket now (kerberosPassword st) (Payload packet)
    = (key, userPID, checkValue, Some e) ->
  exists ack st',
    handleConnect now packet st = Done tt st' /\
    out st' = out st ++
      [Println e; Emit "connect" ack;
       SendRaw (address (client st)) (PRUDP.Bytes ack)] /\
    Type_ ack = ConnectPacket /\ HasFlag FlagAck ack = true /\
    Payload ack = u32le 4 ++ u32le 1 /\
    sessionKey (client st') = [] /\
    pid (client st') = 0.
Proof.
  intros Hs Hk.
  destruct (readKerberosTicket_error _ _ _ _ _ _ _ Hk) as (-> & -> & ->).
  destruct (handleConnect_secure now packet st _ _ _ _ Hs Hk)
    as (ack & st' & E & Hout & Hty & Hfl & Hpay & Hkey & Hpid).
  exists ack, st'. repeat split; assumption.
Qed.

End Kerberos.

Import Toy.

Lemma ticket_validity_window_witness :
  readKerberosTicket 220000000000 [Byte.x70; Byte.x77] connectPayload0
    = ([Byte.x01; Byte.x02; Byte.x03; Byte.x04], 1234, 3735928559, None) /\
  readKerberosTicket 220000000001 [Byte.x70; Byte.x77] connectPayload0
    = ([], 0, 0, Some "Kerberos ticket expired").
Proof.
  destruct (@ticket_validity_window Engine nat toy 220000000000 [Byte.x70; Byte.x77]
              connectPayload0 ticket0 request0
              (mkBuffer connectPayload0 18) (mkBuffer connectPayload0 38)
              (mkTicket 100 0 [Byte.x01; Byte.x02; Byte.x03; Byte.x04])
              eq_refl eq_refl eq_refl) as (_ & Hin & _).
  destruct (@ticket_validity_window Engine nat toy 220000000001 [Byte.x70; Byte.x77]
              connectPayload0 ticket0 request0
              (mkBuffer connectPayload0 18) (mkBuffer connectPayload0 38)
              (mkTicket 100 0 [Byte.x01; Byte.x02; Byte.x03; Byte.x04])
              eq_refl eq_refl eq_refl) as (_ & _ & Hout).
  split.
  - destruct Hin as (_ & Hok); [vm_compute; discriminate|].
    apply (Hok (drop 4 request0)); [reflexivity|simpl; lia].
  - apply Hout. vm_compute. reflexivity.
Defined.

Lemma connect_ack_on_valid_ticket_witness :
  exists ack st',
    handleConnect 105000000000
      (packet0 ConnectPacket FlagNeedsAck 1 0 connectPayload0)
      (server0 true 1300 peer0) = Done tt st' /\
    out st' = [Emit "connect" ack; SendRaw "10.0.0.2:5000" (toyBytes ack)] /\
    Payload ack = [Byte.x04; Byte.x00; Byte.x00; Byte.x00;
                   Byte.xf0; Byte.xbe; Byte.xad; Byte.xde] /\
    sessionKey (client st') = [Byte.x01; Byte.x02; Byte.x03; Byte.x04] /\
    pid (client st') = 1234.
Proof.
  destruct (@connect_ack_on_valid_ticket Engine nat toy 105000000000
              (packet0 ConnectPacket FlagNeedsAck 1 0 connectPayload0)
              (server0 true 1300 peer0) ticket0 request0
              (mkBuffer connectPayload0 18) (mkBuffer connectPayload0 38)
              (mkTicket 100 0 [Byte.x01; Byte.x02; Byte.x03; Byte.x04])
              (drop 4 request0)
              eq_refl eq_refl eq_refl eq_refl
              ltac:(vm_compute; discriminate) eq_refl ltac:(simpl; lia))
    as (ack & st' & E & Hout & _ & _ & Hpay & _ & _ & _ & Hkey & Hpid).
  exists ack, st'. repeat split; assumption.
Defined.

(** A CONNECT with an empty payload on a secure server: the validation
    fails, and yet the CONNECT-ACK goes out. *)
Lemma connect_acked_despite_invalid_ticket :
  let packet := packet0 ConnectPacket FlagNeedsAck 1 0 [] in
  let st := server0 true 1300 peer0 in
  let ack := mkPacket 1 10 15 10 1 ConnectPacket 9 0 0 1 0
               [Byte.x00; Byte.x00; Byte.x00; Byte.x00] [Byte.x09]
               [Byte.x04; Byte.x00; Byte.x00; Byte.x00;
                Byte.x01; Byte.x00; Byte.x00; Byte.x00] 0 0 0 None in
  (exists e, readKerberosTicket 0 (kerberosPassword st) (Payload packet)
             = ([], 0, 0, Some e)) /\
  HasFlag FlagAck ack = true /\
  exists st',
    handleConnect 0 packet st = Done tt st' /\
    SendRaw "10.0.0.2:5000" (toyBytes ack) ∈ out st'.
Proof.
  intros packet st ack. split; [eexists; reflexivity|].
  split; [reflexivity|].
  exists (match handleConnect 0 packet st with Done _ s => s | _ => st end).
  split; [vm_compute; reflexivity|].
  vm_compute. do 2 right. left.
Qed.

Lemma connect_proceeds_on_invalid_ticket_witness :
  exists ack st',
    handleConnect 0 (packet0 ConnectPacket FlagNeedsAck 1 0 [])
      (server0 true 1300 peer0) = Done tt st' /\
    Payload ack = [Byte.x04; Byte.x00; Byte.x00; Byte.x00;
                   Byte.x01; Byte.x00; Byte.x00; Byte.x00] /\
    sessionKey (client st') = [] /\ pid (client st') = 0.
Proof.
  destruct (@connect_proceeds_on_invalid_ticket Engine nat toy 0
              (packet0 ConnectPacket FlagNeedsAck 1 0 [])
              (server0 true 1300 peer0) [] 0 0
              "Failed to read NEX buffer length. Not enough data to read uint32"
              eq_refl eq_refl)
    as (ack & st' & E & _ & _ & _ & Hpay & Hkey & Hpid).
  exists ack, st'. repeat split; assumption.
Defined.

End ConnectFacts.

(** ** Flags of a packet under the setters, and a tactic to run handlers *)
Module PacketFacts.
Import PRUDP.

Lemma HasFlag_setSignature flag v p :
  HasFlag flag (setSignature v p) = HasFlag flag p.
Proof. reflexivity. Qed.
Lemma HasFlag_SetSequenceID flag v p :
  HasFlag flag (SetSequenceID v p) = HasFlag flag p.
Proof. reflexivity. Qed.
Lemma HasFlag_SetPayload flag v p :
  HasFlag flag (SetPayload v p) = HasFlag flag p.
Proof. reflexivity. Qed.
Lemma HasFlag_setFragmentID flag v p :
  HasFlag flag (setFragmentID v p) = HasFlag flag p.
Proof. reflexivity. Qed.

Create Rewrite HintDb pkt.
#[export] Hint Rewrite HasFlag_setSignature HasFlag_SetSequenceID
  HasFlag_SetPayload HasFlag_setFragmentID : pkt.

(** Running a handler: unfold the monad and reduce. *)
Ltac mstep :=
  unfold bind, ret, panic, getClient, modifyClient, getServer,
    reliableSubstream, load, store, event;
  cbv beta iota.
Ltac mrun := repeat (progress mstep).

End PacketFacts.

(** ** Acknowledging what is received *)
Module AckFacts.
Import PRUDP Spec PacketFacts.

Section Acknowledge.
Context {SubT HB : Type} `{!Collaborators SubT HB}.
Implicit Types (st : @State SubT HB) (packet p : PRUDPPacket).

Lemma Flags_ackOf packet : Flags (ackOf packet) = FlagAck.
Proof. unfold ackOf. destruct (Version packet =? 0); reflexivity. Qed.

Lemma HasFlag_ackOf_Ack packet : HasFlag FlagAck (ackOf packet) = true.
Proof. unfold HasFlag. rewrite Flags_ackOf. reflexivity. Qed.

Lemma HasFlag_ackOf_other packet flag :
  Z.land FlagAck flag = 0 -> HasFlag flag (ackOf packet) = false.
Proof. intros Hf. unfold HasFlag. rewrite Flags_ackOf, Hf. reflexivity. Qed.

(** The fields of the ACK: sequence id of the packet, endpoints swapped. *)
Lemma ackOf_fields packet c :
  let ack := signed (ackOf packet) c in
  Type_ ack = Type_ packet /\ HasFlag FlagAck ack = true /\
  SequenceID ack = SequenceID packet /\
  SourceStreamType ack = DestinationStreamType packet /\
  SourcePort ack = DestinationPort packet /\
  DestinationStreamType ack = SourceStreamType packet /\
  DestinationPort ack = SourcePort packet.
Proof.
  intros ack. unfold ack, signed.
  split; [|split; [rewrite HasFlag_setSignature; apply HasFlag_ackOf_Ack|]];
    unfold ackOf; destruct (Version packet =? 0); repeat split.
Qed.

(** An ACK goes out as it is, signed: no sequence id is drawn, nothing is
    encrypted, nothing is scheduled for retransmission. *)
Lemma sendPacket_ack p st :
  HasFlag FlagAck p = true -> HasFlag FlagReliable p = false ->
  sendPacket p st =
    Done (signed p (client st))
         (with_out (out st ++ [SendRaw (address (client st))
                                       (Bytes (signed p (client st)))]) st).
Proof.
  intros Ha Hr. unfold sendPacket, bind. rewrite Ha. cbn.
  rewrite Ha, andb_false_r. cbn. rewrite !HasFlag_setSignature.
  rewrite Hr. reflexivity.
Qed.

Lemma acknowledgePacket_unfold packet :
  acknowledgePacket packet =
  (let* ack := sendPacket (ackOf packet) in
   if Type_ packet =? DisconnectPacket then
     let* ack := sendPacket ack in
     let* ack := sendPacket ack in
     ret tt
   else ret tt).
Proof. reflexivity. Qed.

Ltac ack_flags :=
  rewrite ?HasFlag_setSignature;
  first [ apply HasFlag_ackOf_Ack | apply HasFlag_ackOf_other; reflexivity ].

Lemma acknowledgePacket_once packet st :
  Type_ packet <> DisconnectPacket ->
  acknowledgePacket packet st =
    Done tt (with_out (out st ++ [ackDatagram packet st]) st).
Proof.
  intros Ht. rewrite acknowledgePacket_unfold. unfold bind.
  rewrite sendPacket_ack by ack_flags.
  destruct (Z.eqb_spec (Type_ packet) DisconnectPacket); [contradiction|].
  reflexivity.
Qed.

Lemma signed_signed p c :
  signature_ignores_signature -> signed (signed p c) c = signed p c.
Proof. intros Hsig. unfold signed. rewrite Hsig. reflexivity. Qed.

Lemma acknowledgePacket_disconnect packet st :
  signature_ignores_signature ->
  Type_ packet = DisconnectPacket ->
  acknowledgePacket packet st =
    Done tt (with_out (out st ++ [ackDatagram packet st; ackDatagram packet st;
                                  ackDatagram packet st]) st).
Proof.
  intros Hsig Ht. rewrite acknowledgePacket_unfold. unfold bind.
  rewrite sendPacket_ack by ack_flags.
  rewrite Ht. cbn [Z.eqb DisconnectPacket Pos.eqb].
  rewrite sendPacket_ack by (unfold signed; ack_flags).
  cbn [client with_out]. rewrite signed_signed by assumption.
  rewrite sendPacket_ack by (unfold signed; ack_flags).
  cbn [client with_out]. rewrite signed_signed by assumption.
  unfold ret, with_out, ackDatagram. cbn.
  rewrite <- !app_assoc. reflexivity.
Qed.

(** *** Computations that only emit [reliable-data] *)

Local Abbreviation only_emits := (only_emits (SubT:=SubT) (HB:=HB)).

Lemma only_emits_ret {A} (a : A) : only_emits (ret a).
Proof. intros st. exists []. cbn. split; [now rewrite app_nil_r|constructor]. Qed.

Lemma only_emits_panic {A} : only_emits (@panic _ _ A).
Proof. intros st. exists []. cbn. split; [now rewrite app_nil_r|constructor]. Qed.

Lemma only_emits_bind {A B} (m : M A) (k : A -> M B) :
  only_emits m -> (forall a, only_emits (k a)) -> only_emits (bind m k).
Proof.
  intros Hm Hk st. unfold bind. specialize (Hm st).
  destruct (m st) as [a st1|st1|]; [|exact Hm|exact Hm].
  destruct Hm as (evs & E & F). specialize (Hk a st1).
  destruct (k a st1) as [b st2|st2|]; [| |exact Hk];
    destruct Hk as (evs' & E' & F'); exists (evs ++ evs');
    (split; [rewrite E', E; now rewrite app_assoc | now apply Forall_app]).
Qed.

Lemma only_emits_getClient : only_emits getClient.
Proof. intros st. exists []. cbn. split; [now rewrite app_nil_r|constructor]. Qed.

Lemma only_emits_modifyClient f : only_emits (modifyClient f).
Proof. intros st. exists []. cbn. split; [now rewrite app_nil_r|constructor]. Qed.

Lemma only_emits_emit p : only_emits (emit "reliable-data" p).
Proof.
  intros st. exists [Emit "reliable-data" p]. cbn. split; [reflexivity|].
  repeat constructor. now exists p.
Qed.

Lemma only_emits_load i : only_emits (load i).
Proof.
  unfold load. apply only_emits_bind; [apply only_emits_getClient|].
  intros c. destruct (_ !! _); [apply only_emits_ret|apply only_emits_panic].
Qed.

Lemma only_emits_reliableSubstream id : only_emits (reliableSubstream id).
Proof.
  unfold reliableSubstream. apply only_emits_bind; [apply only_emits_getClient|].
  intros c. destruct (_ !! _); [apply only_emits_ret|apply only_emits_panic].
Qed.

Lemma only_emits_onEngine {A} i (f : SubT -> A * SubT) :
  only_emits (onEngine i f).
Proof.
  unfold onEngine. apply only_emits_bind; [apply only_emits_load|].
  intros sub. destruct (f (engine sub)) as [a e].
  apply only_emits_bind; [apply only_emits_modifyClient|].
  intros _. apply only_emits_ret.
Qed.

Lemma only_emits_deliver i pending packet :
  only_emits (deliver i pending packet).
Proof.
  revert packet. induction pending as [|pendingPacket rest IH]; intros packet.
  - apply only_emits_ret.
  - cbn [deliver]. apply only_emits_bind; [|intros p'; apply IH].
    destruct (Type_ packet =? DataPacket); [|apply only_emits_ret].
    apply only_emits_bind; [apply only_emits_onEngine|]. intros decrypted.
    apply only_emits_bind; [apply only_emits_onEngine|]. intros payload.
    destruct (getFragmentID packet =? 0); [|apply only_emits_ret].
    apply only_emits_bind; [apply only_emits_onEngine|]. intros _.
    apply only_emits_bind; [apply only_emits_emit|]. intros _.
    apply only_emits_ret.
Qed.

Lemma only_emits_deliverInOrder packet : only_emits (deliverInOrder packet).
Proof.
  unfold deliverInOrder.
  apply only_emits_bind; [apply only_emits_reliableSubstream|]. intros [i sub].
  apply only_emits_bind; [apply only_emits_onEngine|]. intros pending.
  apply only_emits_deliver.
Qed.

Lemma no_send_among_emissions (evs : list Event) :
  Forall is_reliable_data evs -> List.filter is_send evs = [].
Proof.
  induction 1 as [|e evs [p ->] _ IH]; [reflexivity|]. cbn. exact IH.
Qed.

(** A reliable DATA packet that needs an ACK: the handler is the in-order
    delivery run after the ACK is on the wire. *)
Lemma handleData_reliable packet st :
  Type_ packet = DataPacket ->
  HasFlag FlagReliable packet = true ->
  HasFlag FlagNeedsAck packet = true ->
  handleData packet st =
    deliverInOrder packet (with_out (out st ++ [ackDatagram packet st]) st).
Proof.
  intros Ht Hr Hn. unfold handleData. rewrite Hr.
  unfold handleReliable, bind, when. rewrite Hn.
  rewrite acknowledgePacket_once by (rewrite Ht; discriminate).
  reflexivity.
Qed.

(** C7.  A reliable DATA packet carrying NEEDS_ACK: the handler first puts
    the ACK of the packet on the wire and only then runs the in-order
    delivery (the substream's [Update] and the reassembly loop) from the
    state so reached; whether the delivery returns or panics, the events
    added are the ACK datagram followed by [reliable-data] emissions only. *)
Theorem reliable_data_ack_precedes_delivery packet st :
  Type_ packet = DataPacket ->
  HasFlag FlagReliable packet = true ->
  HasFlag FlagNeedsAck packet = true ->
  handleData packet st =
    deliverInOrder packet (with_out (out st ++ [ackDatagram packet st]) st) /\
  exists st' evs,
    outcome_state (handleData packet st) = Some st' /\
    out st' = out st ++ ackDatagram packet st :: evs /\
    Forall is_reliable_data evs.
Proof.
  intros Ht Hr Hn.
  pose proof (handleData_reliable packet st Ht Hr Hn) as E.
  split; [exact E|]. rewrite E.
  pose proof (only_emits_deliverInOrder packet
    (with_out (out st ++ [ackDatagram packet st]) st)) as H.
  destruct (deliverInOrder packet _) as [[] st'|st'|]; [| |contradiction];
    destruct H as (evs & E' & F); exists st', evs; cbn in E';
    (split; [reflexivity|split; [now rewrite E', <- app_assoc|exact F]]).
Qed.

Lemma handleDisconnect_events packet st :
  signature_ignores_signature ->
  Type_ packet = DisconnectPacket ->
  HasFlag FlagNeedsAck packet = true ->
  exists st',
    handleDisconnect packet st = Done tt st' /\
    out st' = out st ++ [ackDatagram packet st; ackDatagram packet st;
                         ackDatagram packet st; Emit "disconnect" packet].
Proof.
  intros Hsig Ht Hn. unfold handleDisconnect, bind, when. rewrite Hn.
  rewrite acknowledgePacket_disconnect by assumption. cbn.
  eexists. split; [reflexivity|]. cbn. now rewrite <- app_assoc.
Qed.

(** C8.  A DISCONNECT packet carrying NEEDS_ACK, the packet signature not
    depending on the signature field: the handler sends the ACK three times,
    the three datagrams being the same bytes, cleans the peer up, removes
    its address from the registry and emits [disconnect]. *)
Theorem disconnect_acked_three_times packet st :
  signature_ignores_signature ->
  Type_ packet = DisconnectPacket ->
  HasFlag FlagNeedsAck packet = true ->
  exists st',
    handleDisconnect packet st = Done tt st' /\
    out st' = out st ++ [ackDatagram packet st; ackDatagram packet st;
                         ackDatagram packet st; Emit "disconnect" packet] /\
    clients st' = delete (address (client st)) (clients st) /\
    clients st' !! address (client st) = None /\
    client st' = cleanup (client st).
Proof.
  intros Hsig Ht Hn. unfold handleDisconnect, bind, when. rewrite Hn.
  rewrite acknowledgePacket_disconnect by assumption. cbn.
  eexists. split; [reflexivity|]. cbn.
  split; [now rewrite <- app_assoc|].
  split; [reflexivity|]. split; [apply lookup_delete_eq|reflexivity].
Qed.

(** C5, as the code has it.  A received packet carrying NEEDS_ACK and
    neither ACK nor MULTI_ACK that is a reliable DATA packet, a PING or a
    DISCONNECT (the packet signature not depending on the signature field):
    the datagrams sent while it is processed are the ACK of the packet, once
    for DATA and PING and three times for DISCONNECT; the ACK has the
    packet's type and sequence id, and as source and destination the
    packet's destination and source. *)
Theorem needs_ack_acknowledged fuel now packet st :
  signature_ignores_signature ->
  HasFlag FlagNeedsAck packet = true ->
  HasFlag FlagAck packet = false ->
  HasFlag FlagMultiAck packet = false ->
  (Type_ packet = DataPacket /\ HasFlag FlagReliable packet = true) \/
  Type_ packet = PingPacket \/ Type_ packet = DisconnectPacket ->
  let ack := signed (ackOf packet) (client st) in
  (exists st' evs,
     outcome_state (processPacket fuel now packet st) = Some st' /\
     out st' = out st ++ evs /\
     List.filter is_send evs =
       replicate (if Type_ packet =? DisconnectPacket then 3 else 1)
                 (SendRaw (address (client st)) (Bytes ack))) /\
  Type_ ack = Type_ packet /\ HasFlag FlagAck ack = true /\
  SequenceID ack = SequenceID packet /\
  SourceStreamType ack = DestinationStreamType packet /\
  SourcePort ack = DestinationPort packet /\
  DestinationStreamType ack = SourceStreamType packet /\
  DestinationPort ack = SourcePort packet.
Proof.
  intros Hsig Hn Ha Hm Hty ack. split; [|apply ackOf_fields].
  unfold processPacket, bind. cbn [resetHeartbeat modifyClient].
  rewrite Ha, Hm. cbn [orb].
  fold (heartbeatReset st).
  change (SendRaw (address (client st)) (Bytes ack))
    with (ackDatagram packet (heartbeatReset st)).
  change (out st) with (out (heartbeatReset st)).
  generalize (heartbeatReset st). clear st ack. intros st.
  destruct Hty as [[Ht Hr]|[Ht|Ht]]; rewrite Ht; cbn [Z.eqb Pos.eqb
    SynPacket ConnectPacket DataPacket DisconnectPacket PingPacket].
  - rewrite (handleData_reliable packet st Ht Hr Hn).
    pose proof (only_emits_deliverInOrder packet
      (with_out (out st ++ [ackDatagram packet st]) st)) as H.
    destruct (deliverInOrder packet _) as [[] st'|st'|]; [| |contradiction];
      destruct H as (evs & E' & F); exists st', (ackDatagram packet st :: evs);
      cbn in E'; (split; [reflexivity|]);
      (split; [now rewrite E', <- app_assoc|]);
      cbn; now rewrite (no_send_among_emissions evs F).
  - unfold handlePing, when. rewrite Hn.
    rewrite acknowledgePacket_once by (rewrite Ht; discriminate).
    eexists. exists [ackDatagram packet st]. repeat split.
  - destruct (handleDisconnect_events packet st Hsig Ht Hn)
      as (st' & E & Hout).
    rewrite E. exists st'. eexists. split; [reflexivity|].
    split; [exact Hout|]. reflexivity.
Qed.


(** A received packet that is neither an ACK nor a multi-ACK goes, after
    the heartbeat reset, to the handler of its type. *)
Lemma processPacket_dispatch fuel now packet st :
  HasFlag FlagAck packet = false ->
  HasFlag FlagMultiAck packet = false ->
  processPacket fuel now packet st =
    (if Type_ packet =? SynPacket then handleSyn packet
     else if Type_ packet =? ConnectPacket then handleConnect now packet
     else if Type_ packet =? DataPacket then handleData packet
     else if Type_ packet =? DisconnectPacket then handleDisconnect packet
     else if Type_ packet =? PingPacket then handlePing packet
     else ret tt) (heartbeatReset st).
Proof.
  intros Ha Hm. unfold processPacket, bind. cbn [resetHeartbeat modifyClient].
  rewrite Ha, Hm. reflexivity.
Qed.

(** C10, as the code has it.  A received DATA packet with none of the
    RELIABLE, ACK and MULTI_ACK flags: processing it returns and does nothing
    beyond the heartbeat reset - no event is added (no ACK sent, nothing
    emitted), and registry, substreams and the rest of the peer are as they
    were. *)
Theorem unreliable_data_is_noop fuel now packet st :
  Type_ packet = DataPacket ->
  HasFlag FlagReliable packet = false ->
  HasFlag FlagAck packet = false ->
  HasFlag FlagMultiAck packet = false ->
  processPacket fuel now packet st = Done tt (heartbeatReset st) /\
  out (heartbeatReset st) = out st /\
  clients (heartbeatReset st) = clients st /\
  reliableSubstreams (client (heartbeatReset st))
    = reliableSubstreams (client st) /\
  with_heartbeat (heartbeat (client st)) (client (heartbeatReset st))
    = with_heartbeat (heartbeat (client st)) (client st).
Proof.
  intros Ht Hr Ha Hm. split; [|repeat split].
  unfold processPacket, bind. cbn [resetHeartbeat modifyClient].
  rewrite Ha, Hm, Ht. cbn [orb Z.eqb Pos.eqb SynPacket ConnectPacket DataPacket].
  unfold handleData. rewrite Hr. reflexivity.
Qed.

End Acknowledge.

Import Toy.

Lemma toy_signature_ignores_signature :
  signature_ignores_signature (SubT:=Engine) (HB:=nat).
Proof. intros p s key sig. reflexivity. Qed.

Lemma reliable_data_ack_precedes_delivery_witness :
  let packet := packet0 DataPacket (Z.lor FlagReliable FlagNeedsAck) 1 0
                        [Byte.x41; Byte.x42] in
  let st := server0 false 1300 peer0 in
  exists st' evs,
    outcome_state (handleData packet st) = Some st' /\
    out st' = out st ++ ackDatagram packet st :: evs /\
    Forall is_reliable_data evs.
Proof.
  intros packet st.
  exact (proj2 (@reliable_data_ack_precedes_delivery Engine nat toy packet st
                  eq_refl eq_refl eq_refl)).
Defined.

Lemma disconnect_acked_three_times_witness :
  let packet := packet0 DisconnectPacket FlagNeedsAck 9 0 [] in
  let st := server0 false 1300 peer0 in
  exists st',
    handleDisconnect packet st = Done tt st' /\
    out st' = [ackDatagram packet st; ackDatagram packet st;
               ackDatagram packet st; Emit "disconnect" packet] /\
    clients st' !! "10.0.0.2:5000" = None.
Proof.
  intros packet st.
  destruct (@disconnect_acked_three_times Engine nat toy packet st
              toy_signature_ignores_signature eq_refl eq_refl)
    as (st' & E & Hout & _ & Hgone & _).
  exists st'. repeat split; assumption.
Defined.

(** A DISCONNECT carrying NEEDS_ACK is answered by three ACK datagrams,
    not one. *)
Lemma disconnect_not_acked_once :
  let packet := packet0 DisconnectPacket FlagNeedsAck 9 0 [] in
  let st := server0 false 1300 peer0 in
  HasFlag FlagNeedsAck packet = true /\ HasFlag FlagAck packet = false /\
  exists st',
    processPacket 0 0 packet st = Done tt st' /\
    length (List.filter is_send (out st')) = 3%nat.
Proof.
  intros packet st. split; [reflexivity|]. split; [reflexivity|].
  exists (match processPacket 0 0 packet st with Done _ s => s | _ => st end).
  split; vm_compute; reflexivity.
Qed.

Lemma needs_ack_acknowledged_witness :
  let packet := packet0 PingPacket FlagNeedsAck 4 0 [] in
  let st := server0 false 1300 peer0 in
  exists st' evs,
    outcome_state (processPacket 0 0 packet st) = Some st' /\
    out st' = out st ++ evs /\
    List.filter is_send evs =
      [SendRaw "10.0.0.2:5000" (toyBytes (signed (ackOf packet) (client st)))].
Proof.
  intros packet st.
  exact (proj1 (@needs_ack_acknowledged Engine nat toy 0 0 packet st
                  toy_signature_ignores_signature eq_refl eq_refl eq_refl
                  (or_intror (or_introl eq_refl)))).
Defined.

(** An ACK for reliable data is itself a DATA packet without the RELIABLE
    flag; processing it removes an entry of the retransmission scheduler. *)
Lemma data_ack_modifies_substream :
  let packet := packet0 DataPacket FlagAck 5 0 [] in
  let st := server0 false 1300 peerInFlight in
  Type_ packet = DataPacket /\ HasFlag FlagReliable packet = false /\
  exists st' sub sub',
    processPacket 0 0 packet st = Done tt st' /\
    reliableSubstreams (client st) !! 0%nat = Some sub /\
    reliableSubstreams (client st') !! 0%nat = Some sub' /\
    is_Some (ResendScheduler sub !! 5) /\
    ResendScheduler sub' !! 5 = None.
Proof.
  intros packet st. split; [reflexivity|]. split; [reflexivity|].
  exists (match processPacket 0 0 packet st with Done _ s => s | _ => st end).
  do 2 eexists. split; [vm_compute; reflexivity|].
  split; [reflexivity|]. split; [vm_compute; reflexivity|].
  split; [eexists|]; vm_compute; reflexivity.
Qed.

Lemma unreliable_data_is_noop_witness :
  let packet := packet0 DataPacket FlagNeedsAck 5 0 [Byte.x41] in
  let st := server0 false 1300 peerInFlight in
  processPacket 0 0 packet st = Done tt (heartbeatReset st).
Proof.
  intros packet st.
  exact (proj1 (@unreliable_data_is_noop Engine nat toy 0 0 packet st
                  eq_refl eq_refl eq_refl eq_refl)).
Defined.

End AckFacts.

(** ** Multi-acknowledgment *)
Module MultiAckFacts.
Import crunch StreamIn PRUDP Spec StreamInFacts PacketFacts.

Lemma readOldFormat_odd (fuel : nat) (s : StreamIn) (acc : list Z) :
  Nat.Odd (Remaining s) -> readOldFormat fuel s acc = None.
Proof.
  revert s acc. induction fuel as [|fuel IH]; intros s acc Hodd; [reflexivity|].
  cbn [readOldFormat].
  destruct (Nat.ltb_spec 0 (Remaining s)) as [Hpos|Hz].
  2:{ destruct Hodd as [k Hk]. lia. }
  destruct (Nat.lt_ge_cases (Remaining s) 2) as [Hshort|Hlong].
  - destruct (ReadUInt16LE_short s Hshort) as [e ->]. now apply IH.
  - rewrite (ReadUInt16LE_enough s Hlong). apply IH.
    rewrite Remaining_seek. destruct Hodd as [k Hk]. exists (k - 1)%nat. lia.
Qed.

Lemma readOldFormat_even (fuel n : nat) (s : StreamIn) (acc : list Z) :
  Remaining s = (2 * n)%nat -> (n < fuel)%nat ->
  readOldFormat fuel s acc = Some (acc ++ u16s (drop (boff s) (buf s))).
Proof.
  revert n s acc. induction fuel as [|fuel IH]; intros n s acc Hlen Hfuel; [lia|].
  cbn [readOldFormat].
  destruct (Nat.ltb_spec 0 (Remaining s)) as [Hpos|Hz].
  - rewrite (ReadUInt16LE_enough s) by lia.
    rewrite (IH (n - 1)%nat) by (rewrite ?Remaining_seek; lia).
    cbn [buf boff]. f_equal. rewrite <- app_assoc. f_equal.
    unfold Remaining, ByteOffset, crunch.Bytes in Hlen, Hpos.
    rewrite <- drop_drop.
    destruct (drop (boff s) (buf s)) as [|a [|b rest]];
      simpl in Hlen, Hpos; try lia.
    reflexivity.
  - unfold Remaining, ByteOffset, crunch.Bytes in Hz.
    destruct (drop (boff s) (buf s)); simpl in Hz; [|lia].
    now rewrite app_nil_r.
Qed.

Section MultiAck.
Context {SubT HB : Type} `{!Collaborators SubT HB}.
Implicit Types (st : @State SubT HB) (packet p : PRUDPPacket).

(** C3, where the code departs from it.  An old-format multi-ACK (substream
    id other than 1) whose payload has an odd number of bytes, for a peer
    with a substream 0: the loop that reads the u16 ids never ends - the
    last byte makes [Remaining] positive and [ReadUInt16LE] fail without
    consuming it - so whatever the fuel the handler has not returned, and no
    scheduler entry is ever removed. *)
Theorem old_format_multi_ack_odd_payload_never_returns fuel packet st :
  SubstreamID packet <> 1 ->
  is_Some (reliableSubstreams (client st) !! 0%nat) ->
  Nat.Odd (length (Payload packet)) ->
  handleMultiAcknowledgment fuel packet st = OutOfFuel.
Proof.
  intros Hs [sub Hsub] Hodd. unfold handleMultiAcknowledgment, bind.
  destruct (Z.eqb_spec (SubstreamID packet) 1); [contradiction|].
  unfold reliableSubstream, bind, getClient.
  change (Z.to_nat 0) with 0%nat. rewrite Hsub. unfold ret.
  rewrite readOldFormat_odd; [reflexivity|].
  unfold Remaining, NewStreamIn, NewBuffer, ByteOffset, crunch.Bytes. cbn. exact Hodd.
Qed.

Lemma withScheduler_id i sub st :
  reliableSubstreams (client st) !! i = Some sub ->
  withScheduler i (ResendScheduler sub) st = st.
Proof.
  intros Hsub. unfold withScheduler.
  assert (E : alter (fun s => mkSubstream (ResendScheduler sub) (engine s)) i
                (reliableSubstreams (client st)) = reliableSubstreams (client st)).
  { apply list_eq. intros j. destruct (decide (i = j)) as [<-|Hne].
    - rewrite list_lookup_alter_eq, Hsub. now destruct sub.
    - now rewrite list_lookup_alter_ne. }
  rewrite E. destruct st as [? ? ? ? c ?]. destruct c. reflexivity.
Qed.

Lemma withScheduler_twice i m m' st :
  withScheduler i m' (withScheduler i m st) = withScheduler i m' st.
Proof.
  assert (E : forall l : list (ReliablePacketSubstreamManager SubT),
             alter (fun s => mkSubstream m' (engine s)) i
               (alter (fun s => mkSubstream m (engine s)) i l)
             = alter (fun s => mkSubstream m' (engine s)) i l).
  { intros l. apply list_eq. intros j. destruct (decide (i = j)) as [<-|Hne].
    - rewrite !list_lookup_alter_eq. now destruct (_ !! i).
    - now rewrite !list_lookup_alter_ne. }
  unfold withScheduler, with_client, with_reliableSubstreams. cbn.
  now rewrite E.
Qed.

Lemma AcknowledgePacket_spec i k sub st :
  reliableSubstreams (client st) !! i = Some sub ->
  AcknowledgePacket i k st =
    Done tt (withScheduler i (delete k (ResendScheduler sub)) st).
Proof.
  intros Hsub. unfold AcknowledgePacket, load, store, bind, getClient, modifyClient.
  rewrite Hsub. unfold ret, withScheduler. cbn [engine].
  assert (E : <[i := mkSubstream (delete k (ResendScheduler sub)) (engine sub)]>
                (reliableSubstreams (client st))
              = alter (fun s => mkSubstream (delete k (ResendScheduler sub)) (engine s)) i
                  (reliableSubstreams (client st))).
  { apply list_eq. intros j. destruct (decide (i = j)) as [<-|Hne].
    - rewrite list_lookup_alter_eq, Hsub.
      apply list_lookup_insert_eq. now apply lookup_lt_Some in Hsub.
    - now rewrite list_lookup_alter_ne, list_lookup_insert_ne. }
  now rewrite E.
Qed.

Lemma withScheduler_lookup i m sub st :
  reliableSubstreams (client st) !! i = Some sub ->
  reliableSubstreams (client (withScheduler i m st)) !! i
    = Some (mkSubstream m (engine sub)).
Proof. intros Hsub. cbn. now rewrite list_lookup_alter_eq, Hsub. Qed.

Lemma acknowledgeAll_spec i ids sub st :
  reliableSubstreams (client st) !! i = Some sub ->
  acknowledgeAll i ids st =
    Done tt (withScheduler i (foldl (fun m k => delete k m) (ResendScheduler sub) ids) st).
Proof.
  revert sub st. induction ids as [|k ids IH]; intros sub st Hsub.
  - cbn. now rewrite (withScheduler_id i sub st Hsub).
  - cbn [acknowledgeAll foldl]. unfold bind.
    rewrite (AcknowledgePacket_spec i k sub st Hsub).
    erewrite IH by (apply withScheduler_lookup; exact Hsub).
    cbn [ResendScheduler]. now rewrite withScheduler_twice.
Qed.

Lemma lookup_foldl_delete (m : gmap Z PRUDPPacket) (ids : list Z) (k : Z) :
  foldl (fun m k => delete k m) m ids !! k
    = if decide (k ∈ ids) then None else m !! k.
Proof.
  revert m. induction ids as [|x ids IH]; intros m; cbn [foldl].
  - destruct (decide (k ∈ [])) as [Hin|_]; [inversion Hin|reflexivity].
  - rewrite IH. destruct (decide (k ∈ ids)) as [Hin|Hnin].
    + destruct (decide (k ∈ x :: ids)) as [_|Hn]; [reflexivity|].
      exfalso. apply Hn. now right.
    + destruct (decide (k ∈ x :: ids)) as [Hin|Hn].
      * apply elem_of_cons in Hin as [->|Hin]; [apply lookup_delete_eq|contradiction].
      * apply lookup_delete_ne. intros ->. apply Hn. now left.
Qed.

Lemma elem_of_collectInFlight base (entries : list (Z * PRUDPPacket)) ids k :
  k ∈ foldl (collectInFlight base) ids entries <->
  k ∈ ids \/ (k <= base /\ exists v, (k, v) ∈ entries).
Proof.
  revert ids. induction entries as [|[x v] entries IH]; intros ids; cbn [foldl].
  - split; [now left|]. intros [H|(_ & v & H)]; [exact H|inversion H].
  - rewrite IH. unfold collectInFlight. cbn [fst].
    destruct (Z.leb_spec x base) as [Hle|Hgt]; cbn [andb].
    + destruct (bool_decide_reflect (x ∈ ids)) as [Hin|Hnin]; cbn [negb].
      * split.
        -- intros [H|(Hk & w & H)]; [now left|right]. split; [exact Hk|].
           exists w. now right.
        -- intros [H|(Hk & w & H)]; [now left|].
           apply elem_of_cons in H as [[= -> ->]|H]; [now left|].
           right. eauto.
      * rewrite elem_of_app, list_elem_of_singleton. split.
        -- intros [[H| ->]|(Hk & w & H)]; [now left| |].
           ++ right. split; [exact Hle|]. exists v. now left.
           ++ right. split; [exact Hk|]. exists w. now right.
        -- intros [H|(Hk & w & H)]; [now left; left|].
           apply elem_of_cons in H as [[= -> ->]|H]; [now left; right|].
           right. eauto.
    + split.
      * intros [H|(Hk & w & H)]; [now left|right]. split; [exact Hk|].
        exists w. now right.
      * intros [H|(Hk & w & H)]; [now left|].
        apply elem_of_cons in H as [[= -> ->]|H]; [lia|]. right. eauto.
Qed.

(** Go visits the entries of the scheduler in an order of its own; the
    scheduler that results is the same for every order. *)
Lemma scheduler_after_ack_any_order base ids (m : gmap Z PRUDPPacket)
    (entries : list (Z * PRUDPPacket)) :
  entries ≡ₚ map_to_list m ->
  foldl (fun m k => delete k m) m (foldl (collectInFlight base) ids entries)
  = afterAck base ids m.
Proof.
  intros Hperm. apply map_eq. intros k. rewrite lookup_foldl_delete.
  unfold afterAck.
  assert (Hin : forall v, (k, v) ∈ entries <-> m !! k = Some v).
  { intros v. rewrite Hperm. apply elem_of_map_to_list. }
  destruct (decide (k ∈ _)) as [Hk|Hk].
  - symmetry. apply map_lookup_filter_None. right. intros v Hv Hn. apply Hn.
    cbn. apply elem_of_collectInFlight in Hk as [H|(H & _)];
      [now right|now left].
  - destruct (m !! k) as [v|] eqn:Hm.
    + symmetry. apply map_lookup_filter_Some. split; [exact Hm|].
      cbn. intros [Hle|Hi]; apply Hk, elem_of_collectInFlight.
      * right. split; [exact Hle|]. exists v. now apply Hin.
      * now left.
    + symmetry. apply map_lookup_filter_None. now left.
Qed.

Lemma scheduler_after_ack base ids (m : gmap Z PRUDPPacket) :
  foldl (fun m k => delete k m) m
        (foldl (collectInFlight base) ids (map_to_list m))
  = afterAck base ids m.
Proof. now apply scheduler_after_ack_any_order. Qed.

(** On the packets for which the handler returns, it does what C3 says:
    the scheduler of the chosen substream loses the base, the additional
    ids and every in-flight id up to the base, and nothing else changes. *)
Lemma multi_ack_new_format fuel packet st sub :
  SubstreamID packet = 1 ->
  let '(substreamID, base, ids) := newFormat (Payload packet) in
  reliableSubstreams (client st) !! Z.to_nat substreamID = Some sub ->
  handleMultiAcknowledgment fuel packet st =
    Done tt (withScheduler (Z.to_nat substreamID)
               (afterAck base ids (ResendScheduler sub)) st).
Proof.
  intros Hs. unfold newFormat, handleMultiAcknowledgment. rewrite Hs.
  cbn [Z.eqb Pos.eqb].
  destruct (ReadUInt8 (NewStreamIn (Payload packet))) as [[sid ?] s1].
  destruct (ReadUInt8 s1) as [[count ?] s2].
  destruct (ReadUInt16LE s2) as [[base ?] s3].
  intros Hsub. mrun. rewrite Hsub. mrun. rewrite Hsub. mrun.
  rewrite (acknowledgeAll_spec _ _ sub st Hsub).
  now rewrite scheduler_after_ack.
Qed.

Lemma multi_ack_old_format fuel packet st sub :
  SubstreamID packet <> 1 ->
  reliableSubstreams (client st) !! 0%nat = Some sub ->
  Nat.Even (length (Payload packet)) ->
  (length (Payload packet) < 2 * fuel)%nat ->
  handleMultiAcknowledgment fuel packet st =
    Done tt (withScheduler 0
               (afterAck (SequenceID packet) (u16s (Payload packet))
                         (ResendScheduler sub)) st).
Proof.
  intros Hs Hsub [n Hn] Hfuel. unfold handleMultiAcknowledgment.
  destruct (Z.eqb_spec (SubstreamID packet) 1); [contradiction|].
  mrun. change (Z.to_nat 0) with 0%nat. rewrite Hsub. mrun.
  rewrite (readOldFormat_even fuel n) by (try exact Hn; lia).
  mrun. rewrite Hsub. mrun.
  rewrite (acknowledgeAll_spec _ _ sub st Hsub).
  now rewrite scheduler_after_ack.
Qed.
End MultiAck.

Import Toy.

Lemma old_format_multi_ack_odd_payload_never_returns_witness :
  handleMultiAcknowledgment 1000
    (packet0 DataPacket FlagMultiAck 5 0 [Byte.x03])
    (server0 false 1300 peerInFlight) = OutOfFuel.
Proof.
  apply (@old_format_multi_ack_odd_payload_never_returns Engine nat).
  - vm_compute. discriminate.
  - eexists. reflexivity.
  - exists 0%nat. reflexivity.
Defined.

(** Scenario S5 of the spec: payload [{realSubstreamID=0,
    additionalCount=2, baseSequenceID=10, additionalIDs=[7, 9]}] with the
    scheduler of substream 0 holding 5, 7, 8, 9 and 10; afterwards the
    scheduler is empty. *)
Example multi_ack_new_format_S5 :
  let packet :=
    SetSubstreamID 1
      (packet0 DataPacket FlagMultiAck 0 0
         [Byte.x00; Byte.x02; Byte.x0a; Byte.x00;
          Byte.x07; Byte.x00; Byte.x09; Byte.x00]) in
  let st := server0 false 1300 peerS5 in
  exists st',
    handleMultiAcknowledgment 0 packet st = Done tt st' /\
    ResendScheduler <$> reliableSubstreams (client st') = [∅].
Proof.
  intros packet st.
  exists (match handleMultiAcknowledgment 0 packet st
          with Done _ s => s | _ => st end).
  split; vm_compute; reflexivity.
Qed.

End MultiAckFacts.

(** ** Fragmentation on send *)
Module SendFacts.
Import PRUDP Spec PacketFacts.

Section SendFacts.
Context {SubT HB : Type} `{!Collaborators SubT HB}.
Implicit Types (st : @State SubT HB) (packet p : PRUDPPacket).

Lemma reliableSubstream_Some id sub st :
  reliableSubstreams (client st) !! Z.to_nat id = Some sub ->
  reliableSubstream id st = Done (Z.to_nat id, sub) st.
Proof. intros H. mrun. now rewrite H. Qed.

Lemma onEngine_Some {A} i (f : SubT -> A * SubT) sub st :
  reliableSubstreams (client st) !! i = Some sub ->
  onEngine i f st =
    Done (f (engine sub)).1
         (setSubstream i (mkSubstream (ResendScheduler sub) (f (engine sub)).2) st).
Proof.
  intros H. unfold onEngine. mrun. rewrite H. mrun.
  destruct (f (engine sub)) as [a e]. reflexivity.
Qed.

Lemma AddPacket_Some i p sub st :
  reliableSubstreams (client st) !! i = Some sub ->
  AddPacket i p st =
    Done tt (setSubstream i (mkSubstream (<[SequenceID p := p]> (ResendScheduler sub))
                                         (engine sub)) st).
Proof. intros H. unfold AddPacket. mrun. now rewrite H. Qed.

Lemma lookup_setSubstream i sub sub0 st :
  reliableSubstreams (client st) !! i = Some sub0 ->
  reliableSubstreams (client (setSubstream i sub st)) !! i = Some sub.
Proof.
  intros H. cbn. apply list_lookup_insert_eq. now apply lookup_lt_Some in H.
Qed.

Lemma same_peer_setSubstream i sub st : same_peer st (setSubstream i sub st).
Proof. unfold same_peer. cbn. now rewrite length_insert. Qed.

Lemma same_peer_trans st1 st2 st3 :
  same_peer st1 st2 -> same_peer st2 st3 -> same_peer st1 st3.
Proof. unfold same_peer. intros (?&?&?) (?&?&?). repeat split; congruence. Qed.

Lemma can_send_same p p' st st' :
  Flags p' = Flags p -> SubstreamID p' = SubstreamID p ->
  same_peer st st' -> can_send p st -> can_send p' st'.
Proof.
  intros Hf Hs (_ & Hl & _) Hc Hr. unfold HasFlag in *.
  rewrite Hf in Hr. specialize (Hc Hr). rewrite Hs.
  apply lookup_lt_is_Some. apply lookup_lt_is_Some in Hc. lia.
Qed.

Ltac side :=
  solve [ eassumption | eapply lookup_setSubstream; side ].

Ltac run_sendPacket :=
  repeat (first
    [ progress (unfold bind, ret, getClient, sendRaw, event, modifyClient,
                  nextOutgoingUnreliableSequenceID, nextOutgoingPingSequenceID;
                cbv beta iota zeta)
    | progress (cbn [Type_ Flags SubstreamID getFragmentID SetSequenceID SetPayload
                     setSignature])
    | progress (autorewrite with pkt)
    | match goal with
      | H : HasFlag _ _ = _ |- _ => rewrite H
      | H : (Type_ _ =? _) = _ |- _ => rewrite H
      end
    | progress (cbn [negb andb])
    | erewrite reliableSubstream_Some by side
    | erewrite onEngine_Some by side
    | erewrite AddPacket_Some by side ]).

Lemma sendPacket_spec p st :
  can_send p st ->
  exists p' st',
    sendPacket p st = Done p' st' /\
    out st' = out st ++ [SendRaw (address (client st)) (Bytes p')] /\
    same_header p p' /\ same_peer st st'.
Proof.
  intros Hcan. unfold can_send in Hcan. unfold sendPacket.
  destruct (HasFlag FlagReliable p) eqn:Hr;
    [destruct (Hcan eq_refl) as [sub Hsub]|];
    destruct (HasFlag FlagAck p) eqn:Ha; destruct (HasFlag FlagMultiAck p) eqn:Hm;
    cbn [negb andb]; rewrite ?andb_false_r; cbn [negb andb];
    destruct (HasFlag FlagNeedsAck p) eqn:Hn;
    destruct (Type_ p =? DataPacket) eqn:Ht;
    destruct (Type_ p =? PingPacket) eqn:Hp.
  all: run_sendPacket.
  all: do 2 eexists; (split; [reflexivity|]).
  all: unfold same_header, same_peer; cbn; rewrite ?length_insert.
  all: repeat split; reflexivity.
Qed.

Lemma sendFragments_S count F data fragmentID packet :
  @sendFragments SubT HB _ (S count) F data fragmentID packet =
  if Z.of_nat (length data) <? F then
    let* packet := sendPacket (setFragmentID 0 (SetPayload data packet)) in
    sendFragments count F data fragmentID packet
  else if F <? 0 then panic
  else
    let* packet :=
      sendPacket (setFragmentID fragmentID
                    (SetPayload (take (Z.to_nat F) data) packet)) in
    sendFragments count F (drop (Z.to_nat F) data) (wrap 8 (fragmentID + 1)) packet.
Proof. reflexivity. Qed.

Lemma sendFragments_spec (F : Z) (n : nat) :
  0 < F ->
  forall data fragmentID packet st,
    Z.of_nat n * F <= Z.of_nat (length data) < (Z.of_nat n + 1) * F ->
    can_send packet st ->
    exists st' ps,
      sendFragments (S n) F data fragmentID packet st = Done tt st' /\
      out st' = out st ++ datagrams st ps /\
      map getFragmentID ps = fragmentIDs fragmentID n ++ [0] /\
      same_peer st st'.
Proof.
  intros HF. induction n as [|n IH]; intros data fragmentID packet st Hlen Hcan.
  - cbn [sendFragments].
    destruct (Z.ltb_spec (Z.of_nat (length data)) F) as [_|Hge]; [|lia].
    assert (Hcan0 : can_send (setFragmentID 0 (SetPayload data packet)) st).
    { apply (can_send_same packet _ st st); [reflexivity|reflexivity|repeat split|exact Hcan]. }
    destruct (sendPacket_spec _ st Hcan0) as (p' & st' & E & Hout & Hh & Hp).
    unfold bind. rewrite E. exists st', [p']. cbn.
    repeat split; try apply Hp; [exact Hout|]. destruct Hh as (-> & _). reflexivity.
  - rewrite sendFragments_S.
    destruct (Z.ltb_spec (Z.of_nat (length data)) F) as [Hlt|Hge]; [lia|].
    destruct (Z.ltb_spec F 0) as [Hneg|_]; [lia|].
    assert (Hcan0 : can_send (setFragmentID fragmentID
                                (SetPayload (take (Z.to_nat F) data) packet)) st).
    { apply (can_send_same packet _ st st); [reflexivity|reflexivity|repeat split|exact Hcan]. }
    destruct (sendPacket_spec _ st Hcan0) as (p' & st1 & E & Hout & Hh & Hp).
    unfold bind. rewrite E.
    assert (Hcan1 : can_send p' st1).
    { destruct Hh as (? & Hf & ? & Hs).
      apply (can_send_same packet _ st st1); [now rewrite Hf|now rewrite Hs|exact Hp|exact Hcan]. }
    assert (Hlen1 : Z.of_nat n * F <= Z.of_nat (length (drop (Z.to_nat F) data))
                    < (Z.of_nat n + 1) * F).
    { rewrite length_drop. lia. }
    destruct (IH (drop (Z.to_nat F) data) (wrap 8 (fragmentID + 1)) p' st1 Hlen1 Hcan1)
      as (st' & ps & E' & Hout' & Hids & Hp').
    rewrite E'. exists st', (p' :: ps). split; [reflexivity|].
    split; [|split].
    + rewrite Hout', Hout. unfold datagrams. cbn. rewrite <- app_assoc.
      destruct Hp as (-> & _). reflexivity.
    + cbn. rewrite Hids. destruct Hh as (-> & _). reflexivity.
    + eapply same_peer_trans; eassumption.
Qed.

Lemma fragmentIDs_small (start : Z) (k : nat) :
  0 <= start -> start + Z.of_nat k <= 256 ->
  fragmentIDs start k = map Z.of_nat (seq (Z.to_nat start) k).
Proof.
  revert start. induction k as [|k IH]; intros start H0 H; [reflexivity|].
  cbn [fragmentIDs seq map]. f_equal; [lia|].
  destruct k as [|k']; [reflexivity|].
  rewrite IH.
  - unfold wrap. rewrite Z.mod_small by (change (2 ^ 8) with 256; lia).
    do 2 f_equal. lia.
  - unfold wrap. apply Z.mod_pos_bound. reflexivity.
  - unfold wrap. rewrite Z.mod_small by (change (2 ^ 8) with 256; lia). lia.
Qed.

(** C1, as the code has it.  A payload P passed to [Send] with fragment
    size F > 0, len(P) < 256 F, the substream of a reliable packet being
    there: [Send] returns after putting exactly floor(len(P)/F) + 1 packets
    on the wire - which is ceil(len(P)/F) when F does not divide len(P) -
    with fragment ids 1, 2, ... on all but the last and 0 on the last; a
    payload with len(P) < F goes out as a single packet with id 0. *)
Theorem Send_fragments packet st :
  let F := FragmentSize st in
  let len := Z.of_nat (length (Payload packet)) in
  0 < F -> len < 256 * F -> can_send packet st ->
  exists st' ps,
    Send packet st = Done tt st' /\
    out st' = out st ++ datagrams st ps /\
    Z.of_nat (length ps) = len / F + 1 /\
    map getFragmentID ps = map Z.of_nat (seq 1 (Z.to_nat (len / F))) ++ [0] /\
    (len mod F <> 0 -> Z.of_nat (length ps) = (len + F - 1) / F) /\
    (len < F -> exists p, ps = [p] /\ getFragmentID p = 0).
Proof.
  intros F len HF Hlen Hcan. unfold Send, bind, getServer. fold F.
  destruct (Z.eqb_spec F 0) as [?|_]; [lia|].
  rewrite Z.quot_div_nonneg by lia. fold len.
  assert (Hq : 0 <= len / F < 256).
  { split; [apply Z.div_pos; lia|]. apply Z.div_lt_upper_bound; lia. }
  replace (Z.to_nat (len / F + 1)) with (S (Z.to_nat (len / F))) by lia.
  assert (Hb : Z.of_nat (Z.to_nat (len / F)) * F <= len
               < (Z.of_nat (Z.to_nat (len / F)) + 1) * F).
  { rewrite Z2Nat.id by lia.
    pose proof (Z.mul_div_le len F HF).
    pose proof (Z.mul_succ_div_gt len F HF). lia. }
  destruct (sendFragments_spec F (Z.to_nat (len / F)) HF (Payload packet) 1 packet st
              Hb Hcan) as (st' & ps & E & Hout & Hids & _).
  rewrite fragmentIDs_small in Hids by lia. change (Z.to_nat 1) with 1%nat in Hids.
  assert (Hn : Z.of_nat (length ps) = len / F + 1).
  { rewrite <- (length_map getFragmentID), Hids, length_app, length_map, length_seq.
    cbn [length]. lia. }
  exists st', ps. repeat split; try assumption.
  - intros Hmod. rewrite Hn.
    pose proof (Z.div_mod len F ltac:(lia)) as Hdm.
    pose proof (Z.mod_pos_bound len F HF) as Hmb.
    apply Z.div_unique with (r := len mod F - 1); lia.
  - intros Hlt. rewrite Z.div_small in Hids, Hn by lia. cbn in Hids.
    destruct ps as [|p [|q ps]]; cbn in Hn, Hids; try lia; try discriminate.
    exists p. split; [reflexivity|]. now injection Hids.
Qed.
End SendFacts.

Import Toy.

(** A payload of exactly F bytes goes out as two packets (the second one
    empty), not as one. *)
Lemma Send_full_fragment_sends_two :
  let packet := packet0 DataPacket 0 0 0 [Byte.x01; Byte.x02; Byte.x03; Byte.x04] in
  let st := server0 false 4 peer0 in
  Z.of_nat (length (Payload packet)) <= FragmentSize st /\
  (Z.of_nat (length (Payload packet)) + FragmentSize st - 1) / FragmentSize st = 1 /\
  exists st' p1 p2,
    Send packet st = Done tt st' /\
    out st' = datagrams st [p1; p2] /\
    getFragmentID p1 = 1 /\ getFragmentID p2 = 0 /\ Payload p2 = [].
Proof.
  intros packet st. split; [vm_compute; discriminate|]. split; [reflexivity|].
  exists (match Send packet st with Done _ s => s | _ => st end).
  exists (mkPacket 1 10 1 10 15 DataPacket 0 0 0 1 1 [] [Byte.x05]
                   [Byte.x01; Byte.x02; Byte.x03; Byte.x04] 0 0 0 None).
  exists (mkPacket 1 10 1 10 15 DataPacket 0 0 0 2 0 [] [Byte.x02] [] 0 0 0 None).
  split; [vm_compute; reflexivity|]. split; [vm_compute; reflexivity|].
  split; [reflexivity|]. split; reflexivity.
Qed.

Lemma Send_fragments_witness :
  let packet := packet0 DataPacket (Z.lor FlagReliable FlagNeedsAck) 0 0
                  [Byte.x01; Byte.x02; Byte.x03; Byte.x04; Byte.x05] in
  let st := server0 false 2 peer0 in
  exists st' ps,
    Send packet st = Done tt st' /\
    out st' = out st ++ datagrams st ps /\
    Z.of_nat (length ps) = 3 /\
    map getFragmentID ps = [1; 2; 0].
Proof.
  intros packet st.
  destruct (@Send_fragments Engine nat toy packet st)
    as (st' & ps & E & Hout & Hn & Hids & _).
  - reflexivity.
  - reflexivity.
  - intros _. exists (mkSubstream ∅ (mkEngine 1 [])). reflexivity.
  - exists st', ps. repeat split; assumption.
Defined.

End SendFacts.

(** ** The writes of byte_stream_out.go, and reading them back *)
Module StreamOutFacts.
Import crunch StreamIn StreamOut Spec StreamInFacts.

Lemma WriteBytesNext_Grow (data : bytes) (s : Buffer) :
  at_end s ->
  WriteBytesNext data (Grow (length data) s)
    = mkBuffer (buf s ++ data) (length (buf s) + length data).
Proof.
  unfold at_end, WriteBytesNext, Grow. intros E. cbn [buf boff]. rewrite E.
  f_equal.
  rewrite take_app_length.
  rewrite drop_app_ge by lia.
  rewrite drop_ge; [now rewrite app_nil_r|].
  rewrite length_replicate. lia.
Qed.

Lemma appends_bytes (data : bytes) (write : Buffer -> Buffer) :
  (forall s, write s = WriteBytesNext data (Grow (length data) s)) ->
  appends write data.
Proof.
  intros Hw s Hs. rewrite Hw, WriteBytesNext_Grow by assumption.
  unfold at_end. cbn [buf boff]. rewrite length_app. auto.
Qed.

Lemma le_bytes_length n x : length (le_bytes n x) = n.
Proof. revert x. induction n; intros; cbn; auto. Qed.

Lemma le_value_le_bytes (n : nat) (x : Z) :
  le_value (le_bytes n x) = x mod 2 ^ (8 * Z.of_nat n).
Proof.
  revert x. induction n as [|n IH]; intros x.
  - cbn. now rewrite Z.mod_1_r.
  - cbn [le_bytes le_value]. rewrite IH, u8_byte_of_Z, Z.shiftr_div_pow2 by lia.
    replace (8 * Z.of_nat (S n)) with (8 + 8 * Z.of_nat n) by lia.
    rewrite Z.pow_add_r by lia. change (2 ^ 8) with 256.
    rewrite Z.rem_mul_r by lia. reflexivity.
Qed.

Lemma shiftr8 (x k : Z) : 0 <= k -> Z.shiftr (Z.shiftr x k) 8 = Z.shiftr x (k + 8).
Proof. intros. rewrite Z.shiftr_shiftr by lia. reflexivity. Qed.

Lemma le_bytes_2 x : [byte_of_Z x; byte_of_Z (Z.shiftr x 8)] = le_bytes 2 x.
Proof. reflexivity. Qed.

Lemma le_bytes_4 x :
  [byte_of_Z x; byte_of_Z (Z.shiftr x 8); byte_of_Z (Z.shiftr x 16);
   byte_of_Z (Z.shiftr x 24)] = le_bytes 4 x.
Proof.
  cbn [le_bytes]. rewrite !Z.shiftr_shiftr by lia. reflexivity.
Qed.

Lemma le_bytes_8 x :
  [byte_of_Z x; byte_of_Z (Z.shiftr x 8); byte_of_Z (Z.shiftr x 16);
   byte_of_Z (Z.shiftr x 24); byte_of_Z (Z.shiftr x 32);
   byte_of_Z (Z.shiftr x 40); byte_of_Z (Z.shiftr x 48);
   byte_of_Z (Z.shiftr x 56)] = le_bytes 8 x.
Proof.
  cbn [le_bytes]. rewrite !Z.shiftr_shiftr by lia. reflexivity.
Qed.

Ltac write_appends :=
  intros; apply appends_bytes; intros ?;
  unfold Write, WritePrimitiveUInt8, WritePrimitiveUInt16LE,
    WritePrimitiveUInt32LE, WritePrimitiveUInt64LE, WritePrimitiveInt8,
    WritePrimitiveInt16LE, WritePrimitiveInt32LE, WritePrimitiveInt64LE,
    WritePrimitiveFloat32LE, WritePrimitiveFloat64LE, WritePrimitiveBool,
    WriteByteNext, WriteU16LENext, WriteU32LENext, WriteU64LENext,
    WriteF32LENext, WriteF64LENext, WriteU32LENext, WriteU64LENext;
  rewrite ?le_bytes_4, ?le_bytes_8; reflexivity.

Lemma Write_appends data : appends (Write data) data.
Proof. write_appends. Qed.
Lemma UInt8_appends x : appends (WritePrimitiveUInt8 x) (le_bytes 1 x).
Proof. write_appends. Qed.
Lemma UInt16LE_appends x : appends (WritePrimitiveUInt16LE x) (le_bytes 2 x).
Proof. write_appends. Qed.
Lemma UInt32LE_appends x : appends (WritePrimitiveUInt32LE x) (le_bytes 4 x).
Proof. write_appends. Qed.
Lemma UInt64LE_appends x : appends (WritePrimitiveUInt64LE x) (le_bytes 8 x).
Proof. write_appends. Qed.
Lemma Int8_appends x : appends (WritePrimitiveInt8 x) (le_bytes 1 (wrap 8 x)).
Proof. write_appends. Qed.
Lemma Int16LE_appends x : appends (WritePrimitiveInt16LE x) (le_bytes 2 (wrap 16 x)).
Proof. write_appends. Qed.
Lemma Int32LE_appends x : appends (WritePrimitiveInt32LE x) (le_bytes 4 (wrap 32 x)).
Proof. write_appends. Qed.
Lemma Int64LE_appends x : appends (WritePrimitiveInt64LE x) (le_bytes 8 (wrap 64 x)).
Proof. write_appends. Qed.
Lemma Float32LE_appends x : appends (WritePrimitiveFloat32LE x) (le_bytes 4 x).
Proof. write_appends. Qed.
Lemma Float64LE_appends x : appends (WritePrimitiveFloat64LE x) (le_bytes 8 x).
Proof. write_appends. Qed.
Lemma Bool_appends b :
  appends (WritePrimitiveBool b) [if b then Byte.x01 else Byte.x00].
Proof. destruct b; write_appends. Qed.

(** X1.  Every write of [ByteStreamOut] appends: on a stream whose offset is
    at the end of the buffer, the bytes written before stay as they are, the
    little-endian bytes of the value (for [Write], the data itself; for a
    signed value, the bytes of its two's complement) are added behind them,
    and the offset is at the end again. *)
Theorem writes_append :
  (forall data, appends (Write data) data) /\
  (forall x, appends (WritePrimitiveUInt8 x) (le_bytes 1 x)) /\
  (forall x, appends (WritePrimitiveUInt16LE x) (le_bytes 2 x)) /\
  (forall x, appends (WritePrimitiveUInt32LE x) (le_bytes 4 x)) /\
  (forall x, appends (WritePrimitiveUInt64LE x) (le_bytes 8 x)) /\
  (forall x, appends (WritePrimitiveInt8 x) (le_bytes 1 (wrap 8 x))) /\
  (forall x, appends (WritePrimitiveInt16LE x) (le_bytes 2 (wrap 16 x))) /\
  (forall x, appends (WritePrimitiveInt32LE x) (le_bytes 4 (wrap 32 x))) /\
  (forall x, appends (WritePrimitiveInt64LE x) (le_bytes 8 (wrap 64 x))) /\
  (forall x, appends (WritePrimitiveFloat32LE x) (le_bytes 4 x)) /\
  (forall x, appends (WritePrimitiveFloat64LE x) (le_bytes 8 x)) /\
  (forall b, appends (WritePrimitiveBool b) [if b then Byte.x01 else Byte.x00]).
Proof.
  repeat match goal with |- _ /\ _ => split end.
  - exact Write_appends.
  - exact UInt8_appends.
  - exact UInt16LE_appends.
  - exact UInt32LE_appends.
  - exact UInt64LE_appends.
  - exact Int8_appends.
  - exact Int16LE_appends.
  - exact Int32LE_appends.
  - exact Int64LE_appends.
  - exact Float32LE_appends.
  - exact Float64LE_appends.
  - exact Bool_appends.
Qed.

Lemma writes_append_witness :
  buf (WritePrimitiveBool true (WritePrimitiveUInt16LE 4660 NewStreamOut))
    = [Byte.x34; Byte.x12; Byte.x01].
Proof.
  destruct writes_append as (_ & _ & A16 & _ & _ & _ & _ & _ & _ & _ & _ & AB).
  destruct (A16 4660 NewStreamOut eq_refl) as [H1 H2].
  destruct (AB true _ H2) as [H3 _].
  rewrite H3, H1. reflexivity.
Defined.

Lemma read_ok_enough {A} read width (zero : A) decode (s : StreamIn) :
  read_ok read width zero decode s -> (width <= Remaining s)%nat ->
  read s = ((decode (take width (drop (boff s) (buf s))), None),
            mkBuffer (buf s) (boff s + width)).
Proof.
  unfold read_ok. intros R H.
  destruct (Nat.ltb_spec (Remaining s) width); [lia | exact R].
Qed.

Lemma reads_back_of {A} write read width (zero : A) decode data v :
  (forall s, read_ok read width zero decode s) ->
  appends write data -> length data = width -> decode data = v ->
  reads_back write read v.
Proof.
  intros Hr Ha Hl Hv s rest Hs. destruct (Ha s Hs) as [Hb He].
  cbv zeta. rewrite Hb.
  rewrite (read_ok_enough _ _ _ _ _ (Hr _)); cbn [buf boff].
  - rewrite <- app_assoc, drop_app_length, take_app_length' by auto.
    rewrite Hv. do 2 f_equal. rewrite length_app. lia.
  - unfold Remaining, ByteOffset, crunch.Bytes. cbn [buf boff].
    rewrite <- app_assoc, drop_app_length, length_app. lia.
Qed.

Lemma to_signed_wrap (w x : Z) :
  0 < w -> - 2 ^ (w - 1) <= x < 2 ^ (w - 1) -> to_signed w (wrap w x) = x.
Proof.
  intros Hw Hx. unfold to_signed, wrap.
  assert (E : 2 ^ w = 2 * 2 ^ (w - 1)).
  { replace w with (1 + (w - 1)) at 1 by lia. rewrite Z.pow_add_r by lia. reflexivity. }
  rewrite E. set (h := 2 ^ (w - 1)) in *.
  destruct (Z.lt_ge_cases x 0) as [Hn|Hp].
  - assert (M : x mod (2 * h) = x + 2 * h).
    { symmetry. apply (Z.mod_unique _ _ (-1)); lia. }
    rewrite M. destruct (Z.ltb_spec (x + 2 * h) h); lia.
  - rewrite Z.mod_small by lia. destruct (Z.ltb_spec x h); lia.
Qed.

Lemma wrap_mod (w x : Z) : 0 < w -> wrap w x mod 2 ^ w = wrap w x.
Proof. intros. unfold wrap. apply Z.mod_mod. lia. Qed.

(** X2.  An unsigned integer of 8, 16, 32 or 64 bits, or a boolean, written
    by [ByteStreamOut] is read back by the [StreamIn] read of the same type
    and width: the read returns the value written, without error, and
    leaves the offset right behind it, whatever was written before and
    whatever follows. *)
Theorem unsigned_round_trip (x : Z) (b : bool) :
  (0 <= x < 2 ^ 8 -> reads_back (WritePrimitiveUInt8 x) ReadUInt8 x) /\
  (0 <= x < 2 ^ 16 -> reads_back (WritePrimitiveUInt16LE x) ReadUInt16LE x) /\
  (0 <= x < 2 ^ 32 -> reads_back (WritePrimitiveUInt32LE x) ReadUInt32LE x) /\
  (0 <= x < 2 ^ 64 -> reads_back (WritePrimitiveUInt64LE x) ReadUInt64LE x) /\
  reads_back (WritePrimitiveBool b) ReadBool b.
Proof.
  pose proof UInt8_appends as A8. pose proof UInt16LE_appends as A16.
  pose proof UInt32LE_appends as A32. pose proof UInt64LE_appends as A64.
  pose proof Bool_appends as AB.
  repeat match goal with |- _ /\ _ => split end; try intros Hx.
  - eapply reads_back_of; [apply ReadUInt8_ok | apply A8 | apply le_bytes_length |].
    rewrite le_value_le_bytes. apply Z.mod_small. exact Hx.
  - eapply reads_back_of; [apply ReadUInt16LE_ok | apply A16 | apply le_bytes_length |].
    rewrite le_value_le_bytes. apply Z.mod_small. exact Hx.
  - eapply reads_back_of; [apply ReadUInt32LE_ok | apply A32 | apply le_bytes_length |].
    rewrite le_value_le_bytes. apply Z.mod_small. exact Hx.
  - eapply reads_back_of; [apply ReadUInt64LE_ok | apply A64 | apply le_bytes_length |].
    rewrite le_value_le_bytes. apply Z.mod_small. exact Hx.
  - eapply reads_back_of; [apply ReadBool_ok | apply AB | reflexivity |].
    destruct b; reflexivity.
Qed.

Lemma unsigned_round_trip_witness :
  ReadUInt16LE (mkBuffer (buf (WritePrimitiveUInt16LE 4660 (WritePrimitiveUInt8 7 NewStreamOut))
                          ++ [Byte.xff]) 1)
    = ((4660, None), mkBuffer [Byte.x07; Byte.x34; Byte.x12; Byte.xff] 3).
Proof.
  assert (H : 0 <= 4660 < 2 ^ 16) by lia.
  exact (proj1 (proj2 (unsigned_round_trip 4660 true)) H
           (WritePrimitiveUInt8 7 NewStreamOut) [Byte.xff] eq_refl).
Defined.

(** X3.  A signed integer of 8, 16, 32 or 64 bits written by [ByteStreamOut]
    is read back by the signed [StreamIn] read of the same width. *)
Theorem signed_round_trip (x : Z) :
  (- 2 ^ 7 <= x < 2 ^ 7 -> reads_back (WritePrimitiveInt8 x) ReadInt8 x) /\
  (- 2 ^ 15 <= x < 2 ^ 15 -> reads_back (WritePrimitiveInt16LE x) ReadInt16LE x) /\
  (- 2 ^ 31 <= x < 2 ^ 31 -> reads_back (WritePrimitiveInt32LE x) ReadInt32LE x) /\
  (- 2 ^ 63 <= x < 2 ^ 63 -> reads_back (WritePrimitiveInt64LE x) ReadInt64LE x).
Proof.
  pose proof Int8_appends as A8. pose proof Int16LE_appends as A16.
  pose proof Int32LE_appends as A32. pose proof Int64LE_appends as A64.
  repeat match goal with |- _ /\ _ => split end; intros Hx.
  - eapply reads_back_of; [apply ReadInt8_ok | apply A8 | apply le_bytes_length |].
    cbv beta. rewrite le_value_le_bytes. change (2 ^ (8 * Z.of_nat 1)) with (2 ^ 8).
    rewrite wrap_mod by lia. apply (to_signed_wrap 8); lia.
  - eapply reads_back_of; [apply ReadInt16LE_ok | apply A16 | apply le_bytes_length |].
    cbv beta. rewrite le_value_le_bytes. change (2 ^ (8 * Z.of_nat 2)) with (2 ^ 16).
    rewrite wrap_mod by lia. apply (to_signed_wrap 16); lia.
  - eapply reads_back_of; [apply ReadInt32LE_ok | apply A32 | apply le_bytes_length |].
    cbv beta. rewrite le_value_le_bytes. change (2 ^ (8 * Z.of_nat 4)) with (2 ^ 32).
    rewrite wrap_mod by lia. apply (to_signed_wrap 32); lia.
  - eapply reads_back_of; [apply ReadInt64LE_ok | apply A64 | apply le_bytes_length |].
    cbv beta. rewrite le_value_le_bytes. change (2 ^ (8 * Z.of_nat 8)) with (2 ^ 64).
    rewrite wrap_mod by lia. apply (to_signed_wrap 64); lia.
Qed.

Lemma signed_round_trip_witness :
  ReadInt16LE (mkBuffer (buf (WritePrimitiveInt16LE (-2) NewStreamOut) ++ []) 0)
    = ((-2, None), mkBuffer [Byte.xfe; Byte.xff] 2).
Proof.
  assert (H : - 2 ^ 15 <= -2 < 2 ^ 15) by lia.
  exact (proj1 (proj2 (signed_round_trip (-2))) H NewStreamOut [] eq_refl).
Defined.

End StreamOutFacts.

(** ** Length-prefixed reads: buffers, qBuffers and strings *)
Module BufferFacts.
Import crunch StreamIn StreamOut Spec StreamInFacts StreamOutFacts.

Lemma le_value_nonneg (l : bytes) : 0 <= le_value l.
Proof. induction l as [|b l IH]; cbn [le_value]; [lia|]. pose proof (u8_range b). lia. Qed.

Lemma ReadUInt32LE_short (s : StreamIn) :
  (Remaining s < 4)%nat ->
  ReadUInt32LE s = ((0, Some "Not enough data to read uint32"), s).
Proof.
  intros H. unfold ReadUInt32LE.
  destruct (Nat.ltb_spec (Remaining s) 4); [reflexivity | lia].
Qed.

Lemma ReadUInt16LE_short_error (s : StreamIn) :
  (Remaining s < 2)%nat ->
  ReadUInt16LE s = ((0, Some "Not enough data to read uint16"), s).
Proof.
  intros H. unfold ReadUInt16LE.
  destruct (Nat.ltb_spec (Remaining s) 2); [reflexivity | lia].
Qed.

(** The part that [ReadBuffer], [ReadQBuffer] and [ReadString] share,
    behind the read of the length field. *)
Lemma prefixed_body (s1 : StreamIn) (n : Z) (tooLong : error)
    (post : bytes -> bytes) :
  0 <= n ->
  (if Z.of_nat (Remaining s1) <? n
   then (([], Some tooLong), s1)
   else let '(data, s') := ReadBytesNext (Z.to_nat n) s1 in ((post data, None), s'))
  = (if (Remaining s1 <? Z.to_nat n)%nat
     then (([], Some tooLong), s1)
     else ((post (take (Z.to_nat n) (drop (boff s1) (buf s1))), None),
           mkBuffer (buf s1) (boff s1 + Z.to_nat n))).
Proof.
  intros Hn.
  destruct (Z.ltb_spec (Z.of_nat (Remaining s1)) n),
           (Nat.ltb_spec (Remaining s1) (Z.to_nat n)); try lia; reflexivity.
Qed.


Lemma ReadQBuffer_prefixed (s : StreamIn) :
  reads_prefixed ReadQBuffer 2
    "Failed to read NEX qBuffer length. Not enough data to read uint16"
    "NEX qBuffer length longer than data size" (fun data => data) s.
Proof.
  unfold reads_prefixed, ReadQBuffer.
  destruct (Nat.ltb_spec (Remaining s) 2) as [Hlt|Hge].
  - rewrite ReadUInt16LE_short_error by assumption. reflexivity.
  - rewrite (read_ok_enough _ _ _ _ _ (ReadUInt16LE_ok s)) by assumption.
    cbv zeta.
    rewrite (prefixed_body _ _ _ (fun d => d)) by apply le_value_nonneg.
    destruct (_ <? _)%nat; reflexivity.
Qed.

Lemma ReadString_prefixed_4 (s : StreamIn) :
  reads_prefixed (ReadString 4) 4
    "Failed to read NEX string length. Not enough data to read uint32"
    "NEX string length longer than data size" TrimRightNUL s.
Proof.
  unfold reads_prefixed, ReadString. change (4 =? 4) with true. cbv iota.
  destruct (Nat.ltb_spec (Remaining s) 4) as [Hlt|Hge].
  - rewrite ReadUInt32LE_short by assumption. reflexivity.
  - rewrite (read_ok_enough _ _ _ _ _ (ReadUInt32LE_ok s)) by assumption.
    cbv zeta.
    rewrite (prefixed_body _ _ _ TrimRightNUL) by apply le_value_nonneg.
    destruct (_ <? _)%nat; reflexivity.
Qed.

Lemma ReadString_prefixed_2 (size : Z) (s : StreamIn) :
  size <> 4 ->
  reads_prefixed (ReadString size) 2
    "Failed to read NEX string length. Not enough data to read uint16"
    "NEX string length longer than data size" TrimRightNUL s.
Proof.
  intros Hsize. unfold reads_prefixed, ReadString.
  destruct (Z.eqb_spec size 4) as [|_]; [contradiction|].
  destruct (Nat.ltb_spec (Remaining s) 2) as [Hlt|Hge].
  - rewrite ReadUInt16LE_short_error by assumption. reflexivity.
  - rewrite (read_ok_enough _ _ _ _ _ (ReadUInt16LE_ok s)) by assumption.
    cbv zeta.
    rewrite (prefixed_body _ _ _ TrimRightNUL) by apply le_value_nonneg.
    destruct (_ <? _)%nat; reflexivity.
Qed.



Lemma TrimRightNUL_spec (str : bytes) :
  last (TrimRightNUL str) <> Some Byte.x00 /\
  exists k, str = TrimRightNUL str ++ replicate k Byte.x00.
Proof.
  induction str as [|b rest [IHlast [k IHk]]]; cbn [TrimRightNUL].
  - split; [discriminate | exists 0%nat; reflexivity].
  - destruct (TrimRightNUL rest) as [|c trimmed] eqn:E.
    + destruct (Byte.eqb b Byte.x00) eqn:Eb.
      * apply Byte.byte_dec_bl in Eb. subst b.
        split; [discriminate | exists (S k); rewrite IHk; reflexivity].
      * split.
        -- cbn. intros [= ->]. discriminate.
        -- exists k. rewrite IHk. reflexivity.
    + split.
      * rewrite last_cons. destruct (last (c :: trimmed)) eqn:L; [exact IHlast|].
        apply last_None in L. discriminate.
      * exists k. rewrite IHk at 1. reflexivity.
Qed.

Lemma ReadString_success (size : Z) (s s' : StreamIn) (str : bytes) :
  ReadString size s = ((str, None), s') ->
  let width := if size =? 4 then 4%nat else 2%nat in
  let n := Z.to_nat (le_value (take width (drop (boff s) (buf s)))) in
  str = TrimRightNUL (take n (drop (boff s + width) (buf s))) /\
  s' = mkBuffer (buf s) (boff s + width + n) /\
  (n <= length (drop (boff s + width) (buf s)))%nat.
Proof.
  intros H. destruct (Z.eqb_spec size 4) as [->|Hsize].
  - pose proof (ReadString_prefixed_4 s) as R. unfold reads_prefixed in R.
    destruct (Nat.ltb_spec (Remaining s) 4); [congruence|].
    cbv zeta in R. cbn [buf boff] in R.
    destruct (Nat.ltb_spec (Remaining (mkBuffer (buf s) (boff s + 4)))
                (Z.to_nat (le_value (take 4 (drop (boff s) (buf s)))))) as [|Hge];
      [congruence|].
    rewrite R in H. injection H as <- <-. repeat split. exact Hge.
  - pose proof (ReadString_prefixed_2 size s Hsize) as R. unfold reads_prefixed in R.
    destruct (Nat.ltb_spec (Remaining s) 2); [congruence|].
    cbv zeta in R. cbn [buf boff] in R.
    destruct (Nat.ltb_spec (Remaining (mkBuffer (buf s) (boff s + 2)))
                (Z.to_nat (le_value (take 2 (drop (boff s) (buf s)))))) as [|Hge];
      [congruence|].
    rewrite R in H. injection H as <- <-. repeat split. exact Hge.
Qed.

(** X5.  A string that [ReadString] returns never ends in a NUL byte, and it
    is the announced bytes of the stream with nothing but trailing NUL bytes
    removed: NUL bytes inside the string are kept, and the offset moves past
    the removed bytes as well. *)
Theorem ReadString_trims_trailing_NUL (size : Z) (s s' : StreamIn) (str : bytes) :
  ReadString size s = ((str, None), s') ->
  let width := if size =? 4 then 4%nat else 2%nat in
  last str <> Some Byte.x00 /\
  exists k,
    take (length str + k) (drop (boff s + width) (buf s))
      = str ++ replicate k Byte.x00 /\
    s' = mkBuffer (buf s) (boff s + width + (length str + k)).
Proof.
  intros H width. destruct (ReadString_success _ _ _ _ H) as (Hstr & Hs' & Hge).
  fold width in Hstr, Hs', Hge.
  set (n := Z.to_nat (le_value (take width (drop (boff s) (buf s))))) in *.
  set (data := take n (drop (boff s + width) (buf s))) in *.
  destruct (TrimRightNUL_spec data) as [Hlast [k Hk]].
  rewrite <- Hstr in Hlast, Hk. split; [exact Hlast|].
  exists k.
  assert (Hn : n = (length str + k)%nat).
  { assert (Hlen : length data = n) by (subst data; rewrite length_take; lia).
    rewrite Hk, length_app, length_replicate in Hlen. lia. }
  rewrite <- Hn. split; [exact Hk | exact Hs'].
Qed.

Lemma ReadString_trims_trailing_NUL_witness :
  let s := mkBuffer [Byte.x05; Byte.x00; Byte.x61; Byte.x00; Byte.x62; Byte.x00;
                     Byte.x00; Byte.xff] 0 in
  ReadString 2 s = (([Byte.x61; Byte.x00; Byte.x62], None),
                    mkBuffer (buf s) 7) /\
  last [Byte.x61; Byte.x00; Byte.x62] <> Some Byte.x00.
Proof.
  intros s.
  assert (H : ReadString 2 s = (([Byte.x61; Byte.x00; Byte.x62], None),
                                mkBuffer (buf s) 7)) by reflexivity.
  split; [exact H|].
  exact (proj1 (ReadString_trims_trailing_NUL 2 s _ _ H)).
Defined.

Lemma WriteTo_bytes (qb : bytes) (s : StreamOut) :
  at_end s ->
  buf (QBuffer.WriteTo qb s)
    = buf s ++ le_bytes 2 (wrap 16 (Z.of_nat (length qb))) ++ qb.
Proof.
  intros Hs. unfold QBuffer.WriteTo.
  pose proof Write_appends as AW.
  destruct (UInt16LE_appends (wrap 16 (Z.of_nat (length qb))) s Hs) as [Hb He].
  destruct (Z.ltb_spec 0 (Z.of_nat (length qb))) as [Hpos|Hzero].
  - destruct (AW qb _ He) as [Hb' _]. rewrite Hb', Hb, <- app_assoc. reflexivity.
  - destruct qb; [|cbn in Hzero; lia]. rewrite Hb, app_nil_r. reflexivity.
Qed.

(** X6.  A [QBuffer] written with [WriteTo] to a [ByteStreamOut] and read
    with [ReadQBuffer] at the place where it was written: the read succeeds
    and returns the first [len mod 65536] bytes of the buffer, since the
    length field is [uint16(len)].  A buffer shorter than 65536 bytes comes
    back whole, with the offset right behind what was written; a longer one
    comes back cut, with the offset inside its bytes. *)
Theorem QBuffer_round_trip (qb rest : bytes) (s : StreamOut) :
  at_end s ->
  let data := buf (QBuffer.WriteTo qb s) ++ rest in
  let n := Z.to_nat (Z.of_nat (length qb) mod 65536) in
  ReadQBuffer (mkBuffer data (length (buf s)))
    = ((take n qb, None), mkBuffer data (length (buf s) + 2 + n)) /\
  (Z.of_nat (length qb) < 65536 ->
   take n qb = qb /\
   (length (buf s) + 2 + n)%nat = length (buf (QBuffer.WriteTo qb s))) /\
  (65536 <= Z.of_nat (length qb) ->
   (length (take n qb) < length qb)%nat /\
   (length (buf s) + 2 + n < length (buf (QBuffer.WriteTo qb s)))%nat).
Proof.
  intros Hs data n. subst data. rewrite (WriteTo_bytes qb s Hs).
  set (field := le_bytes 2 (wrap 16 (Z.of_nat (length qb)))).
  assert (Hfield : length field = 2%nat) by apply le_bytes_length.
  assert (Hn : Z.to_nat (le_value field) = n).
  { subst field n. rewrite le_value_le_bytes. change (2 ^ (8 * Z.of_nat 2)) with (2 ^ 16).
    rewrite wrap_mod by lia. reflexivity. }
  assert (Hmod : 0 <= Z.of_nat (length qb) mod 65536 < 65536)
    by (apply Z.mod_pos_bound; lia).
  assert (Hle : (n <= length qb)%nat).
  { subst n. pose proof (Z.mod_le (Z.of_nat (length qb)) 65536). lia. }
  clearbody field.
  split; [|split].
  - pose proof (ReadQBuffer_prefixed
                  (mkBuffer ((buf s ++ field ++ qb) ++ rest) (length (buf s)))) as R.
    unfold reads_prefixed, Remaining, ByteOffset, crunch.Bytes in R.
    cbn [buf boff] in R.
    rewrite <- !app_assoc in R. rewrite <- !app_assoc.
    rewrite drop_app_length in R.
    destruct (Nat.ltb_spec (length (field ++ qb ++ rest)) 2) as [Hlt|_].
    { rewrite length_app in Hlt. lia. }
    cbv zeta in R.
    rewrite (take_app_length' field) in R by (symmetry; exact Hfield).
    rewrite Hn in R.
    replace (drop (length (buf s) + 2) (buf s ++ field ++ qb ++ rest))
      with (qb ++ rest) in R.
    2:{ rewrite <- drop_drop, drop_app_length.
        rewrite (drop_app_length' field) by (symmetry; exact Hfield). reflexivity. }
    destruct (Nat.ltb_spec (length (qb ++ rest)) n) as [Hlt|_].
    { rewrite length_app in Hlt. lia. }
    rewrite take_app_le in R by exact Hle. exact R.
  - intros Hsmall.
    assert (n = length qb) as -> by (subst n; rewrite Z.mod_small by lia; lia).
    split; [apply firstn_all|].
    rewrite !length_app. lia.
  - intros Hbig.
    rewrite length_take, !length_app. lia.
Qed.

Lemma QBuffer_round_trip_witness :
  ReadQBuffer (mkBuffer (buf (QBuffer.WriteTo [Byte.x41; Byte.x42]
                                (WritePrimitiveUInt8 7 NewStreamOut))
                         ++ [Byte.xff]) 1)
    = (([Byte.x41; Byte.x42], None),
       mkBuffer [Byte.x07; Byte.x02; Byte.x00; Byte.x41; Byte.x42; Byte.xff] 5).
Proof.
  exact (proj1 (QBuffer_round_trip [Byte.x41; Byte.x42] [Byte.xff]
                  (WritePrimitiveUInt8 7 NewStreamOut) eq_refl)).
Defined.

End BufferFacts.

(** ** The list reads of the fixed-width types *)
Module ListFacts.
Import crunch StreamIn StreamOut Spec StreamInFacts StreamOutFacts BufferFacts.

Section Elements.
Context {A : Type} (name : string)
  (read : StreamIn -> (A * option error) * StreamIn)
  (width : nat) (zero : A) (decode : bytes -> A).
Hypothesis Hwidth : (0 < width)%nat.
Hypothesis Hread : forall s, read_ok read width zero decode s.

Lemma readListValues_enough (count i : nat) (acc : list A) (s : StreamIn) :
  (count * width <= Remaining s)%nat ->
  readListValues name read count i acc s
    = ((acc ++ map decode (chunks width count (drop (boff s) (buf s))), None),
       mkBuffer (buf s) (boff s + count * width)).
Proof.
  revert i acc s. induction count as [|count IH]; intros i acc s Hrem.
  - cbn. rewrite app_nil_r, Nat.add_0_r. destruct s; reflexivity.
  - cbn [readListValues chunks map].
    rewrite (read_ok_enough _ _ _ _ _ (Hread s)) by lia.
    rewrite IH by (rewrite Remaining_seek; lia).
    cbn [buf boff]. rewrite <- app_assoc, drop_drop. cbn [app].
    do 2 f_equal. lia.
Qed.

Lemma readListValues_short (e : error) (count i : nat) (acc : list A) (s : StreamIn) :
  (forall s, (Remaining s < width)%nat -> read s = ((zero, Some e), s)) ->
  (Remaining s < count * width)%nat ->
  readListValues name read count i acc s
    = (([], Some ("Failed to read List<" +:+ name +:+ "> value at index "
                  +:+ pretty (i + Remaining s / width)%nat +:+ ". " +:+ e)),
       mkBuffer (buf s) (boff s + Remaining s / width * width)).
Proof.
  intros Hshort. revert i acc s.
  induction count as [|count IH]; intros i acc s Hrem; [lia|].
  cbn [readListValues].
  destruct (Nat.lt_ge_cases (Remaining s) width) as [Hlt|Hge].
  - rewrite Hshort by assumption.
    rewrite Nat.div_small by assumption.
    rewrite !Nat.add_0_r. destruct s; reflexivity.
  - rewrite (read_ok_enough _ _ _ _ _ (Hread s)) by assumption.
    rewrite IH by (rewrite Remaining_seek; lia).
    rewrite Remaining_seek. cbn [buf boff].
    assert (E : (Remaining s / width = S ((Remaining s - width) / width))%nat).
    { replace (Remaining s) with ((Remaining s - width) + 1 * width)%nat at 1 by lia.
      rewrite Nat.div_add by lia. lia. }
    rewrite E. set (k := ((Remaining s - width) / width)%nat).
    replace (i + S k)%nat with (S i + k)%nat by lia.
    replace (boff s + S k * width)%nat with (boff s + width + k * width)%nat by lia.
    reflexivity.
Qed.


Lemma readList_checked (factor : Z) (s : StreamIn) :
  (4 <= Remaining s)%nat ->
  readList name factor read s =
    let n := Z.to_nat (le_value (take 4 (drop (boff s) (buf s)))) in
    let s1 := mkBuffer (buf s) (boff s + 4) in
    if Z.of_nat (Remaining s1) <? wrap 32 (Z.of_nat n * factor)
    then (([], Some ("NEX List<" +:+ name +:+ "> length longer than data size")), s1)
    else readListValues name read n 0 [] s1.
Proof.
  intros H. unfold readList.
  rewrite (read_ok_enough _ _ _ _ _ (ReadUInt32LE_ok s)) by assumption.
  cbv zeta. rewrite Z2Nat.id by apply le_value_nonneg. reflexivity.
Qed.


Lemma fails_at_element_of (factor : Z) (e : error) (s : StreamIn) :
  (forall s, (Remaining s < width)%nat -> read s = ((zero, Some e), s)) ->
  fails_at_element (readList name factor read) name factor width e s.
Proof.
  intros Hshort Hge. cbv zeta. intros Hcheck Hrem.
  rewrite readList_checked by assumption. cbv zeta.
  set (n := Z.to_nat (le_value (take 4 (drop (boff s) (buf s))))) in *.
  set (s1 := mkBuffer (buf s) (boff s + 4)) in *.
  destruct (Z.ltb_spec (Z.of_nat (Remaining s1)) (wrap 32 (Z.of_nat n * factor))); [lia|].
  rewrite (readListValues_short e) by assumption. reflexivity.
Qed.

End Elements.



Lemma ReadFloat64LE_short (s : StreamIn) :
  (Remaining s < 8)%nat ->
  ReadFloat64LE s = ((0, Some "Not enough data to read float64"), s).
Proof.
  intros H. unfold ReadFloat64LE.
  destruct (Nat.ltb_spec (Remaining s) 8); [reflexivity | lia].
Qed.

Lemma ReadFloat64BE_short (s : StreamIn) :
  (Remaining s < 8)%nat ->
  ReadFloat64BE s = ((0, Some "Not enough data to read float64"), s).
Proof.
  intros H. unfold ReadFloat64BE.
  destruct (Nat.ltb_spec (Remaining s) 8); [reflexivity | lia].
Qed.

(** X8.  [ReadListFloat64LE] and [ReadListFloat64BE] compare the bytes left
    with four times the announced length, while an element has eight bytes.
    For a length [n] below 2^30 with at least [4 n] but fewer than [8 n]
    bytes behind the length field, the read is not refused with "longer than
    data size": it reads the whole elements that are there, fails at the
    next index with the error of the element read, and leaves the offset
    behind the elements read.  With [8 n] bytes or more it returns the [n]
    elements. *)
Theorem float64_list_length_check (s : StreamIn) :
  (4 <= Remaining s)%nat ->
  let n := Z.to_nat (le_value (take 4 (drop (boff s) (buf s)))) in
  let s1 := mkBuffer (buf s) (boff s + 4) in
  let rem := Remaining s1 in
  Z.of_nat n < 2 ^ 30 -> (4 * n <= rem)%nat ->
  ((rem < 8 * n)%nat ->
   let failure :=
     (([], Some ("Failed to read List<float64> value at index "
                 +:+ pretty (rem / 8)%nat
                 +:+ ". Not enough data to read float64")),
      mkBuffer (buf s) (boff s1 + rem / 8 * 8)) in
   ReadListFloat64LE s = failure /\ ReadListFloat64BE s = failure) /\
  ((8 * n <= rem)%nat ->
   ReadListFloat64LE s
     = ((map le_value (chunks 8 n (drop (boff s1) (buf s))), None),
        mkBuffer (buf s) (boff s1 + n * 8)) /\
   ReadListFloat64BE s
     = ((map be_value (chunks 8 n (drop (boff s1) (buf s))), None),
        mkBuffer (buf s) (boff s1 + n * 8))).
Proof.
  intros Hge n s1 rem Hn Hcheck.
  assert (Hwrap : wrap 32 (Z.of_nat n * 4) <= Z.of_nat rem).
  { unfold wrap. rewrite Z.mod_small by lia. lia. }
  split.
  - intros Hshort failure. split.
    + apply (fails_at_element_of "float64" ReadFloat64LE 8 0 le_value
               ltac:(lia) ReadFloat64LE_ok 4 _ s ReadFloat64LE_short Hge Hwrap).
      fold n s1 rem. lia.
    + apply (fails_at_element_of "float64" ReadFloat64BE 8 0 be_value
               ltac:(lia) ReadFloat64BE_ok 4 _ s ReadFloat64BE_short Hge Hwrap).
      fold n s1 rem. lia.
  - intros Hall.
    unfold ReadListFloat64LE, ReadListFloat64BE.
    rewrite !readList_checked by assumption. cbv zeta. fold n s1 rem.
    destruct (Z.ltb_spec (Z.of_nat rem) (wrap 32 (Z.of_nat n * 4))); [lia|].
    rewrite (readListValues_enough "float64" ReadFloat64LE 8 0 le_value
               ltac:(lia) ReadFloat64LE_ok) by (fold rem; lia).
    rewrite (readListValues_enough "float64" ReadFloat64BE 8 0 be_value
               ltac:(lia) ReadFloat64BE_ok) by (fold rem; lia).
    split; reflexivity.
Qed.

Lemma float64_list_length_check_witness :
  let data := [Byte.x01; Byte.x00; Byte.x00; Byte.x00;
               Byte.x00; Byte.x00; Byte.x80; Byte.x3f] in
  ReadListFloat64LE (mkBuffer data 0)
    = (([], Some "Failed to read List<float64> value at index 0. Not enough data to read float64"),
       mkBuffer data 4).
Proof.
  intros data.
  assert (H1 : (4 <= Remaining (mkBuffer data 0))%nat) by (cbn; lia).
  assert (H2 : Z.of_nat (Z.to_nat (le_value (take 4 (drop 0 data)))) < 2 ^ 30)
    by (cbn; lia).
  assert (H3 : (4 * Z.to_nat (le_value (take 4 (drop 0 data)))
                <= Remaining (mkBuffer data (0 + 4)))%nat) by (cbn; lia).
  assert (H4 : (Remaining (mkBuffer data (0 + 4))
                < 8 * Z.to_nat (le_value (take 4 (drop 0 data))))%nat) by (cbn; lia).
  exact (proj1 (proj1 (float64_list_length_check (mkBuffer data 0) H1 H2 H3) H4)).
Defined.

Ltac short_read :=
  let s := fresh "s" in
  let H := fresh "H" in
  intros s H;
  match goal with
  | |- ?read _ = _ => unfold read
  end;
  match goal with
  | |- context [(?a <? ?b)%nat] => destruct (Nat.ltb_spec a b); [reflexivity | lia]
  end.

(** X9.  The length check of the list reads multiplies in uint32.  For the
    list reads of the 16-, 32- and 64-bit integers and of [float32]: when
    the bytes behind the length field are at least
    [(length * width) mod 2^32] but fewer than [length * width] (the product
    has wrapped), the read is not refused with "longer than data size"; it
    reads the whole elements that are there and fails at the next index
    with the error of the element read.  (The memory that [make] reserves
    for [length] elements is outside the model.) *)
Theorem list_length_check_wraps (s : StreamIn) :
  fails_at_element ReadListUInt16LE "uint16" 2 2 "Not enough data to read uint16" s /\
  fails_at_element ReadListUInt16BE "uint16" 2 2 "Not enough data to read uint16" s /\
  fails_at_element ReadListInt16LE "int16" 2 2 "Not enough data to read int16" s /\
  fails_at_element ReadListInt16BE "int16" 2 2 "Not enough data to read int16" s /\
  fails_at_element ReadListUInt32LE "uint32" 4 4 "Not enough data to read uint32" s /\
  fails_at_element ReadListUInt32BE "uint32" 4 4 "Not enough data to read uint32" s /\
  fails_at_element ReadListInt32LE "int32" 4 4 "Not enough data to read int32" s /\
  fails_at_element ReadListInt32BE "int32" 4 4 "Not enough data to read int32" s /\
  fails_at_element ReadListUInt64LE "uint64" 8 8 "Not enough data to read uint64" s /\
  fails_at_element ReadListUInt64BE "uint64" 8 8 "Not enough data to read uint64" s /\
  fails_at_element ReadListInt64LE "int64" 8 8 "Not enough data to read int64" s /\
  fails_at_element ReadListInt64BE "int64" 8 8 "Not enough data to read int64" s /\
  fails_at_element ReadListFloat32LE "float32" 4 4 "Not enough data to read float32" s /\
  fails_at_element ReadListFloat32BE "float32" 4 4 "Not enough data to read float32" s.
Proof.
  repeat match goal with |- _ /\ _ => split end.
  - apply (fails_at_element_of _ ReadUInt16LE 2 0 _ ltac:(lia) ReadUInt16LE_ok); short_read.
  - apply (fails_at_element_of _ ReadUInt16BE 2 0 _ ltac:(lia) ReadUInt16BE_ok); short_read.
  - apply (fails_at_element_of _ ReadInt16LE 2 0 _ ltac:(lia) ReadInt16LE_ok); short_read.
  - apply (fails_at_element_of _ ReadInt16BE 2 0 _ ltac:(lia) ReadInt16BE_ok); short_read.
  - apply (fails_at_element_of _ ReadUInt32LE 4 0 _ ltac:(lia) ReadUInt32LE_ok); short_read.
  - apply (fails_at_element_of _ ReadUInt32BE 4 0 _ ltac:(lia) ReadUInt32BE_ok); short_read.
  - apply (fails_at_element_of _ ReadInt32LE 4 0 _ ltac:(lia) ReadInt32LE_ok); short_read.
  - apply (fails_at_element_of _ ReadInt32BE 4 0 _ ltac:(lia) ReadInt32BE_ok); short_read.
  - apply (fails_at_element_of _ ReadUInt64LE 8 0 _ ltac:(lia) ReadUInt64LE_ok); short_read.
  - apply (fails_at_element_of _ ReadUInt64BE 8 0 _ ltac:(lia) ReadUInt64BE_ok); short_read.
  - apply (fails_at_element_of _ ReadInt64LE 8 0 _ ltac:(lia) ReadInt64LE_ok); short_read.
  - apply (fails_at_element_of _ ReadInt64BE 8 0 _ ltac:(lia) ReadInt64BE_ok); short_read.
  - apply (fails_at_element_of _ ReadFloat32LE 4 0 _ ltac:(lia) ReadFloat32LE_ok); short_read.
  - apply (fails_at_element_of _ ReadFloat32BE 4 0 _ ltac:(lia) ReadFloat32BE_ok); short_read.
Qed.

Lemma list_length_check_wraps_witness :
  let data := [Byte.x00; Byte.x00; Byte.x00; Byte.x80; Byte.x11; Byte.x22] in
  ReadListUInt16LE (mkBuffer data 0)
    = (([], Some "Failed to read List<uint16> value at index 1. Not enough data to read uint16"),
       mkBuffer data 6).
Proof.
  intros data.
  assert (E : le_value (take 4 (drop 0 data)) = 2147483648) by reflexivity.
  assert (H1 : (4 <= Remaining (mkBuffer data 0))%nat) by (cbn; lia).
  assert (H2 : wrap 32 (Z.of_nat (Z.to_nat (le_value (take 4 (drop 0 data)))) * 2)
               <= Z.of_nat (Remaining (mkBuffer data (0 + 4)))).
  { rewrite E. change (Remaining (mkBuffer data (0 + 4))) with 2%nat.
    rewrite Z2Nat.id by lia. change (wrap 32 (2147483648 * 2)) with 0. lia. }
  assert (H3 : (Remaining (mkBuffer data (0 + 4))
                < Z.to_nat (le_value (take 4 (drop 0 data))) * 2)%nat).
  { rewrite E. change (Remaining (mkBuffer data (0 + 4))) with 2%nat. lia. }
  exact (proj1 (list_length_check_wraps (mkBuffer data 0)) H1 H2 H3).
Defined.

End ListFacts.

(** ** StreamReadMap *)
Module MapFacts.
Import crunch StreamIn StreamOut Spec StreamInFacts StreamOutFacts BufferFacts.

Section Map.
Context {K V : Type} `{Countable K}.
Variable keyReader : StreamIn -> (K * option error) * StreamIn.
Variable valueReader : StreamIn -> (V * option error) * StreamIn.

Lemma readMapEntries_Some (count : nat) (m0 m : gmap K V) (s s' : StreamIn)
    (e : option error) :
  readMapEntries keyReader valueReader count m0 s = ((Some m, e), s') ->
  e = None /\
  exists entries,
    reads_entries keyReader valueReader count s entries s' /\
    m = foldl put m0 entries.
Proof.
  revert m0 s. induction count as [|count IH]; intros m0 s; cbn [readMapEntries].
  - intros [= <- <- <-]. split; [reflexivity|]. exists []. split; [constructor | reflexivity].
  - destruct (keyReader s) as [[key [ek|]] s1] eqn:Ek; [discriminate|].
    destruct (valueReader s1) as [[value [ev|]] s2] eqn:Ev; [discriminate|].
    intros Hrec. destruct (IH _ _ Hrec) as [-> [entries [Hr ->]]].
    split; [reflexivity|]. exists ((key, value) :: entries).
    split; [econstructor; eassumption | reflexivity].
Qed.

Lemma readMapEntries_None (count : nat) (m0 : gmap K V) (s s' : StreamIn)
    (e : option error) :
  readMapEntries keyReader valueReader count m0 s = ((None, e), s') -> is_Some e.
Proof.
  revert m0 s. induction count as [|count IH]; intros m0 s; cbn [readMapEntries].
  - discriminate.
  - destruct (keyReader s) as [[key [ek|]] s1] eqn:Ek; [intros [= <- _]; eauto|].
    destruct (valueReader s1) as [[value [ev|]] s2] eqn:Ev; [intros [= <- _]; eauto|].
    apply IH.
Qed.

Lemma lookup_foldl_put_notin (entries : list (K * V)) (m0 : gmap K V) (k : K) :
  k ∉ entries.*1 -> foldl put m0 entries !! k = m0 !! k.
Proof.
  revert m0. induction entries as [|[k' v'] entries IH]; intros m0 Hk; [reflexivity|].
  cbn [foldl]. rewrite fmap_cons, not_elem_of_cons in Hk. destruct Hk as [Hne Hk].
  rewrite IH by assumption. unfold put. cbn in *. apply lookup_insert_ne. congruence.
Qed.

Lemma size_foldl_put (entries : list (K * V)) (m0 : gmap K V) :
  (size (foldl put m0 entries) <= size m0 + length entries)%nat.
Proof.
  revert m0. induction entries as [|[k v] entries IH]; intros m0; cbn [foldl length]; [lia|].
  etransitivity; [apply IH|]. unfold put. cbn.
  rewrite map_size_insert. destruct (m0 !! k); unfold id; lia.
Qed.

(** X10.  [StreamReadMap] returns a map exactly when it returns no error.
    When it returns a map, the length field was read and every key and
    every value of the announced number of entries was read without error,
    one after the other; the map holds the keys read and no others, a key
    read several times has the value read last, and the map has at most as
    many keys as the length announced. *)
Theorem StreamReadMap_result (s s' : StreamIn) (result : option (gmap K V))
    (err : option error) :
  StreamReadMap keyReader valueReader s = ((result, err), s') ->
  (is_Some result <-> err = None) /\
  forall m, result = Some m ->
    let n := Z.to_nat (le_value (take 4 (drop (boff s) (buf s)))) in
    (4 <= Remaining s)%nat /\
    exists entries,
      reads_entries keyReader valueReader n (mkBuffer (buf s) (boff s + 4))
        entries s' /\
      (forall k, k ∉ entries.*1 -> m !! k = None) /\
      (forall before k v after,
         entries = before ++ (k, v) :: after -> k ∉ after.*1 -> m !! k = Some v) /\
      (size m <= n)%nat.
Proof.
  unfold StreamReadMap.
  destruct (Nat.lt_ge_cases (Remaining s) 4) as [Hlt|Hge].
  - rewrite ReadUInt32LE_short by assumption. cbv beta iota.
    intros [= <- <- <-]. split; [|discriminate].
    split; [intros [? [=]] | discriminate].
  - rewrite (read_ok_enough _ _ _ _ _ (ReadUInt32LE_ok s)) by assumption.
    cbv beta iota. intros Hrun. destruct result as [m|].
    + destruct (readMapEntries_Some _ _ _ _ _ _ Hrun) as [-> [entries [Hr ->]]].
      split; [split; eauto|].
      set (n := Z.to_nat (le_value (take 4 (drop (boff s) (buf s))))) in *.
      intros m' [= <-]. split; [assumption|]. exists entries.
      split; [exact Hr|]. split; [|split].
      * intros k Hk. rewrite lookup_foldl_put_notin by assumption. apply lookup_empty.
      * intros before k v after -> Hk.
        rewrite foldl_app. cbn [foldl].
        rewrite lookup_foldl_put_notin by assumption.
        unfold put at 1. cbn. apply lookup_insert_eq.
      * pose proof (size_foldl_put entries ∅) as Hsize.
        rewrite map_size_empty in Hsize.
        assert (length entries = n) as <-; [|lia].
        clear -Hr. induction Hr; cbn; congruence.
    + apply readMapEntries_None in Hrun. destruct Hrun as [e ->].
      split; [|discriminate]. split; [intros [? [=]] | discriminate].
Qed.

End Map.

Lemma StreamReadMap_result_witness :
  let data := [Byte.x03; Byte.x00; Byte.x00; Byte.x00;
               Byte.x01; Byte.x0a; Byte.x02; Byte.x0b; Byte.x01; Byte.x0c] in
  exists m,
    StreamReadMap ReadUInt8 ReadUInt8 (mkBuffer data 0)
      = ((Some m, None), mkBuffer data 10) /\
    m !! 1 = Some 12 /\ m !! 2 = Some 11 /\ (size m <= 3)%nat.
Proof.
  intros data. exists {[1 := 12; 2 := 11]}.
  assert (Hrun : StreamReadMap ReadUInt8 ReadUInt8 (mkBuffer data 0)
                 = ((Some ({[1 := 12; 2 := 11]} : gmap Z Z), None), mkBuffer data 10)).
  { vm_compute. reflexivity. }
  destruct (proj2 (StreamReadMap_result ReadUInt8 ReadUInt8 _ _ _ _ Hrun)
              _ eq_refl) as (_ & entries & Hr & _ & Hlast & Hsize).
  split; [exact Hrun|]. split; [reflexivity|]. split; [reflexivity|exact Hsize].
Defined.

End MapFacts.

(** ** The session: SYN, CONNECT, PING, DISCONNECT, acknowledgments, delivery and sending *)
Module SessionFacts.
Import crunch StreamIn PRUDP Spec PacketFacts AckFacts MultiAckFacts SendFacts.

Section Session.
Context {SubT HB : Type} `{!Collaborators SubT HB}.
Implicit Types (st : @State SubT HB) (packet p : PRUDPPacket).

(** X11.  A SYN packet (without ACK and MULTI_ACK) is answered whatever its
    other flags: the [syn] event is emitted with the SYN-ACK and then
    exactly one datagram, the SYN-ACK, is sent to the peer.  The SYN-ACK has
    type SYN and the flags ACK and HAS_SIZE, the endpoints of the SYN
    swapped, the connection signature computed from the SYN and the peer's
    address, and a signature computed with an empty session key and an
    empty connection signature, whatever keys the peer had.  The peer
    records the connection signature and the endpoints of the SYN (not
    swapped); the registry is untouched. *)
Theorem syn_is_answered_with_syn_ack fuel now packet st :
  Type_ packet = SynPacket ->
  HasFlag FlagAck packet = false ->
  HasFlag FlagMultiAck packet = false ->
  exists ack st',
    processPacket fuel now packet st = Done tt st' /\
    out st' = out st ++ [Emit "syn" ack; SendRaw (address (client st)) (Bytes ack)] /\
    Type_ ack = SynPacket /\
    HasFlag FlagAck ack = true /\ HasFlag FlagHasSize ack = true /\
    SourceStreamType ack = DestinationStreamType packet /\
    SourcePort ack = DestinationPort packet /\
    DestinationStreamType ack = SourceStreamType packet /\
    DestinationPort ack = SourcePort packet /\
    getConnectionSignature ack
      = calculateConnectionSignature packet (address (client st)) /\
    getSignature ack = calculateSignature (setSignature [] ack) [] [] /\
    clientConnectionSignature (client st') = getConnectionSignature ack /\
    sourceStreamType (client st') = SourceStreamType packet /\
    sourcePort (client st') = SourcePort packet /\
    destinationStreamType (client st') = DestinationStreamType packet /\
    destinationPort (client st') = DestinationPort packet /\
    address (client st') = address (client st) /\
    clients st' = clients st.
Proof.
  intros Ht Ha Hm. rewrite processPacket_dispatch by assumption.
  rewrite Ht. change (SynPacket =? SynPacket) with true. cbv iota.
  unfold handleSyn. mrun. unfold emit, sendRaw. mrun.
  destruct (Version packet =? 0); cbn;
    (do 2 eexists; split; [reflexivity|]); cbn; rewrite <- ?app_assoc;
    repeat split; reflexivity.
Qed.

(** X12.  Packets that get no reply.  A PING without NEEDS_ACK, and a packet
    whose type is none of SYN, CONNECT, DATA, DISCONNECT and PING (in both
    cases without ACK and MULTI_ACK): processing resets the heartbeat of the
    peer and does nothing else; nothing is sent and no event is emitted. *)
Theorem packets_without_reply fuel now packet st :
  HasFlag FlagAck packet = false ->
  HasFlag FlagMultiAck packet = false ->
  (Type_ packet = PingPacket /\ HasFlag FlagNeedsAck packet = false) \/
  (Type_ packet <> SynPacket /\ Type_ packet <> ConnectPacket /\
   Type_ packet <> DataPacket /\ Type_ packet <> DisconnectPacket /\
   Type_ packet <> PingPacket) ->
  processPacket fuel now packet st = Done tt (heartbeatReset st) /\
  out (heartbeatReset st) = out st /\
  clients (heartbeatReset st) = clients st /\
  reliableSubstreams (client (heartbeatReset st))
    = reliableSubstreams (client st).
Proof.
  intros Ha Hm Hcase. rewrite processPacket_dispatch by assumption.
  split; [|repeat split].
  destruct Hcase as [[Ht Hn]|(H0 & H1 & H2 & H3 & H4)].
  - rewrite Ht. cbn. unfold handlePing, when. rewrite Hn. reflexivity.
  - destruct (Z.eqb_spec (Type_ packet) SynPacket); [contradiction|].
    destruct (Z.eqb_spec (Type_ packet) ConnectPacket); [contradiction|].
    destruct (Z.eqb_spec (Type_ packet) DataPacket); [contradiction|].
    destruct (Z.eqb_spec (Type_ packet) DisconnectPacket); [contradiction|].
    destruct (Z.eqb_spec (Type_ packet) PingPacket); [contradiction|].
    reflexivity.
Qed.

Lemma processPacket_ack fuel now packet st :
  HasFlag FlagAck packet = true ->
  HasFlag FlagMultiAck packet = false ->
  processPacket fuel now packet st =
    (let* (i, _) := reliableSubstream (SubstreamID packet) in
     AcknowledgePacket i (SequenceID packet)) (heartbeatReset st).
Proof.
  intros Ha Hm. unfold processPacket, bind at 1. cbn [resetHeartbeat modifyClient].
  rewrite Ha. cbn [orb]. unfold handleAcknowledgment. rewrite Hm. reflexivity.
Qed.

(** X13.  A packet with the ACK flag and without MULTI_ACK, of whatever type,
    on a substream that the peer has: processing removes the packet's
    sequence id from the retransmission scheduler of that substream and
    leaves every other id in flight; the other substreams, the registry and
    the events are untouched.  The packet is not dispatched on its type: a
    DISCONNECT that carries ACK does not unregister the peer. *)
Theorem single_ack_removes_one_id fuel now packet st sub :
  HasFlag FlagAck packet = true ->
  HasFlag FlagMultiAck packet = false ->
  reliableSubstreams (client st) !! Z.to_nat (SubstreamID packet) = Some sub ->
  let i := Z.to_nat (SubstreamID packet) in
  let scheduler := delete (SequenceID packet) (ResendScheduler sub) in
  let st' := withScheduler i scheduler (heartbeatReset st) in
  processPacket fuel now packet st = Done tt st' /\
  reliableSubstreams (client st') !! i = Some (mkSubstream scheduler (engine sub)) /\
  scheduler !! SequenceID packet = None /\
  (forall k, k <> SequenceID packet -> scheduler !! k = ResendScheduler sub !! k) /\
  (forall j, j <> i ->
     reliableSubstreams (client st') !! j = reliableSubstreams (client st) !! j) /\
  out st' = out st /\ clients st' = clients st.
Proof.
  intros Ha Hm Hsub i scheduler st'.
  assert (Hsub' : reliableSubstreams (client (heartbeatReset st)) !! i = Some sub)
    by exact Hsub.
  split; [|split; [|split; [|split; [|split]]]].
  - rewrite processPacket_ack by assumption. unfold bind.
    rewrite (reliableSubstream_Some _ sub) by exact Hsub'.
    apply AcknowledgePacket_spec. exact Hsub'.
  - apply withScheduler_lookup. exact Hsub'.
  - apply lookup_delete_eq.
  - intros k Hk. apply lookup_delete_ne. congruence.
  - intros j Hj. cbn. apply list_lookup_alter_ne. congruence.
  - split; reflexivity.
Qed.

Local Abbreviation quiet := (quiet (SubT:=SubT) (HB:=HB)).

Lemma quiet_ret {A} (a : A) : quiet (ret a).
Proof. intros st. split; reflexivity. Qed.

Lemma quiet_panic {A} : quiet (@panic _ _ A).
Proof. intros st. split; reflexivity. Qed.

Lemma quiet_bind {A B} (m : M A) (k : A -> M B) :
  quiet m -> (forall a, quiet (k a)) -> quiet (bind m k).
Proof.
  intros Hm Hk st. unfold bind. specialize (Hm st).
  destruct (m st) as [a st1|st1|]; [|exact Hm|exact I].
  destruct Hm as [Eo Ec]. specialize (Hk a st1).
  destruct (k a st1) as [b st2|st2|]; [| |exact I];
    destruct Hk as [Eo' Ec']; split; congruence.
Qed.

Lemma quiet_getClient : quiet getClient.
Proof. intros st. split; reflexivity. Qed.

Lemma quiet_modifyClient f : quiet (modifyClient f).
Proof. intros st. split; reflexivity. Qed.

Lemma quiet_load i : quiet (load i).
Proof.
  apply quiet_bind; [apply quiet_getClient|]. intros c.
  destruct (_ !! _); [apply quiet_ret | apply quiet_panic].
Qed.

Lemma quiet_reliableSubstream id : quiet (reliableSubstream id).
Proof.
  apply quiet_bind; [apply quiet_getClient|]. intros c.
  destruct (_ !! _); [apply quiet_ret | apply quiet_panic].
Qed.

Lemma quiet_AcknowledgePacket i k : quiet (AcknowledgePacket i k).
Proof.
  apply quiet_bind; [apply quiet_load|]. intros sub. apply quiet_modifyClient.
Qed.

Lemma quiet_acknowledgeAll i ids : quiet (acknowledgeAll i ids).
Proof.
  induction ids as [|k ids IH]; cbn [acknowledgeAll]; [apply quiet_ret|].
  apply quiet_bind; [apply quiet_AcknowledgePacket | intros _; exact IH].
Qed.

Lemma quiet_handleAcknowledgment fuel packet :
  quiet (handleAcknowledgment fuel packet).
Proof.
  unfold handleAcknowledgment. destruct (HasFlag FlagMultiAck packet).
  - unfold handleMultiAcknowledgment.
    apply quiet_bind.
    + destruct (SubstreamID packet =? 1).
      * destruct (ReadUInt8 _) as [[? ?] ?]. destruct (ReadUInt8 _) as [[? ?] ?].
        destruct (ReadUInt16LE _) as [[? ?] ?].
        apply quiet_bind; [apply quiet_reliableSubstream|].
        intros [? ?]. apply quiet_ret.
      * apply quiet_bind; [apply quiet_reliableSubstream|].
        intros [? ?]. destruct (readOldFormat _ _ _); [apply quiet_ret|].
        intros st. exact I.
    + intros [[i ids] base].
      apply quiet_bind; [apply quiet_load|]. intros sub. apply quiet_acknowledgeAll.
  - apply quiet_bind; [apply quiet_reliableSubstream|].
    intros [i ?]. apply quiet_AcknowledgePacket.
Qed.

(** X14.  A packet that carries ACK or MULTI_ACK is never answered and never
    dispatched on its type: whenever its processing returns or panics,
    nothing has been sent, no event has been emitted and the peer registry
    is as it was, whatever the packet's type, payload and other flags. *)
Theorem acknowledgments_are_never_answered fuel now packet st st' :
  HasFlag FlagAck packet || HasFlag FlagMultiAck packet = true ->
  outcome_state (processPacket fuel now packet st) = Some st' ->
  out st' = out st /\ clients st' = clients st.
Proof.
  intros Hflag. unfold processPacket. rewrite Hflag.
  pose proof (quiet_bind resetHeartbeat (fun _ => handleAcknowledgment fuel packet)
                (quiet_modifyClient _)
                (fun _ => quiet_handleAcknowledgment fuel packet) st) as Hq.
  destruct (bind _ _ st) as [[] st1|st1|]; cbn; intros [= <-]; exact Hq.
Qed.

Ltac flags_of_ack :=
  unfold signed; rewrite ?HasFlag_setSignature;
  first [ apply HasFlag_ackOf_Ack | apply HasFlag_ackOf_other; reflexivity ].

Ltac found :=
  solve [ eassumption | eapply lookup_setSubstream; found ].

Ltac run_send :=
  repeat (first
    [ progress (unfold bind, ret, getClient, sendRaw, event, modifyClient,
                  nextOutgoingUnreliableSequenceID, nextOutgoingPingSequenceID;
                cbv beta iota zeta)
    | progress (cbn [Type_ Flags SubstreamID getFragmentID SetSequenceID SetPayload
                     setSignature])
    | progress (autorewrite with pkt)
    | match goal with
      | H : HasFlag _ _ = _ |- _ => rewrite H
      | H : (Type_ _ =? _) = _ |- _ => rewrite H
      end
    | progress (cbn [negb andb])
    | erewrite reliableSubstream_Some by found
    | erewrite onEngine_Some by found
    | erewrite AddPacket_Some by found ]).

Lemma sendPacket_reliable p st sub :
  HasFlag FlagReliable p = true -> HasFlag FlagNeedsAck p = true ->
  HasFlag FlagAck p = false -> HasFlag FlagMultiAck p = false ->
  reliableSubstreams (client st) !! Z.to_nat (SubstreamID p) = Some sub ->
  exists p' st1 sub1,
    sendPacket p st = Done p' st1 /\
    SubstreamID p' = SubstreamID p /\
    SequenceID p' = (NextOutgoingSequenceID (engine sub)).1 /\
    reliableSubstreams (client st1) !! Z.to_nat (SubstreamID p) = Some sub1 /\
    ResendScheduler sub1 = <[SequenceID p' := p']> (ResendScheduler sub) /\
    out st1 = out st ++ [SendRaw (address (client st)) (Bytes p')] /\
    clients st1 = clients st.
Proof.
  intros Hr Hn Ha Hm Hsub. unfold sendPacket.
  destruct (Type_ p =? DataPacket) eqn:Ht; destruct (Type_ p =? PingPacket) eqn:Hp.
  all: run_send.
  all: do 3 eexists; split; [reflexivity|].
  all: split; [reflexivity|]; split; [reflexivity|].
  all: split; [eapply lookup_setSubstream; found|].
  all: repeat split; reflexivity.
Qed.

(** X15.  Sending and acknowledging.  A reliable packet with NEEDS_ACK (not
    an acknowledgment itself) sent on a substream that the peer has takes
    the next sequence id of that substream and is then in flight under that
    id.  When afterwards a packet with the ACK flag (without MULTI_ACK)
    arrives for that substream and that sequence id, the id is no longer in
    flight, every other id is in flight exactly if it was before the send,
    and nothing is sent in reply. *)
Theorem sent_packet_is_in_flight_until_acknowledged p st sub :
  HasFlag FlagReliable p = true -> HasFlag FlagNeedsAck p = true ->
  HasFlag FlagAck p = false -> HasFlag FlagMultiAck p = false ->
  reliableSubstreams (client st) !! Z.to_nat (SubstreamID p) = Some sub ->
  let i := Z.to_nat (SubstreamID p) in
  exists p' st1,
    sendPacket p st = Done p' st1 /\
    SequenceID p' = (NextOutgoingSequenceID (engine sub)).1 /\
    inFlight i st1 (SequenceID p') /\
    (forall k, k <> SequenceID p' -> inFlight i st1 k <-> inFlight i st k) /\
    forall fuel now ack,
      HasFlag FlagAck ack = true -> HasFlag FlagMultiAck ack = false ->
      SubstreamID ack = SubstreamID p -> SequenceID ack = SequenceID p' ->
      exists st2,
        processPacket fuel now ack st1 = Done tt st2 /\
        ~ inFlight i st2 (SequenceID p') /\
        (forall k, k <> SequenceID p' -> inFlight i st2 k <-> inFlight i st k) /\
        out st2 = out st1.
Proof.
  intros Hr Hn Ha Hm Hsub i.
  destruct (sendPacket_reliable p st sub Hr Hn Ha Hm Hsub)
    as (p' & st1 & sub1 & E & Hid & Hseq & Hsub1 & Hsched & Hout & Hc).
  fold i in Hsub, Hsub1.
  assert (Hin : forall (s : @State SubT HB) (sb : ReliablePacketSubstreamManager SubT) k,
             reliableSubstreams (client s) !! i = Some sb ->
             inFlight i s k <-> is_Some (ResendScheduler sb !! k)).
  { intros s sb k Hs. unfold inFlight. split.
    - intros (sb' & Hs' & Hk). congruence.
    - intros Hk. exists sb. split; assumption. }
  exists p', st1. split; [exact E|]. split; [exact Hseq|].
  split; [|split].
  - rewrite (Hin st1 sub1) by assumption. rewrite Hsched, lookup_insert_eq. eauto.
  - intros k Hk. rewrite (Hin st1 sub1), (Hin st sub) by assumption.
    rewrite Hsched, lookup_insert_ne by congruence. reflexivity.
  - intros fuel now ack Hack Hmulti Hsame Hsameid.
    assert (Hsub1' : reliableSubstreams (client st1) !! Z.to_nat (SubstreamID ack)
                     = Some sub1) by (rewrite Hsame; exact Hsub1).
    rewrite processPacket_ack by assumption. unfold bind.
    assert (Hhb : reliableSubstreams (client (heartbeatReset st1))
                    !! Z.to_nat (SubstreamID ack) = Some sub1) by exact Hsub1'.
    rewrite (reliableSubstream_Some _ sub1) by exact Hhb.
    rewrite (AcknowledgePacket_spec _ _ sub1) by exact Hhb.
    eexists. split; [reflexivity|].
    pose proof (withScheduler_lookup (Z.to_nat (SubstreamID ack))
                  (delete (SequenceID ack) (ResendScheduler sub1)) sub1
                  (heartbeatReset st1) Hhb) as Hl.
    rewrite Hsame in Hl |- *. fold i in Hl |- *.
    split; [|split].
    + rewrite (Hin _ _ _ Hl). cbn [ResendScheduler].
      rewrite Hsameid, lookup_delete_eq. intros [? [=]].
    + intros k Hk. rewrite (Hin _ _ _ Hl), (Hin st sub) by assumption.
      cbn [ResendScheduler].
      rewrite Hsameid, lookup_delete_ne, Hsched, lookup_insert_ne by congruence.
      reflexivity.
    + reflexivity.
Qed.

Lemma setSignature_setSignature s s' p :
  setSignature s (setSignature s' p) = setSignature s p.
Proof. reflexivity. Qed.

Lemma setSignature_getSignature p : setSignature (getSignature p) p = p.
Proof. destruct p; reflexivity. Qed.

Lemma sendPacket_ping p st :
  HasFlag FlagAck p = false -> HasFlag FlagMultiAck p = false ->
  HasFlag FlagReliable p = false -> Type_ p = PingPacket ->
  let seq := wrap 16 (outgoingPingSequenceIDCounter (client st) + 1) in
  let c' := with_outgoingPingSequenceIDCounter seq (client st) in
  let p' := signed (SetSequenceID seq p) c' in
  sendPacket p st =
    Done p' (with_out (out st ++ [SendRaw (address c') (Bytes p')])
               (with_client c' st)).
Proof.
  intros Ha Hm Hr Ht. unfold sendPacket.
  assert (Hd : (Type_ p =? DataPacket) = false) by (rewrite Ht; reflexivity).
  assert (Hp : (Type_ p =? PingPacket) = true) by (rewrite Ht; reflexivity).
  run_send. reflexivity.
Qed.

(** X16.  [sendPing] sends exactly one datagram: a PING with NEEDS_ACK on
    substream 0, from the server's endpoint to the peer's (the endpoints
    recorded for the peer, swapped), signed with the peer's session key and
    connection signature.  Its sequence id is the next value of the peer's
    ping counter, which is advanced; the substreams and their retransmission
    schedulers are untouched, so a ping is never retransmitted, and the
    registry is untouched. *)
Theorem ping_is_sent_once version st :
  exists ping st',
    sendPing version st = Done tt st' /\
    out st' = out st ++ [SendRaw (address (client st)) (Bytes ping)] /\
    Type_ ping = PingPacket /\ HasFlag FlagNeedsAck ping = true /\
    SubstreamID ping = 0 /\
    SequenceID ping = wrap 16 (outgoingPingSequenceIDCounter (client st) + 1) /\
    outgoingPingSequenceIDCounter (client st') = SequenceID ping /\
    SourceStreamType ping = destinationStreamType (client st) /\
    SourcePort ping = destinationPort (client st) /\
    DestinationStreamType ping = sourceStreamType (client st) /\
    DestinationPort ping = sourcePort (client st) /\
    getSignature ping
      = calculateSignature (setSignature [] ping) (sessionKey (client st))
          (serverConnectionSignature (client st)) /\
    reliableSubstreams (client st') = reliableSubstreams (client st) /\
    clients st' = clients st.
Proof.
  unfold sendPing, bind at 1, getClient.
  set (blank := if version =? 0 then NewPRUDPPacketV0 else NewPRUDPPacketV1).
  assert (Hblank : Flags blank = 0 /\ getSignature blank = [])
    by (subst blank; destruct (version =? 0); split; reflexivity).
  destruct Hblank as [Hflags Hsig].
  set (ping := SetSubstreamID 0
                 (SetDestinationPort (sourcePort (client st))
                    (SetDestinationStreamType (sourceStreamType (client st))
                       (SetSourcePort (destinationPort (client st))
                          (SetSourceStreamType (destinationStreamType (client st))
                             (AddFlag FlagNeedsAck (SetType PingPacket blank))))))).
  assert (Hf : Flags ping = FlagNeedsAck).
  { subst ping. cbn [Flags SetSubstreamID SetDestinationPort SetDestinationStreamType
                     SetSourcePort SetSourceStreamType AddFlag setFlags SetType].
    rewrite Hflags. reflexivity. }
  unfold bind. rewrite sendPacket_ping;
    [| unfold HasFlag; rewrite Hf; reflexivity ..| reflexivity].
  cbv zeta. unfold ret. do 2 eexists. split; [reflexivity|].
  split; [reflexivity|]. split; [reflexivity|].
  split; [unfold HasFlag, signed; cbn [Flags setSignature SetSequenceID];
          rewrite Hf; reflexivity|].
  repeat (split; [reflexivity|]).
  split; [|split; reflexivity].
  unfold signed.
  cbn [getSignature setSignature sessionKey serverConnectionSignature
       with_outgoingPingSequenceIDCounter].
  f_equal. rewrite setSignature_setSignature.
  match goal with |- ?q = _ => rewrite <- (setSignature_getSignature q) at 1 end.
  f_equal. exact Hsig.
Qed.

Lemma sendPacket_unreliable p st :
  HasFlag FlagReliable p = false ->
  exists p' st',
    sendPacket p st = Done p' st' /\
    out st' = out st ++ [SendRaw (address (client st)) (Bytes p')] /\
    Payload p' = Payload p /\ same_header p p' /\ same_peer st st'.
Proof.
  intros Hr. unfold sendPacket.
  destruct (HasFlag FlagAck p) eqn:Ha; destruct (HasFlag FlagMultiAck p) eqn:Hm;
    cbn [negb andb]; rewrite ?andb_false_r; cbn [negb andb];
    destruct (HasFlag FlagNeedsAck p) eqn:Hn;
    destruct (Type_ p =? DataPacket) eqn:Ht;
    destruct (Type_ p =? PingPacket) eqn:Hp.
  all: run_send.
  all: do 2 eexists; (split; [reflexivity|]).
  all: unfold same_header, same_peer; cbn.
  all: repeat split; reflexivity.
Qed.

Lemma sendFragments_payloads (F : Z) (n : nat) :
  0 < F ->
  forall data fragmentID packet st,
    Z.of_nat n * F <= Z.of_nat (length data) < (Z.of_nat n + 1) * F ->
    HasFlag FlagReliable packet = false ->
    exists st' ps,
      sendFragments (S n) F data fragmentID packet st = Done tt st' /\
      out st' = out st ++ datagrams st ps /\
      map Payload ps = fragmentsOf (Z.to_nat F) n data.
Proof.
  intros HF. induction n as [|n IH]; intros data fragmentID packet st Hlen Hr.
  - cbn [sendFragments].
    destruct (Z.ltb_spec (Z.of_nat (length data)) F) as [_|Hge]; [|lia].
    destruct (sendPacket_unreliable (setFragmentID 0 (SetPayload data packet)) st)
      as (p' & st' & E & Hout & Hpay & _ & _).
    { now autorewrite with pkt. }
    unfold bind. rewrite E. exists st', [p']. cbn.
    repeat split; [exact Hout|]. now rewrite Hpay.
  - rewrite sendFragments_S.
    destruct (Z.ltb_spec (Z.of_nat (length data)) F) as [Hlt|Hge]; [lia|].
    destruct (Z.ltb_spec F 0) as [Hneg|_]; [lia|].
    destruct (sendPacket_unreliable
                (setFragmentID fragmentID
                   (SetPayload (take (Z.to_nat F) data) packet)) st)
      as (p' & st1 & E & Hout & Hpay & Hh & Hp).
    { now autorewrite with pkt. }
    unfold bind. rewrite E.
    assert (Hr1 : HasFlag FlagReliable p' = false).
    { destruct Hh as (_ & Hf & _). unfold HasFlag in *. rewrite Hf. exact Hr. }
    assert (Hlen1 : Z.of_nat n * F <= Z.of_nat (length (drop (Z.to_nat F) data))
                    < (Z.of_nat n + 1) * F).
    { rewrite length_drop. lia. }
    destruct (IH (drop (Z.to_nat F) data) (wrap 8 (fragmentID + 1)) p' st1 Hlen1 Hr1)
      as (st' & ps & E' & Hout' & Hpays).
    rewrite E'. exists st', (p' :: ps). split; [reflexivity|]. split.
    + rewrite Hout', Hout. unfold datagrams. cbn. rewrite <- app_assoc.
      destruct Hp as (-> & _). reflexivity.
    + cbn. rewrite Hpays, Hpay. reflexivity.
Qed.

Lemma concat_fragmentsOf (F n : nat) (data : bytes) :
  concat (fragmentsOf F n data) = data.
Proof.
  revert data. induction n as [|n IH]; intros data; cbn.
  - apply app_nil_r.
  - rewrite IH. apply take_drop.
Qed.

Lemma length_fragmentsOf (F n : nat) (data : bytes) :
  length (fragmentsOf F n data) = S n.
Proof. revert data. induction n as [|n IH]; intros data; cbn; [|rewrite IH]; reflexivity. Qed.

Lemma lookup_fragmentsOf (F n : nat) (data : bytes) (i : nat) (piece : bytes) :
  (n * F <= length data)%nat ->
  fragmentsOf F n data !! i = Some piece ->
  ((i < n)%nat -> length piece = F) /\
  (i = n -> length piece = (length data - n * F)%nat).
Proof.
  revert data i. induction n as [|n IH]; intros data i Hlen Hl.
  - destruct i; cbn in Hl; [|discriminate]. injection Hl as <-.
    split; [lia | intros _; lia].
  - destruct i as [|i]; cbn in Hl.
    + injection Hl as <-. split; [|discriminate]. intros _. rewrite length_take. lia.
    + destruct (IH (drop F data) i) as [IH1 IH2];
        [rewrite length_drop; lia | exact Hl |].
      split; [intros Hi; apply IH1; lia|].
      intros [= ->]. rewrite IH2 by reflexivity. rewrite length_drop. lia.
Qed.

(** X17.  [Send] cuts the payload and loses nothing.  For a packet without the
    RELIABLE flag (its payload is sent as it is) and a positive fragment
    size [F], whatever the length of the payload: the payloads of the
    datagrams sent, in order, joined together are the payload given; every
    fragment but the last carries exactly [F] bytes and the last carries
    the remaining [len mod F] bytes (none when [F] divides the length). *)
Theorem Send_splits_payload packet st :
  let F := FragmentSize st in
  let len := Z.of_nat (length (Payload packet)) in
  0 < F -> HasFlag FlagReliable packet = false ->
  exists st' ps,
    Send packet st = Done tt st' /\
    out st' = out st ++ datagrams st ps /\
    concat (map Payload ps) = Payload packet /\
    Z.of_nat (length ps) = len / F + 1 /\
    forall i p, ps !! i = Some p ->
      (Z.of_nat i < len / F -> Z.of_nat (length (Payload p)) = F) /\
      (Z.of_nat i = len / F -> Z.of_nat (length (Payload p)) = len mod F).
Proof.
  intros F len HF Hr. unfold Send, bind, getServer. fold F.
  destruct (Z.eqb_spec F 0) as [?|_]; [lia|].
  rewrite Z.quot_div_nonneg by lia. fold len.
  assert (Hq : 0 <= len / F) by (apply Z.div_pos; lia).
  replace (Z.to_nat (len / F + 1)) with (S (Z.to_nat (len / F))) by lia.
  pose proof (Z.mul_div_le len F HF) as Hlo.
  pose proof (Z.mul_succ_div_gt len F HF) as Hhi.
  assert (Hb : Z.of_nat (Z.to_nat (len / F)) * F <= len
               < (Z.of_nat (Z.to_nat (len / F)) + 1) * F)
    by (rewrite Z2Nat.id by lia; lia).
  destruct (sendFragments_payloads F (Z.to_nat (len / F)) HF (Payload packet) 1 packet st
              Hb Hr) as (st' & ps & E & Hout & Hpays).
  exists st', ps. split; [exact E|]. split; [exact Hout|].
  split; [rewrite Hpays; apply concat_fragmentsOf|].
  split.
  - rewrite <- (length_map Payload), Hpays, length_fragmentsOf. lia.
  - intros i p Hp.
    assert (Hpiece : fragmentsOf (Z.to_nat F) (Z.to_nat (len / F)) (Payload packet) !! i
                     = Some (Payload p)).
    { rewrite <- Hpays, list_lookup_fmap, Hp. reflexivity. }
    apply lookup_fragmentsOf in Hpiece; [|nia].
    destruct Hpiece as [H1 H2]. split.
    + intros Hi. rewrite H1 by lia. lia.
    + intros Hi. rewrite H2 by lia.
      pose proof (Z.div_mod len F ltac:(lia)) as Hdm. nia.
Qed.

Lemma lookup_fragmentIDs (start : Z) (k i : nat) :
  0 <= start < 256 -> (i < k)%nat ->
  fragmentIDs start k !! i = Some ((start + Z.of_nat i) mod 256).
Proof.
  revert start i. induction k as [|k IH]; intros start i Hs Hi; [lia|].
  cbn [fragmentIDs]. destruct i as [|i].
  - cbn. rewrite Z.add_0_r, Z.mod_small by lia. reflexivity.
  - cbn [lookup list_lookup]. change (fragmentIDs (wrap 8 (start + 1)) k !! i
                                     = Some ((start + Z.of_nat (S i)) mod 256)).
    unfold wrap. change (2 ^ 8) with 256.
    rewrite IH by (try apply Z.mod_pos_bound; lia).
    rewrite Zplus_mod_idemp_l. do 2 f_equal. lia.
Qed.

(** X18.  Fragment ids of [Send] for a payload of any length.  With a
    positive fragment size [F] (and the substream of a reliable packet
    existing), [Send] sends [len / F + 1] datagrams; the last one has
    fragment id 0 and the one at position [i] before it has id
    [(i + 1) mod 256], the counter being a uint8.  So from 256 fragments on
    ([len >= 255 * F + F]) the fragment at position 255, which is not the
    last, carries id 0 as well. *)
Theorem Send_fragment_ids_wrap packet st :
  let F := FragmentSize st in
  let len := Z.of_nat (length (Payload packet)) in
  0 < F -> can_send packet st ->
  exists st' ps,
    Send packet st = Done tt st' /\
    out st' = out st ++ datagrams st ps /\
    Z.of_nat (length ps) = len / F + 1 /\
    (forall i p, ps !! i = Some p ->
       getFragmentID p
         = if Z.of_nat i =? len / F then 0 else (Z.of_nat i + 1) mod 256) /\
    (255 < len / F ->
       exists p, ps !! 255%nat = Some p /\ getFragmentID p = 0).
Proof.
  intros F len HF Hcan. unfold Send, bind, getServer. fold F.
  destruct (Z.eqb_spec F 0) as [?|_]; [lia|].
  rewrite Z.quot_div_nonneg by lia. fold len.
  assert (Hq : 0 <= len / F) by (apply Z.div_pos; lia).
  replace (Z.to_nat (len / F + 1)) with (S (Z.to_nat (len / F))) by lia.
  pose proof (Z.mul_div_le len F HF) as Hlo.
  pose proof (Z.mul_succ_div_gt len F HF) as Hhi.
  assert (Hb : Z.of_nat (Z.to_nat (len / F)) * F <= len
               < (Z.of_nat (Z.to_nat (len / F)) + 1) * F)
    by (rewrite Z2Nat.id by lia; lia).
  destruct (sendFragments_spec F (Z.to_nat (len / F)) HF (Payload packet) 1 packet st
              Hb Hcan) as (st' & ps & E & Hout & Hids & _).
  assert (Hn : length ps = S (Z.to_nat (len / F))).
  { rewrite <- (length_map getFragmentID), Hids, length_app.
    cbn [length]. clear. generalize 1. generalize (Z.to_nat (len / F)).
    intros n. induction n; intros z; cbn; [reflexivity|].
    specialize (IHn (wrap 8 (z + 1))). lia. }
  assert (Hlen_ids : forall start k, length (fragmentIDs start k) = k).
  { intros start k. revert start. induction k; intros; cbn; auto. }
  assert (Hid : forall i p, ps !! i = Some p ->
            getFragmentID p
              = if Z.of_nat i =? len / F then 0 else (Z.of_nat i + 1) mod 256).
  { intros i p Hp.
    assert (Hi : (map getFragmentID ps) !! i = Some (getFragmentID p))
      by (rewrite list_lookup_fmap, Hp; reflexivity).
    rewrite Hids in Hi.
    pose proof (lookup_lt_Some _ _ _ Hp) as Hlt. rewrite Hn in Hlt.
    destruct (Z.eqb_spec (Z.of_nat i) (len / F)) as [Heq|Hne].
    - rewrite lookup_app_r in Hi by (rewrite Hlen_ids; lia).
      rewrite Hlen_ids in Hi.
      replace (i - Z.to_nat (len / F))%nat with 0%nat in Hi by lia.
      cbn in Hi. congruence.
    - rewrite lookup_app_l in Hi by (rewrite Hlen_ids; lia).
      rewrite lookup_fragmentIDs in Hi by lia.
      injection Hi as <-. f_equal. lia. }
  exists st', ps. split; [exact E|]. split; [exact Hout|].
  split; [lia|]. split; [exact Hid|].
  intros Hmany.
  destruct (lookup_lt_is_Some_2 ps 255) as [p Hp]; [lia|].
  exists p. split; [exact Hp|]. rewrite (Hid _ _ Hp).
  destruct (Z.eqb_spec (Z.of_nat 255) (len / F)); reflexivity.
Qed.

(** X19.  [Send] with a fragment size that is not positive sends nothing.
    With fragment size 0 the division panics; with a negative size [F] and
    a payload shorter than [-F] the slice [data[:F]] panics; with a negative
    size and a longer payload the loop does not run and [Send] returns.  In
    every case the server and the peer are as they were and no datagram has
    been sent. *)
Theorem Send_nonpositive_fragment_size packet st :
  let F := FragmentSize st in
  let len := Z.of_nat (length (Payload packet)) in
  F <= 0 ->
  Send packet st = if (F =? 0) || (len <? - F) then Panic st else Done tt st.
Proof.
  intros F len HF. unfold Send, bind, getServer. fold F.
  destruct (Z.eqb_spec F 0) as [?|Hne]; [reflexivity|]. cbn [orb]. fold len.
  assert (Hquot : Z.quot len F = - (len / - F)).
  { replace F with (- - F) at 1 by lia. rewrite Z.quot_opp_r by lia.
    rewrite Z.quot_div_nonneg by lia. reflexivity. }
  rewrite Hquot.
  destruct (Z.ltb_spec len (- F)) as [Hlt|Hge].
  - rewrite Z.div_small by lia. change (Z.to_nat (- 0 + 1)) with 1%nat.
    rewrite sendFragments_S.
    destruct (Z.ltb_spec (Z.of_nat (length (Payload packet))) F); [lia|].
    destruct (Z.ltb_spec F 0); [reflexivity | lia].
  - assert (1 <= len / - F) by (apply Z.div_le_lower_bound; lia).
    replace (Z.to_nat (- (len / - F) + 1)) with 0%nat by lia. reflexivity.
Qed.

(** X20.  CONNECT on a server that is not secure.  The payload of the CONNECT
    is not read: one CONNECT-ACK with an empty payload is emitted as
    [connect] and sent; it has sequence id 1, session id 0, the endpoints of
    the CONNECT swapped, and as connection signature as many zero bytes as
    the connection signature computed from the CONNECT has.  The peer's PID
    and session key are as they were, its server connection signature is
    the connection signature that the CONNECT carries, and the registry is
    untouched. *)
Theorem connect_on_plain_server fuel now packet st :
  IsSecureServer st = false ->
  Type_ packet = ConnectPacket ->
  HasFlag FlagAck packet = false ->
  HasFlag FlagMultiAck packet = false ->
  exists ack st',
    processPacket fuel now packet st = Done tt st' /\
    out st' = out st ++
      [Emit "connect" ack; SendRaw (address (client st)) (Bytes ack)] /\
    Type_ ack = ConnectPacket /\
    HasFlag FlagAck ack = true /\ HasFlag FlagHasSize ack = true /\
    Payload ack = [] /\ SequenceID ack = 1 /\ SessionID ack = 0 /\
    getConnectionSignature ack
      = replicate
          (length (calculateConnectionSignature packet (address (client st))))
          Byte.x00 /\
    SourceStreamType ack = DestinationStreamType packet /\
    SourcePort ack = DestinationPort packet /\
    DestinationStreamType ack = SourceStreamType packet /\
    DestinationPort ack = SourcePort packet /\
    pid (client st') = pid (client st) /\
    sessionKey (client st') = sessionKey (client st) /\
    serverConnectionSignature (client st') = getConnectionSignature packet /\
    clients st' = clients st.
Proof.
  intros Hs Ht Ha Hm. rewrite processPacket_dispatch by assumption.
  rewrite Ht. change (ConnectPacket =? SynPacket) with false.
  change (ConnectPacket =? ConnectPacket) with true. cbv iota.
  unfold handleConnect, bind. cbn.
  destruct (Version packet =? 0) eqn:Hv; cbn; rewrite Hs; cbn;
    (do 2 eexists; split; [reflexivity|]); cbn;
    rewrite <- ?app_assoc; cbn; repeat split; reflexivity.
Qed.

Lemma deliver_events i pending packet st sub :
  reliableSubstreams (client st) !! i = Some sub ->
  Type_ packet = DataPacket ->
  exists st' messages,
    deliver i pending packet st = Done tt st' /\
    out st' = out st ++
      map (fun m => Emit "reliable-data" (SetRMCMessage (Some m) packet)) messages /\
    length messages
      = (if getFragmentID packet =? 0 then length pending else 0%nat) /\
    clients st' = clients st.
Proof.
  intros Hsub Ht. revert packet st sub Hsub Ht.
  induction pending as [|pendingPacket rest IH]; intros packet st sub Hsub Ht.
  - exists st, []. cbn. rewrite app_nil_r.
    repeat split. now destruct (getFragmentID packet =? 0).
  - cbn [deliver]. rewrite Ht. change (DataPacket =? DataPacket) with true.
    cbv iota. unfold bind at 1. unfold bind at 1.
    erewrite onEngine_Some by found. unfold bind at 1.
    erewrite onEngine_Some by found.
    destruct (getFragmentID packet =? 0) eqn:Hf.
    + unfold bind at 1. erewrite onEngine_Some by found.
      unfold bind at 1. unfold emit, event, ret.
      match goal with
      | |- context [deliver i rest ?q ?s] =>
          destruct (IH q s _ ltac:(eapply lookup_setSubstream; found) Ht)
            as (st' & messages & E & Hout & Hlen & Hc)
      end.
      change (getFragmentID (SetRMCMessage _ packet)) with (getFragmentID packet) in Hlen.
      rewrite Hf in Hlen.
      rewrite E. eexists st', (_ :: messages). split; [reflexivity|].
      split; [|split; [cbn; now rewrite Hlen | exact Hc]].
      rewrite Hout. cbn. rewrite <- app_assoc. reflexivity.
    + unfold ret.
      match goal with
      | |- context [deliver i rest ?q ?s] =>
          destruct (IH q s _ ltac:(eapply lookup_setSubstream; found) Ht)
            as (st' & messages & E & Hout & Hlen & Hc)
      end.
      rewrite Hf in Hlen. rewrite E. exists st', messages.
      split; [reflexivity|]. split; [exact Hout|]. split; [exact Hlen | exact Hc].
Qed.

(** X21.  Delivery of reliable data.  For a reliable DATA packet (without
    ACK and MULTI_ACK) on a substream that the peer has, processing returns
    and its events are: the ACK datagram when the packet has NEEDS_ACK, then
    [reliable-data] emissions, each of the received packet itself with an
    RMC message set.  Whether anything is delivered depends on the fragment
    id of the received packet alone: when it is 0 there is one emission for
    every packet that the substream's [Update] hands over, when it is not 0
    there is none, whatever [Update] hands over.  The registry is
    untouched. *)
Theorem reliable_data_delivery fuel now packet st sub :
  Type_ packet = DataPacket ->
  HasFlag FlagReliable packet = true ->
  HasFlag FlagAck packet = false ->
  HasFlag FlagMultiAck packet = false ->
  reliableSubstreams (client st) !! Z.to_nat (SubstreamID packet) = Some sub ->
  exists st' messages,
    processPacket fuel now packet st = Done tt st' /\
    out st' = out st ++
      (if HasFlag FlagNeedsAck packet then [ackDatagram packet st] else []) ++
      map (fun m => Emit "reliable-data" (SetRMCMessage (Some m) packet)) messages /\
    length messages
      = (if getFragmentID packet =? 0
         then length (Update packet (engine sub)).1 else 0%nat) /\
    clients st' = clients st.
Proof.
  intros Ht Hr Ha Hm Hsub. rewrite processPacket_dispatch by assumption.
  rewrite Ht. change (DataPacket =? SynPacket) with false.
  change (DataPacket =? ConnectPacket) with false.
  change (DataPacket =? DataPacket) with true. cbv iota.
  unfold handleData. rewrite Hr. unfold handleReliable, when.
  assert (Hdata : Type_ packet <> DisconnectPacket) by (rewrite Ht; discriminate).
  set (st0 := heartbeatReset st).
  assert (Hsub0 : reliableSubstreams (client st0) !! Z.to_nat (SubstreamID packet)
                  = Some sub) by exact Hsub.
  assert (Hrest : forall st1 : @State SubT HB,
            reliableSubstreams (client st1) !! Z.to_nat (SubstreamID packet) = Some sub ->
            exists st' messages,
              (let* (i, _) := reliableSubstream (SubstreamID packet) in
               let* pending := onEngine i (Update packet) in
               deliver i pending packet) st1 = Done tt st' /\
              out st' = out st1 ++
                map (fun m => Emit "reliable-data" (SetRMCMessage (Some m) packet))
                    messages /\
              length messages
                = (if getFragmentID packet =? 0
                   then length (Update packet (engine sub)).1 else 0%nat) /\
              clients st' = clients st1).
  { intros st1 Hsub1. unfold bind at 1.
    rewrite (reliableSubstream_Some _ sub) by exact Hsub1.
    unfold bind at 1. erewrite onEngine_Some by exact Hsub1.
    match goal with
    | |- context [deliver ?i ?pending packet ?s] =>
        destruct (deliver_events i pending packet s _
                    ltac:(eapply lookup_setSubstream; exact Hsub1) Ht)
          as (st' & messages & E & Hout & Hlen & Hc)
    end.
    exists st', messages. split; [exact E|]. split; [exact Hout|].
    split; [exact Hlen | exact Hc]. }
  destruct (HasFlag FlagNeedsAck packet) eqn:Hn.
  - unfold bind at 1. rewrite acknowledgePacket_once by exact Hdata.
    destruct (Hrest (with_out (out st0 ++ [ackDatagram packet st0]) st0) Hsub0)
      as (st' & messages & E & Hout & Hlen & Hc).
    exists st', messages. split; [exact E|].
    split; [|split; [exact Hlen | exact Hc]].
    rewrite Hout. cbn [out with_out app]. rewrite <- app_assoc. reflexivity.
  - unfold bind at 1, ret.
    destruct (Hrest st0 Hsub0) as (st' & messages & E & Hout & Hlen & Hc).
    exists st', messages. split; [exact E|].
    split; [exact Hout | split; [exact Hlen | exact Hc]].
Qed.

Lemma acknowledgePacket_sends packet st :
  exists sent,
    acknowledgePacket packet st = Done tt (with_out (out st ++ sent) st) /\
    Forall (fun e => is_send e = true) sent /\
    length sent = (if Type_ packet =? DisconnectPacket then 3%nat else 1%nat).
Proof.
  rewrite acknowledgePacket_unfold. unfold bind.
  rewrite sendPacket_ack by flags_of_ack.
  destruct (Type_ packet =? DisconnectPacket).
  - rewrite sendPacket_ack by flags_of_ack.
    rewrite sendPacket_ack by flags_of_ack.
    unfold ret. eexists [_; _; _]. split.
    { unfold with_out.
      cbn [out IsSecureServer kerberosPassword FragmentSize clients client].
      rewrite <- !app_assoc. reflexivity. }
    split; [repeat constructor | reflexivity].
  - unfold ret. eexists [_]. split; [reflexivity|].
    split; [repeat constructor | reflexivity].
Qed.

(** X22.  A DISCONNECT (without ACK and MULTI_ACK) always ends the session,
    with or without NEEDS_ACK: processing returns, the peer is cleaned up
    and removed from the registry (its address is no longer a key), and the
    last event is the [disconnect] emission of the packet.  Before it, three
    datagrams are sent when the packet has NEEDS_ACK and none when it has
    not. *)
Theorem disconnect_always_unregisters fuel now packet st :
  Type_ packet = DisconnectPacket ->
  HasFlag FlagAck packet = false ->
  HasFlag FlagMultiAck packet = false ->
  exists st' sent,
    processPacket fuel now packet st = Done tt st' /\
    out st' = out st ++ sent ++ [Emit "disconnect" packet] /\
    Forall (fun e => is_send e = true) sent /\
    length sent = (if HasFlag FlagNeedsAck packet then 3%nat else 0%nat) /\
    clients st' = delete (address (client st)) (clients st) /\
    clients st' !! address (client st) = None /\
    client st' = cleanup (client (heartbeatReset st)).
Proof.
  intros Ht Ha Hm. rewrite processPacket_dispatch by assumption.
  rewrite Ht. change (DisconnectPacket =? SynPacket) with false.
  change (DisconnectPacket =? ConnectPacket) with false.
  change (DisconnectPacket =? DataPacket) with false.
  change (DisconnectPacket =? DisconnectPacket) with true. cbv iota.
  unfold handleDisconnect, when.
  destruct (HasFlag FlagNeedsAck packet) eqn:Hn.
  - destruct (acknowledgePacket_sends packet (heartbeatReset st))
      as (sent & E & Hsent & Hlen).
    rewrite Ht in Hlen. change (DisconnectPacket =? DisconnectPacket) with true in Hlen.
    unfold bind at 1. rewrite E.
    unfold ret, bind, modifyClient, getClient, emit, event.
    eexists _, sent. split; [reflexivity|].
    cbn [out with_out with_client with_clients clients client].
    rewrite <- !app_assoc.
    split; [reflexivity|]. split; [exact Hsent|].
    split; [exact Hlen|]. split; [reflexivity|].
    split; [apply lookup_delete_eq | reflexivity].
  - unfold ret, bind, modifyClient, getClient, emit, event.
    eexists _, []. split; [reflexivity|].
    cbn [out with_out with_client with_clients clients client app].
    split; [reflexivity|]. split; [constructor|].
    split; [reflexivity|]. split; [reflexivity|].
    split; [apply lookup_delete_eq | reflexivity].
Qed.

End Session.

Import Toy.

Lemma syn_is_answered_with_syn_ack_witness :
  exists ack st',
    processPacket 0 0 (packet0 SynPacket FlagNeedsAck 0 0 [])
      (server0 false 1300 peerInFlight) = Done tt st' /\
    out st' = [Emit "syn" ack; SendRaw "10.0.0.2:5000" (toyBytes ack)] /\
    SourcePort ack = 15 /\ DestinationPort ack = 1.
Proof.
  destruct (@syn_is_answered_with_syn_ack Engine nat toy 0 0
              (packet0 SynPacket FlagNeedsAck 0 0 [])
              (server0 false 1300 peerInFlight)
              eq_refl eq_refl eq_refl)
    as (ack & st' & E & Hout & _ & _ & _ & _ & Hsp & _ & Hdp & _).
  exists ack, st'. repeat split; assumption.
Defined.

Lemma packets_without_reply_witness :
  let st := server0 false 1300 peerInFlight in
  processPacket 0 0 (packet0 PingPacket 0 7 0 []) st = Done tt (heartbeatReset st).
Proof.
  intros st.
  exact (proj1 (@packets_without_reply Engine nat toy 0 0
                  (packet0 PingPacket 0 7 0 []) st eq_refl eq_refl
                  (or_introl (conj eq_refl eq_refl)))).
Defined.

Lemma single_ack_removes_one_id_witness :
  let packet := packet0 DisconnectPacket FlagAck 5 0 [] in
  let st := server0 false 1300 peerInFlight in
  exists st' sub',
    processPacket 0 0 packet st = Done tt st' /\
    reliableSubstreams (client st') !! 0%nat = Some sub' /\
    ResendScheduler sub' !! 5 = None /\
    is_Some (ResendScheduler sub' !! 3) /\
    clients st' = clients st.
Proof.
  intros packet st.
  destruct (@single_ack_removes_one_id Engine nat toy 0 0 packet st
              (mkSubstream {[3 := packet0 DataPacket 6 3 0 [];
                             5 := packet0 DataPacket 6 5 0 []]} (mkEngine 6 []))
              eq_refl eq_refl eq_refl)
    as (E & Hl & Hnone & Hother & _ & _ & Hc).
  do 2 eexists. split; [exact E|]. split; [exact Hl|].
  split; [exact Hnone|]. split; [|exact Hc].
  cbn [ResendScheduler]. rewrite Hother by discriminate. cbn [ResendScheduler].
  exists (packet0 DataPacket 6 3 0 []). reflexivity.
Defined.

Lemma acknowledgments_are_never_answered_witness :
  let packet := packet0 DisconnectPacket (Z.lor FlagAck FlagNeedsAck) 5 0 [] in
  let st := server0 false 1300 peerInFlight in
  exists st',
    processPacket 0 0 packet st = Done tt st' /\
    out st' = [] /\ clients st' !! "10.0.0.2:5000" = Some 1%nat.
Proof.
  intros packet st.
  destruct (processPacket 0 0 packet st) as [[] st'|st'|] eqn:E;
    [|vm_compute in E; discriminate..].
  exists st'. split; [reflexivity|].
  destruct (@acknowledgments_are_never_answered Engine nat toy 0 0 packet st st'
              eq_refl (f_equal outcome_state E)) as [Ho Hc].
  split; [exact Ho | rewrite Hc; reflexivity].
Defined.

Lemma sent_packet_is_in_flight_until_acknowledged_witness :
  let p := packet0 DataPacket (Z.lor FlagReliable FlagNeedsAck) 0 0 [Byte.x41] in
  let st := server0 false 1300 peerInFlight in
  exists p' st1,
    sendPacket p st = Done p' st1 /\ SequenceID p' = 6 /\ inFlight 0 st1 6.
Proof.
  intros p st.
  destruct (@sent_packet_is_in_flight_until_acknowledged Engine nat toy p st
              (mkSubstream {[3 := packet0 DataPacket 6 3 0 [];
                             5 := packet0 DataPacket 6 5 0 []]} (mkEngine 6 []))
              eq_refl eq_refl eq_refl eq_refl eq_refl)
    as (p' & st1 & E & Hseq & Hin & _).
  exists p', st1. split; [exact E|]. split; [exact Hseq|].
  rewrite Hseq in Hin. exact Hin.
Defined.

Lemma Send_splits_payload_witness :
  let packet := packet0 DataPacket 0 0 0
                  [Byte.x01; Byte.x02; Byte.x03; Byte.x04; Byte.x05] in
  let st := server0 false 2 peer0 in
  exists st' ps,
    Send packet st = Done tt st' /\
    out st' = out st ++ datagrams st ps /\
    concat (map Payload ps) = Payload packet /\
    Z.of_nat (length ps) = 3.
Proof.
  intros packet st.
  assert (HF : 0 < FragmentSize st) by (cbn; lia).
  destruct (@Send_splits_payload Engine nat toy packet st HF eq_refl)
    as (st' & ps & E & Hout & Hcat & Hn & _).
  exists st', ps. repeat split; assumption.
Defined.

Lemma Send_fragment_ids_wrap_witness :
  let packet := packet0 DataPacket (Z.lor FlagReliable FlagNeedsAck) 0 0
                  [Byte.x01; Byte.x02; Byte.x03; Byte.x04; Byte.x05] in
  let st := server0 false 2 peer0 in
  exists st' ps,
    Send packet st = Done tt st' /\
    out st' = out st ++ datagrams st ps /\
    Z.of_nat (length ps) = 3.
Proof.
  intros packet st.
  assert (HF : 0 < FragmentSize st) by (cbn; lia).
  assert (Hcan : can_send packet st) by (intros _; eexists; reflexivity).
  destruct (@Send_fragment_ids_wrap Engine nat toy packet st HF Hcan)
    as (st' & ps & E & Hout & Hn & _).
  exists st', ps. repeat split; assumption.
Defined.

Lemma Send_nonpositive_fragment_size_witness :
  let packet := packet0 DataPacket 0 0 0 [Byte.x01; Byte.x02; Byte.x03] in
  Send packet (server0 false (-2) peer0) = Done tt (server0 false (-2) peer0) /\
  Send packet (server0 false (-4) peer0) = Panic (server0 false (-4) peer0) /\
  Send packet (server0 false 0 peer0) = Panic (server0 false 0 peer0).
Proof.
  intros packet.
  assert (H2 : FragmentSize (server0 false (-2) peer0) <= 0) by (cbn; lia).
  assert (H4 : FragmentSize (server0 false (-4) peer0) <= 0) by (cbn; lia).
  assert (H0 : FragmentSize (server0 false 0 peer0) <= 0) by (cbn; lia).
  split; [|split].
  - exact (@Send_nonpositive_fragment_size Engine nat toy packet _ H2).
  - exact (@Send_nonpositive_fragment_size Engine nat toy packet _ H4).
  - exact (@Send_nonpositive_fragment_size Engine nat toy packet _ H0).
Defined.

Lemma connect_on_plain_server_witness :
  exists ack st',
    processPacket 0 0 (packet0 ConnectPacket FlagNeedsAck 1 0 connectPayload0)
      (server0 false 1300 peer0) = Done tt st' /\
    out st' = [Emit "connect" ack; SendRaw "10.0.0.2:5000" (toyBytes ack)] /\
    Payload ack = [] /\ pid (client st') = 0.
Proof.
  destruct (@connect_on_plain_server Engine nat toy 0 0
              (packet0 ConnectPacket FlagNeedsAck 1 0 connectPayload0)
              (server0 false 1300 peer0) eq_refl eq_refl eq_refl eq_refl)
    as (ack & st' & E & Hout & _ & _ & _ & Hpay & _ & _ & _ & _ & _ & _ & _ & Hpid & _).
  exists ack, st'. repeat split; assumption.
Defined.

Lemma reliable_data_delivery_witness :
  let packet := packet0 DataPacket (Z.lor FlagReliable FlagNeedsAck) 1 0
                        [Byte.x41; Byte.x42] in
  let st := server0 false 1300 peer0 in
  exists st' messages,
    processPacket 0 0 packet st = Done tt st' /\
    out st' = ackDatagram packet st
              :: map (fun m => Emit "reliable-data" (SetRMCMessage (Some m) packet))
                     messages /\
    length messages = 1%nat.
Proof.
  intros packet st.
  destruct (@reliable_data_delivery Engine nat toy 0 0 packet st
              (mkSubstream ∅ (mkEngine 1 [])) eq_refl eq_refl eq_refl eq_refl eq_refl)
    as (st' & messages & E & Hout & Hlen & _).
  exists st', messages. split; [exact E|]. split; [exact Hout | exact Hlen].
Defined.

Lemma disconnect_always_unregisters_witness :
  let packet := packet0 DisconnectPacket 0 9 0 [] in
  let st := server0 false 1300 peer0 in
  exists st',
    processPacket 0 0 packet st = Done tt st' /\
    out st' = [Emit "disconnect" packet] /\
    clients st' !! "10.0.0.2:5000" = None.
Proof.
  intros packet st.
  destruct (@disconnect_always_unregisters Engine nat toy 0 0 packet st
              eq_refl eq_refl eq_refl)
    as (st' & sent & E & Hout & _ & Hlen & _ & Hnone & _).
  exists st'. split; [exact E|].
  destruct sent; [|discriminate Hlen]. split; [exact Hout | exact Hnone].
Defined.

End SessionFacts.

(** ** ReadPID *)
Module PIDFacts.
Import crunch StreamIn Spec StreamInFacts StreamOutFacts.


End PIDFacts.

(** ** What a multi-acknowledgment that returns acknowledges *)
Module MultiAckResults.
Import crunch StreamIn PRUDP Spec StreamInFacts PacketFacts AckFacts MultiAckFacts
  SendFacts SessionFacts.

Lemma ReadUInt8_first (b : byte) (l : bytes) :
  ReadUInt8 (mkBuffer (b :: l) 0) = ((u8 b, None), mkBuffer (b :: l) 1).
Proof. reflexivity. Qed.

Lemma ReadUInt8_second (a b : byte) (l : bytes) :
  ReadUInt8 (mkBuffer (a :: b :: l) 1) = ((u8 b, None), mkBuffer (a :: b :: l) 2).
Proof. reflexivity. Qed.

Lemma u16s_take_S (count : nat) (a b : byte) (l : bytes) :
  u16s (take (2 * S count) (a :: b :: l))
    = le_value [a; b] :: u16s (take (2 * count) l).
Proof.
  replace (2 * S count)%nat with (S (S (2 * count))) by lia. reflexivity.
Qed.

Lemma readNewFormat_enough (count : nat) (s : StreamIn) (acc : list Z) :
  (2 * count <= Remaining s)%nat ->
  readNewFormat count s acc
    = acc ++ u16s (take (2 * count) (drop (boff s) (buf s))).
Proof.
  revert s acc. induction count as [|count IH]; intros s acc Hrem.
  - cbn. now rewrite app_nil_r.
  - cbn [readNewFormat]. rewrite ReadUInt16LE_enough by lia.
    rewrite IH by (rewrite Remaining_seek; lia). cbn [buf boff].
    rewrite <- app_assoc. f_equal.
    unfold Remaining, ByteOffset, crunch.Bytes in Hrem.
    destruct (drop (boff s) (buf s)) as [|a [|b l]] eqn:E; cbn [length] in Hrem; try lia.
    rewrite u16s_take_S. rewrite <- drop_drop, E. reflexivity.
Qed.

Section Results.
Context {SubT HB : Type} `{!Collaborators SubT HB}.
Implicit Types (st : @State SubT HB) (packet p : PRUDPPacket).

Lemma inFlight_withScheduler i (m : gmap Z PRUDPPacket) st sub k :
  reliableSubstreams (client st) !! i = Some sub ->
  inFlight i (withScheduler i m st) k <-> is_Some (m !! k).
Proof.
  intros Hsub. unfold inFlight.
  rewrite (withScheduler_lookup i m sub st Hsub). split.
  - intros (sub' & [= <-] & Hk). exact Hk.
  - intros Hk. eexists. split; [reflexivity | exact Hk].
Qed.

Lemma inFlight_afterAck i base ids st sub k :
  reliableSubstreams (client st) !! i = Some sub ->
  inFlight i (withScheduler i (afterAck base ids (ResendScheduler sub)) st) k
  <-> inFlight i st k /\ base < k /\ k ∉ ids.
Proof.
  intros Hsub. rewrite (inFlight_withScheduler _ _ _ sub) by exact Hsub.
  unfold afterAck, acknowledged, inFlight. split.
  - intros [v Hv]. apply map_lookup_filter_Some in Hv. destruct Hv as [Hv Hn].
    cbn in Hn. split; [exists sub; split; [exact Hsub | eauto]|].
    split; [destruct (Z.le_gt_cases k base); [tauto | lia] | tauto].
  - intros [(sub' & Hs & [v Hv]) [Hb Hi]].
    assert (sub' = sub) as -> by congruence.
    exists v. apply map_lookup_filter_Some. split; [exact Hv|]. cbn.
    intros [?|?]; [lia | contradiction].
Qed.

Lemma processPacket_multi_ack fuel now packet st :
  HasFlag FlagMultiAck packet = true ->
  processPacket fuel now packet st
    = handleMultiAcknowledgment fuel packet (heartbeatReset st).
Proof.
  intros Hm. unfold processPacket, bind. cbn [resetHeartbeat modifyClient].
  rewrite Hm, orb_true_r. unfold handleAcknowledgment. rewrite Hm. reflexivity.
Qed.

(** X24.  A multi-acknowledgment in the new format (MULTI_ACK flag, substream
    id 1) whose payload is a substream id byte, a count byte, a 16-bit base
    sequence id and at least [count] 16-bit ids, all little-endian, for a
    substream that the peer has: processing returns; on the substream named
    in the payload a sequence id is in flight afterwards exactly if it was
    in flight before, is greater than the base and is not among the first
    [count] ids listed; bytes behind those ids are ignored; the other
    substreams, the events and the registry are untouched. *)
Theorem new_format_multi_ack_acknowledges fuel now packet st sub
    (substream count lo hi : byte) (listed : bytes) :
  HasFlag FlagMultiAck packet = true ->
  SubstreamID packet = 1 ->
  Payload packet = substream :: count :: lo :: hi :: listed ->
  (2 * Z.to_nat (u8 count) <= length listed)%nat ->
  reliableSubstreams (client st) !! Z.to_nat (u8 substream) = Some sub ->
  let i := Z.to_nat (u8 substream) in
  let base := le_value [lo; hi] in
  let ids := u16s (take (2 * Z.to_nat (u8 count)) listed) in
  exists st',
    processPacket fuel now packet st = Done tt st' /\
    (forall k, inFlight i st' k <-> inFlight i st k /\ base < k /\ k ∉ ids) /\
    (forall j, j <> i ->
       reliableSubstreams (client st') !! j = reliableSubstreams (client st) !! j) /\
    out st' = out st /\ clients st' = clients st.
Proof.
  intros Hm Hs Hpay Hlen Hsub i base ids.
  assert (Hnew : newFormat (Payload packet) = (u8 substream, base, ids)).
  { unfold newFormat. rewrite Hpay.
    set (payload := substream :: count :: lo :: hi :: listed).
    unfold NewStreamIn, NewBuffer.
    subst payload. rewrite ReadUInt8_first, ReadUInt8_second.
    rewrite ReadUInt16LE_enough
      by (unfold Remaining, ByteOffset, crunch.Bytes; cbn; lia).
    rewrite readNewFormat_enough
      by (unfold Remaining, ByteOffset, crunch.Bytes; cbn [buf boff];
          rewrite length_drop; cbn [length]; lia).
    reflexivity. }
  pose proof (multi_ack_new_format fuel packet (heartbeatReset st) sub Hs) as Hrun.
  rewrite Hnew in Hrun. specialize (Hrun Hsub).
  rewrite processPacket_multi_ack by exact Hm.
  eexists. split; [exact Hrun|].
  split; [|split; [|split; reflexivity]].
  - intros k. subst i.
    rewrite (inFlight_afterAck _ _ _ (heartbeatReset st) sub) by exact Hsub.
    reflexivity.
  - intros j Hj. cbn. apply list_lookup_alter_ne. subst i. congruence.
Qed.

(** X25.  A multi-acknowledgment in the old format (MULTI_ACK flag, substream
    id other than 1) whose payload has an even number of bytes, for a peer
    that has substream 0: processing returns (the loop reads one 16-bit id
    per two bytes); on substream 0 a sequence id is in flight afterwards
    exactly if it was in flight before, is greater than the packet's own
    sequence id and is not among the ids listed in the payload; the events
    and the registry are untouched. *)
Theorem old_format_multi_ack_acknowledges fuel now packet st sub :
  HasFlag FlagMultiAck packet = true ->
  SubstreamID packet <> 1 ->
  Nat.Even (length (Payload packet)) ->
  (length (Payload packet) < 2 * fuel)%nat ->
  reliableSubstreams (client st) !! 0%nat = Some sub ->
  exists st',
    processPacket fuel now packet st = Done tt st' /\
    (forall k, inFlight 0 st' k <->
               inFlight 0 st k /\ SequenceID packet < k /\
               k ∉ u16s (Payload packet)) /\
    out st' = out st /\ clients st' = clients st.
Proof.
  intros Hm Hs Heven Hfuel Hsub.
  rewrite processPacket_multi_ack by exact Hm.
  rewrite (multi_ack_old_format fuel packet (heartbeatReset st) sub Hs Hsub Heven Hfuel).
  eexists. split; [reflexivity|]. split; [|split; reflexivity].
  intros k.
  rewrite (inFlight_afterAck _ _ _ (heartbeatReset st) sub) by exact Hsub.
  reflexivity.
Qed.

End Results.

Import Toy.

Lemma new_format_multi_ack_acknowledges_witness :
  let packet :=
    SetSubstreamID 1
      (packet0 DataPacket FlagMultiAck 0 0
         [Byte.x00; Byte.x02; Byte.x08; Byte.x00;
          Byte.x09; Byte.x00; Byte.x0b; Byte.x00]) in
  let st := server0 false 1300 peerS5 in
  exists st',
    processPacket 0 0 packet st = Done tt st' /\
    inFlight 0 st' 10 /\ ~ inFlight 0 st' 9 /\ ~ inFlight 0 st' 7.
Proof.
  intros packet st.
  destruct (@new_format_multi_ack_acknowledges Engine nat toy 0 0 packet st
              (mkSubstream
                 (list_to_map
                    (map (fun k => (k, packet0 DataPacket 6 k 0 [])) [5; 7; 8; 9; 10]))
                 (mkEngine 11 []))
              Byte.x00 Byte.x02 Byte.x08 Byte.x00 [Byte.x09; Byte.x00; Byte.x0b; Byte.x00]
              eq_refl eq_refl eq_refl ltac:(cbn; lia) eq_refl)
    as (st' & E & Hin & _).
  exists st'. split; [exact E|]. split; [|split].
  - apply Hin. split; [|split].
    + eexists. split; [reflexivity|]. eexists. reflexivity.
    + cbn. lia.
    + change (10 ∉ [9; 11]). rewrite !not_elem_of_cons.
      split; [lia|]. split; [lia | apply not_elem_of_nil].
  - intros H. apply Hin in H. destruct H as (_ & _ & Hn). apply Hn.
    change (9 ∈ [9; 11]). apply elem_of_cons. left. reflexivity.
  - intros H. apply Hin in H. destruct H as (_ & Hb & _). cbn in Hb. lia.
Defined.

Lemma old_format_multi_ack_acknowledges_witness :
  let packet := packet0 DataPacket FlagMultiAck 3 0 [Byte.x05; Byte.x00] in
  let st := server0 false 1300 peerInFlight in
  exists st',
    processPacket 2 0 packet st = Done tt st' /\
    ~ inFlight 0 st' 5 /\ ~ inFlight 0 st' 3.
Proof.
  intros packet st.
  destruct (@old_format_multi_ack_acknowledges Engine nat toy 2 0 packet st
              (mkSubstream {[3 := packet0 DataPacket 6 3 0 [];
                             5 := packet0 DataPacket 6 5 0 []]} (mkEngine 6 []))
              eq_refl ltac:(discriminate) (ex_intro _ 1%nat eq_refl)
              ltac:(cbn; lia) eq_refl)
    as (st' & E & Hin & _).
  exists st'. split; [exact E|]. split.
  - intros H. apply Hin in H. destruct H as (_ & _ & Hn). apply Hn.
    change (5 ∈ [5]). apply elem_of_cons. left. reflexivity.
  - intros H. apply Hin in H. destruct H as (_ & Hb & _). cbn in Hb. lia.
Defined.

End MultiAckResults.
